(** * DIGIPIN: the encoder and decoder of [index.ts], over binary64 numbers

    The program works on JavaScript numbers, which are IEEE 754 binary64
    values.  They are modelled by Rocq's primitive [float], whose
    operations are the binary64 operations rounded to nearest-even, so
    every definition below computes what the program computes, bit for
    bit.  Strings are sequences of code units ([ascii]), the lookup map is
    a [gmap], the set of hyphen positions a [gset], and a thrown [Error]
    is the [Err] case of a result type. *)

From Stdlib Require Import ZArith QArith Floats Uint63 Lia Bool Reals Lra Psatz.
From Stdlib Require Import Ascii String DecimalString.
From stdpp Require Import gmap strings list.

Set Warnings "-inexact-float".
Open Scope float_scope.

(** ** Results of functions that may throw *)

Inductive axis := Latitude | Longitude.

(** The [Error]s of the program, with the values their messages quote:
    - [OutOfRange a v lo hi] is [`${a} ${v} out of range [${lo}, ${hi}]`];
    - [InvalidLength n k] is [`Invalid DIGIPIN length: ${n}, expected ${k}`];
    - [InvalidCharacter c i] is
      [`Invalid character '${c}' at position ${i} in DIGIPIN`], where [c]
      is a character of the code or [undefined];
    - [TypeError] is what the engine throws when a property of [undefined]
      is read. *)
Inductive error :=
| OutOfRange (a : axis) (value lo hi : float)
| InvalidLength (observed expected : nat)
| InvalidCharacter (c : option ascii) (position : nat)
| TypeError.

Inductive result (A : Type) :=
| Ok (a : A)
| Err (e : error).
Arguments Ok {A} a.
Arguments Err {A} e.

Definition bind {A B} (r : result A) (k : A -> result B) : result B :=
  match r with
  | Ok a => k a
  | Err e => Err e
  end.

(** A [for] loop whose counter takes the values of [counters] in turn and
    whose body may throw. *)
Fixpoint for_loop {S} (body : nat -> S -> result S) (counters : list nat)
    (s : S) : result S :=
  match counters with
  | [] => Ok s
  | i :: rest => bind (body i s) (for_loop body rest)
  end.

Definition is_ok {A} (r : result A) : bool :=
  match r with Ok _ => true | Err _ => false end.

(** ** The operations of the language that the program uses *)

Module JS.

(** The number that an integer of less than 63 bits denotes. *)
Definition Z2F (n : Z) : float :=
  match n with
  | Z0 => 0
  | Zpos _ => of_uint63 (Uint63.of_Z n)
  | Zneg p => - of_uint63 (Uint63.of_Z (Zpos p))
  end.

(** [Math.floor]: NaN, the infinities, the zeros and the numbers with no
    fractional bit are returned as they are; the others have less than
    53 integer bits. *)
Definition Math_floor (x : float) : float :=
  match Prim2SF x with
  | S754_finite s m e =>
      if (0 <=? e)%Z then x
      else Z2F (Z.shiftr (cond_Zopp s (Zpos m)) (- e))
  | _ => x
  end.

(** [Math.round]: the nearest integer, a tie going to the larger one; a
    negative number that rounds to zero gives [-0]. *)
Definition Math_round (x : float) : float :=
  match Prim2SF x with
  | S754_finite s m e =>
      if (0 <=? e)%Z then x
      else
        let n := Z.shiftr (2 * cond_Zopp s (Zpos m) + 2 ^ (- e)) (- e + 1) in
        if (n =? 0)%Z then (if s then -0 else 0) else Z2F n
  | _ => x
  end.

(** [Math.max] and [Math.min] of two numbers: NaN if one of them is NaN,
    and [+0] counts as larger than [-0]. *)
Definition Math_max (a b : float) : float :=
  if is_nan a || is_nan b then nan
  else if a <? b then b
  else if b <? a then a
  else if get_sign a then b else a.

Definition Math_min (a b : float) : float :=
  if is_nan a || is_nan b then nan
  else if a <? b then a
  else if b <? a then b
  else if get_sign a then a else b.

(** The integer that a number denotes, when it denotes one. *)
Definition F2Z (x : float) : option Z :=
  match Prim2SF x with
  | S754_zero _ => Some 0%Z
  | S754_finite s m e =>
      if (0 <=? e)%Z then Some (cond_Zopp s (Zpos m * 2 ^ e))
      else if (Zpos m mod 2 ^ (- e) =? 0)%Z
           then Some (cond_Zopp s (Zpos m / 2 ^ (- e)))
           else None
  | _ => None
  end.

(** [a[i]] for an array [a] and a number [i]: the property key is the
    string of [i], which names an element only when [i] is an integer
    from 0 to [a.length - 1] ([-0] has the string "0"); otherwise the
    value is [undefined], here [None]. *)
Definition array_get {A} (a : list A) (i : float) : option A :=
  match F2Z i with
  | Some n =>
      if ((0 <=? n) && (n <? Z.of_nat (length a)))%Z
      then a !! Z.to_nat n
      else None
  | None => None
  end.

(** What [toFixed] returns: a string of digits, or, for a number that is
    not finite or is at least 1e21, the string [String(x)] of that
    number, which is kept symbolic. *)
Inductive numeral :=
| Digits (s : string)
| ToString (x : float).

Definition digits_of_N (n : N) : string :=
  NilZero.string_of_uint (N.to_uint n).

Fixpoint zeros (k : nat) : string :=
  match k with
  | O => EmptyString
  | S k' => String "0" (zeros k')
  end.

(** The integer [n] for which [n / 10^f - x] is closest to zero, the
    larger one on a tie, for [x = m * 2^e >= 0]. *)
Definition scaled_nearest (f : nat) (m : positive) (e : Z) : Z :=
  if (0 <=? e)%Z then Zpos m * 2 ^ e * 10 ^ Z.of_nat f
  else Z.shiftr (2 * (Zpos m * 10 ^ Z.of_nat f) + 2 ^ (- e)) (- e + 1).

(** The digits of [n] with a point before the last [f] of them, padded
    with zeros so that at least one digit stands before the point. *)
Definition with_point (f : nat) (n : Z) : string :=
  let m := digits_of_N (Z.to_N n) in
  let k := String.length m in
  let m := if (k <=? f)%nat then (zeros (f + 1 - k) ++ m)%string else m in
  let k := String.length m in
  (substring 0 (k - f) m ++ "." ++ substring (k - f) f m)%string.

(** [x.toFixed(f)] for [1 <= f <= 100]. *)
Definition toFixed (f : nat) (x : float) : numeral :=
  match Prim2SF x with
  | S754_zero _ => Digits (with_point f 0)
  | S754_finite s m e =>
      if 1e21 <=? abs x then ToString x
      else
        let body := with_point f (scaled_nearest f m e) in
        Digits (if s then ("-" ++ body)%string else body)
  | _ => ToString x
  end.

End JS.
Import JS.

(** ** The grid model *)

Record position := { row : nat; col : nat }.

Definition DIGIPIN_GRID : list (list ascii) :=
  [ ["F"; "C"; "9"; "8"];
    ["J"; "3"; "2"; "7"];
    ["K"; "4"; "5"; "6"];
    ["L"; "M"; "P"; "T"] ]%char.

(** The entry [DIGIPIN_GRID[r][c]] for loop counters [r] and [c]. *)
Definition symbolAt (r c : nat) : option ascii :=
  DIGIPIN_GRID !! r ≫= (.!! c).

(** The two loops that fill [CHAR_TO_POSITION]: [r] and [c] run from 0 to
    3 and the map receives [{ row: r, col: c }] under the key
    [DIGIPIN_GRID[r][c]]. *)
Definition CHAR_TO_POSITION : gmap ascii position :=
  foldl (fun m r =>
    foldl (fun m c =>
      match symbolAt r c with
      | Some ch => <[ ch := {| row := r; col := c |} ]> m
      | None => m
      end) m (seq 0 4)) ∅ (seq 0 4).

Record bounds := {
  minLat : float;
  maxLat : float;
  minLon : float;
  maxLon : float
}.

Definition BOUNDS : bounds :=
  {| minLat := 2.5; maxLat := 38.5; minLon := 63.5; maxLon := 99.5 |}.

Definition DIGIPIN_LENGTH : nat := 10.
Definition GRID_SIZE : float := 4.
Definition HYPHEN_POSITIONS : gset nat := {[ 3%nat; 6%nat ]}.

(** A loop counter, or a field of a stored position, as a number. *)
Definition number (n : nat) : float := Z2F (Z.of_nat n).

(** [digiPin.replace(/-/g, '')], and the loop of the typed variant that
    copies every character but the hyphens. *)
Definition remove_hyphens (digiPin : list ascii) : list ascii :=
  filter (fun c => c <> "-"%char) digiPin.

Record coordinates (A : Type) := { latitude : A; longitude : A }.
Arguments latitude {A} c.
Arguments longitude {A} c.

(** ** [index.ts] *)

(** The local variables of [getDigiPin] that the loop updates: the four
    bounds and the array [result], whose elements are one-character
    strings or [undefined]. *)
Record encoder := { cell : bounds; out : list (option ascii) }.

(** [result.join('')]: an [undefined] element contributes nothing. *)
Definition join (result : list (option ascii)) : string :=
  string_of_list_ascii (omap (fun entry => entry) result).

(** The row and the column that one level computes. *)
Definition grid_row (lat : float) (b : bounds) : float :=
  let latDiv := (maxLat b - minLat b) / GRID_SIZE in
  Math_min 3 (Math_max 0 (3 - Math_floor ((lat - minLat b) / latDiv))).

Definition grid_col (lon : float) (b : bounds) : float :=
  let lonDiv := (maxLon b - minLon b) / GRID_SIZE in
  Math_min 3 (Math_max 0 (Math_floor ((lon - minLon b) / lonDiv))).

(** The bounds of the next level. *)
Definition narrow (b : bounds) (row col : float) : bounds :=
  let latDiv := (maxLat b - minLat b) / GRID_SIZE in
  let lonDiv := (maxLon b - minLon b) / GRID_SIZE in
  let newMinLat := minLat b + latDiv * (3 - row) in
  let newMinLon := minLon b + lonDiv * col in
  {| minLat := newMinLat; maxLat := newMinLat + latDiv;
     minLon := newMinLon; maxLon := newMinLon + lonDiv |}.

(** The body of the loop of [getDigiPin].  [DIGIPIN_GRID[row][col]]
    throws when [DIGIPIN_GRID[row]] is [undefined]. *)
Definition encode_level (lat lon : float) (level : nat) (s : encoder)
    : result encoder :=
  let row := grid_row lat (cell s) in
  let col := grid_col lon (cell s) in
  match array_get DIGIPIN_GRID row with
  | None => Err TypeError
  | Some line =>
      let result := out s ++ [array_get line col] in
      let result :=
        if bool_decide ((level + 1)%nat ∈ HYPHEN_POSITIONS)
        then result ++ [Some "-"%char] else result in
      Ok {| cell := narrow (cell s) row col; out := result |}
  end.

Definition getDigiPin (lat lon : float) : result string :=
  if (lat <? minLat BOUNDS) || (maxLat BOUNDS <? lat) then
    Err (OutOfRange Latitude lat (minLat BOUNDS) (maxLat BOUNDS))
  else if (lon <? minLon BOUNDS) || (maxLon BOUNDS <? lon) then
    Err (OutOfRange Longitude lon (minLon BOUNDS) (maxLon BOUNDS))
  else
    bind (for_loop (encode_level lat lon) (seq 0 DIGIPIN_LENGTH)
            {| cell := BOUNDS; out := [] |})
         (fun s => Ok (join (out s))).

(** The bounds after one symbol of the code, at grid position [p]. *)
Definition refine (b : bounds) (p : position) : bounds :=
  let row := number (row p) in
  let col := number (col p) in
  let latDiv := (maxLat b - minLat b) / GRID_SIZE in
  let lonDiv := (maxLon b - minLon b) / GRID_SIZE in
  {| minLat := maxLat b - latDiv * (row + 1);
     maxLat := maxLat b - latDiv * row;
     minLon := minLon b + lonDiv * col;
     maxLon := minLon b + lonDiv * (col + 1) |}.

(** The body of the loop of [getLatLngFromDigiPin]: [pin[i]] is looked up
    in the map, and a missing entry throws. *)
Definition decode_symbol (refine : bounds -> position -> bounds)
    (pin : list ascii) (i : nat) (b : bounds) : result bounds :=
  match pin !! i ≫= (CHAR_TO_POSITION !!.) with
  | None => Err (InvalidCharacter (pin !! i) i)
  | Some p => Ok (refine b p)
  end.

Definition centerLat (b : bounds) : float := (minLat b + maxLat b) * 0.5.
Definition centerLon (b : bounds) : float := (minLon b + maxLon b) * 0.5.

(** The final bounds of a code, shared by the two variants, which differ
    in [refine] and in how they present the centre. *)
Definition decode_bounds (refine : bounds -> position -> bounds)
    (digiPin : string) : result bounds :=
  let pin := remove_hyphens (list_ascii_of_string digiPin) in
  if bool_decide (length pin <> DIGIPIN_LENGTH) then
    Err (InvalidLength (length pin) DIGIPIN_LENGTH)
  else
    for_loop (decode_symbol refine pin) (seq 0 DIGIPIN_LENGTH) BOUNDS.

Definition getLatLngFromDigiPin (digiPin : string)
    : result (coordinates numeral) :=
  bind (decode_bounds refine digiPin) (fun b =>
    Ok {| latitude := toFixed 6 (centerLat b);
          longitude := toFixed 6 (centerLon b) |}).

(** ** The typed variant of the module

    The variant with type annotations computes the steps with [* 0.25],
    clamps with conditionals, the upper clamp before the row is reversed
    and the lower one after, builds the code by string concatenation, and
    returns the centre as numbers. *)

Module Typed.

Record encoder := { cell : bounds; out : string }.

(** The string that [result += v] appends for an entry of the grid. *)
Definition appended (v : option ascii) : string :=
  match v with
  | Some ch => String ch EmptyString
  | None => "undefined"
  end.

Definition grid_row (lat : float) (b : bounds) : float :=
  let latRange := maxLat b - minLat b in
  let latDiv := latRange * 0.25 in
  let latOffset := lat - minLat b in
  let row := Math_floor (latOffset / latDiv) in
  let row := if 3 <? row then 3 else row in
  let row := 3 - row in
  if row <? 0 then 0 else row.

Definition grid_col (lon : float) (b : bounds) : float :=
  let lonRange := maxLon b - minLon b in
  let lonDiv := lonRange * 0.25 in
  let lonOffset := lon - minLon b in
  let col := Math_floor (lonOffset / lonDiv) in
  let col := if 3 <? col then 3 else col in
  if col <? 0 then 0 else col.

Definition narrow (b : bounds) (row col : float) : bounds :=
  let latDiv := (maxLat b - minLat b) * 0.25 in
  let lonDiv := (maxLon b - minLon b) * 0.25 in
  let newMinLat := minLat b + latDiv * (3 - row) in
  let newMinLon := minLon b + lonDiv * col in
  {| minLat := newMinLat; maxLat := newMinLat + latDiv;
     minLon := newMinLon; maxLon := newMinLon + lonDiv |}.

Definition encode_level (lat lon : float) (level : nat) (s : encoder)
    : result encoder :=
  let row := grid_row lat (cell s) in
  let col := grid_col lon (cell s) in
  match array_get DIGIPIN_GRID row with
  | None => Err TypeError
  | Some line =>
      let result := (out s ++ appended (array_get line col))%string in
      let result :=
        if bool_decide (level = 2%nat \/ level = 5%nat)
        then (result ++ "-")%string else result in
      Ok {| cell := narrow (cell s) row col; out := result |}
  end.

Definition getDigiPin (lat lon : float) : result string :=
  if (lat <? minLat BOUNDS) || (maxLat BOUNDS <? lat) then
    Err (OutOfRange Latitude lat (minLat BOUNDS) (maxLat BOUNDS))
  else if (lon <? minLon BOUNDS) || (maxLon BOUNDS <? lon) then
    Err (OutOfRange Longitude lon (minLon BOUNDS) (maxLon BOUNDS))
  else
    bind (for_loop (encode_level lat lon) (seq 0 DIGIPIN_LENGTH)
            {| cell := BOUNDS; out := EmptyString |})
         (fun s => Ok (out s)).

Definition gridSizeReciprocal : float := 0.25.

Definition refine (b : bounds) (p : position) : bounds :=
  let row := number (row p) in
  let col := number (col p) in
  let latDiv := (maxLat b - minLat b) * gridSizeReciprocal in
  let lonDiv := (maxLon b - minLon b) * gridSizeReciprocal in
  let newMinLon := minLon b + lonDiv * col in
  {| minLat := maxLat b - latDiv * row - latDiv;
     maxLat := maxLat b - latDiv * row;
     minLon := newMinLon;
     maxLon := newMinLon + lonDiv |}.

(** [Math.round(x * 1000000) / 1000000]. *)
Definition round6 (x : float) : float :=
  Math_round (x * 1000000) / 1000000.

Definition getLatLngFromDigiPin (digiPin : string)
    : result (coordinates float) :=
  bind (decode_bounds refine digiPin) (fun b =>
    Ok {| latitude := round6 (centerLat b);
          longitude := round6 (centerLon b) |}).

End Typed.

(** ** Notions used in the statements *)

(** The symbols of the alphabet, row by row. *)
Definition alphabet : list ascii := concat DIGIPIN_GRID.

(** The characters of a code that remain once the separators are gone. *)
Definition stripped (digiPin : string) : list ascii :=
  remove_hyphens (list_ascii_of_string digiPin).

(** A code is valid when ten characters remain and all are symbols. *)
Definition valid_code (digiPin : string) : Prop :=
  length (stripped digiPin) = DIGIPIN_LENGTH /\
  Forall (.∈ alphabet) (stripped digiPin).

(** The code with every separator removed. *)
Definition without_separators (digiPin : string) : string :=
  string_of_list_ascii (stripped digiPin).

(** A display code: three, three and four symbols of the alphabet, with a
    hyphen between the groups. *)
Definition well_formed (code : string) : bool :=
  match list_ascii_of_string code with
  | [a; b; c; h1; d; e; f; h2; g; h; i; j] =>
      forallb (fun x => bool_decide (x ∈ alphabet)) [a; b; c; d; e; f; g; h; i; j]
      && bool_decide (h1 = "-"%char) && bool_decide (h2 = "-"%char)
  | _ => false
  end.

(** ** The real numbers that binary64 values stand for *)

Definition bpow (e : Z) : R := powerRZ 2 e.

Definition SF2R (x : spec_float) : R :=
  match x with
  | S754_finite s m e => (IZR (cond_Zopp s (Z.pos m)) * bpow e)%R
  | _ => 0%R
  end.

(** The real value of a finite number. *)
Definition F2R (x : float) : R := SF2R (Prim2SF x).

Definition SF_finite (x : spec_float) : bool :=
  match x with
  | S754_zero _ | S754_finite _ _ _ => true
  | _ => false
  end.

Definition SF_sign (x : spec_float) : bool :=
  match x with
  | S754_zero s | S754_infinity s | S754_finite s _ _ => s
  | S754_nan => false
  end.

(** Where a real [t >= 0] lies between [m * 2^E] and [(m + 1) * 2^E], as
    the round bit [r] and the sticky bit [s] of a shift record tell it. *)
Definition located (t : R) (m E : Z) (r s : bool) : Prop :=
  match r, s with
  | false, false => t = (IZR m * bpow E)%R
  | false, true => (IZR m * bpow E < t < (IZR m + 1 / 2) * bpow E)%R
  | true, false => t = ((IZR m + 1 / 2) * bpow E)%R
  | true, true => ((IZR m + 1 / 2) * bpow E < t < (IZR m + 1) * bpow E)%R
  end.

Definition located_record (t : R) (mrs : shr_record) (E : Z) : Prop :=
  located t (shr_m mrs) E (shr_r mrs) (shr_s mrs).

(** The location that a [location] stands for. *)
Definition located_loc (t : R) (m E : Z) (l : location) : Prop :=
  located_record t (shr_record_of_loc m l) E.

(** ** One axis of the working rectangle

    Latitude and longitude are refined independently.  The definitions
    below are the computations of [narrow] and [refine] on one axis; the
    bounds of an axis are a pair. *)

(** [narrow] on one axis, for the index [i] of the chosen quarter, counted
    from the lower bound: [3 - row] for the latitude, [col] for the
    longitude. *)
Definition axis_narrow (lo hi i : float) : float * float :=
  let div := (hi - lo) / GRID_SIZE in
  let newMin := lo + div * i in
  (newMin, newMin + div).

Definition typed_axis_narrow (lo hi i : float) : float * float :=
  let div := (hi - lo) * 0.25 in
  let newMin := lo + div * i in
  (newMin, newMin + div).

(** [refine] on the latitude, for a row counted from the upper bound. *)
Definition lat_refine (lo hi : float) (r : nat) : float * float :=
  let latDiv := (hi - lo) / GRID_SIZE in
  (hi - latDiv * (number r + 1), hi - latDiv * number r).

Definition typed_lat_refine (lo hi : float) (r : nat) : float * float :=
  let latDiv := (hi - lo) * Typed.gridSizeReciprocal in
  (hi - latDiv * number r - latDiv, hi - latDiv * number r).

(** [refine] on the longitude. *)
Definition lon_refine (lo hi : float) (c : nat) : float * float :=
  let lonDiv := (hi - lo) / GRID_SIZE in
  (lo + lonDiv * number c, lo + lonDiv * (number c + 1)).

Definition typed_lon_refine (lo hi : float) (c : nat) : float * float :=
  let lonDiv := (hi - lo) * Typed.gridSizeReciprocal in
  let newMinLon := lo + lonDiv * number c in
  (newMinLon, newMinLon + lonDiv).

(** The floored quotient from which a level computes its row or column. *)
Definition axis_floor (x lo hi : float) : float :=
  Math_floor ((x - lo) / ((hi - lo) / GRID_SIZE)).

(** An axis: its bounds, its lower bound in units of [2^-20] degree, and
    whether the decoder counts its quarters from the upper bound. *)
Record axis_kind := {
  axis_lo : float;
  axis_hi : float;
  axis_units : Z;
  axis_reversed : bool
}.

Definition latitude_axis : axis_kind :=
  {| axis_lo := 2.5; axis_hi := 38.5; axis_units := 2621440;
     axis_reversed := true |}.

Definition longitude_axis : axis_kind :=
  {| axis_lo := 63.5; axis_hi := 99.5; axis_units := 66584576;
     axis_reversed := false |}.

(** The width of a cell after [k] levels, in units of [2^-20] degree. *)
Definition cell_width (k : nat) : Z := 9 * 4 ^ (11 - Z.of_nat k).

(** The step of the grid at level [k], a quarter of the width of a cell:
    [9 * 4^-k] degrees. *)
Definition grid_step (k : nat) : float :=
  nth k [9; 2.25; 0.5625; 0.140625; 0.03515625; 0.0087890625;
         0.002197265625; 0.00054931640625; 0.0001373291015625;
         0.000034332275390625] 0.

(** The number of [u] units of [2^-20] degree, for [u] below [2^53]. *)
Definition of_units (u : Z) : float := of_uint63 (Uint63.of_Z u) / 1048576.

Definition same_bounds (a b : float * float) : bool :=
  Leibniz.eqb (fst a) (fst b) && Leibniz.eqb (snd a) (snd b).

(** The integer nearest to [10^6] times [u] units, the larger one on a
    tie. *)
Definition micro_units (u : Z) : Z :=
  Z.shiftr (2 * (u * 1000000) + 1048576) 21.

(** What the proofs need of the centre [c] of a final cell that starts at
    [u] units: its exact value, the integer that [Math.round] finds, that
    the centre and the number the typed variant returns for it lie within
    the axis, that this number is within one unit of the centre, and that
    the cell lies within the axis. *)
Definition centre_ok (a : axis_kind) (lo hi : float) (u : Z) : bool :=
  let c := (lo + hi) * 0.5 in
  let n := of_uint63 (Uint63.of_Z (micro_units (u + 18))) in
  Leibniz.eqb c (of_units (u + 18))
  && Leibniz.eqb (Math_round (c * 1000000)) n
  && (axis_lo a <=? c) && (c <=? axis_hi a)
  && (axis_lo a <=? n / 1000000) && (n / 1000000 <=? axis_hi a)
  && (of_units (u + 17) <=? n / 1000000)
  && (n / 1000000 <=? of_units (u + 19))
  && (axis_lo a <=? lo) && (lo <=? hi) && (hi <=? axis_hi a).

(** What the proofs need of a cell of depth [k] that starts at [u] units:
    its exact bounds, that it lies within the axis, and the step to its
    quarters. *)
Definition cell_ok (a : axis_kind) (k : nat) (lo hi : float) (u : Z) : bool :=
  Leibniz.eqb lo (of_units u)
  && Leibniz.eqb hi (of_units (u + cell_width k))
  && (axis_lo a <=? lo) && (lo <=? hi) && (hi <=? axis_hi a)
  && Leibniz.eqb ((hi - lo) / GRID_SIZE) (grid_step k)
  && Leibniz.eqb ((hi - lo) * 0.25) (grid_step k).

(** The quarter [i] of a cell, as every variant of the encoder and of the
    decoder computes it: they agree, and the quarter lies in the cell. *)
Definition quarter_ok (a : axis_kind) (lo hi : float) (i : nat) : bool :=
  let q := axis_narrow lo hi (number i) in
  same_bounds (typed_axis_narrow lo hi (number i)) q
  && (if axis_reversed a
      then same_bounds (lat_refine lo hi (3 - i)) q
           && same_bounds (typed_lat_refine lo hi (3 - i)) q
      else same_bounds (lon_refine lo hi i) q
           && same_bounds (typed_lon_refine lo hi i) q)
  && (lo <=? fst q) && (snd q <=? hi).

(** All the cells below a cell, down to [depth] more levels. *)
Fixpoint tree_ok (a : axis_kind) (depth k : nat) (lo hi : float) (u : Z)
    : bool :=
  match depth with
  | O => centre_ok a lo hi u
  | S depth' =>
      cell_ok a k lo hi u
      && forallb (fun i =>
           let q := axis_narrow lo hi (number i) in
           quarter_ok a lo hi i
           && tree_ok a depth' (S k) (fst q) (snd q)
                (u + Z.of_nat i * cell_width (S k)))
         (seq 0 4)
  end.


(** [x] is the positive number of [n] units of [2^-20]. *)
Definition units (x : float) (n : Z) : Prop :=
  (exists m e, Prim2SF x = S754_finite false m e) /\
  F2R x = (IZR n * bpow (-20))%R.
(** The cell that a path of quarters leads to, and where it starts, in
    units of [2^-20] degree. *)
Fixpoint descend (lo hi : float) (path : list nat) : float * float :=
  match path with
  | [] => (lo, hi)
  | i :: rest =>
      let q := axis_narrow lo hi (number i) in
      descend (fst q) (snd q) rest
  end.

Fixpoint descend_units (u : Z) (k : nat) (path : list nat) : Z :=
  match path with
  | [] => u
  | i :: rest =>
      descend_units (u + Z.of_nat i * cell_width (S k)) (S k) rest
  end.

Definition cell_of (a : axis_kind) (path : list nat) : float * float :=
  descend (axis_lo a) (axis_hi a) path.

Definition units_of (a : axis_kind) (path : list nat) : Z :=
  descend_units (axis_units a) 0 path.

(** [x] lies in the cell of a path, bounds included. *)
Definition contains (a : axis_kind) (path : list nat) (x : float) : Prop :=
  (IZR (units_of a path) * bpow (-20) <= F2R x
   <= IZR (units_of a path + cell_width (length path)) * bpow (-20))%R.

(** The quarter of the cell [lo .. hi] that a level chooses for [x]: the
    floored quotient, clamped to 0 .. 3. *)
Definition quarter (x lo hi : float) : nat :=
  match F2Z (axis_floor x lo hi) with
  | Some z => Z.to_nat (Z.min 3 (Z.max 0 z))
  | None => 0
  end.

(** The quarters that [n] levels choose for [x], from the cell
    [lo .. hi] on. *)
Fixpoint axis_path (x lo hi : float) (n : nat) : list nat :=
  match n with
  | O => []
  | S n' =>
      let i := quarter x lo hi in
      let q := axis_narrow lo hi (number i) in
      i :: axis_path x (fst q) (snd q) n'
  end.

(** The rectangle with the given cells on the two axes. *)
Definition rectangle (lat lon : float * float) : bounds :=
  {| minLat := fst lat; maxLat := snd lat;
     minLon := fst lon; maxLon := snd lon |}.

(** The symbol for the quarters [i] of the latitude and [j] of the
    longitude: rows are counted from the north. *)
Definition quarter_symbol (i j : nat) : option ascii := symbolAt (3 - i) j.

(** What the levels from [level] on push onto [result], for the quarters
    they choose. *)
Fixpoint emitted (level : nat) (lats lons : list nat) : list (option ascii) :=
  match lats, lons with
  | i :: lats', j :: lons' =>
      [quarter_symbol i j]
      ++ (if bool_decide ((level + 1)%nat ∈ HYPHEN_POSITIONS)
          then [Some "-"%char] else [])
      ++ emitted (S level) lats' lons'
  | _, _ => []
  end.

(** What the levels from [level] on append to [result] in the typed
    variant. *)
Fixpoint typed_emitted (level : nat) (lats lons : list nat) : string :=
  match lats, lons with
  | i :: lats', j :: lons' =>
      (Typed.appended (quarter_symbol i j)
       ++ (if bool_decide (level = 2%nat \/ level = 5%nat) then "-" else "")
       ++ typed_emitted (S level) lats' lons')%string
  | _, _ => EmptyString
  end.

(** The states in which a loop starts its iterations. *)
Fixpoint loop_states {S} (body : nat -> S -> result S) (counters : list nat)
    (s : S) : list S :=
  match counters with
  | [] => []
  | i :: rest =>
      s :: match body i s with
           | Ok s' => loop_states body rest s'
           | Err _ => []
           end
  end.

(** A number that is an index of the grid. *)
Definition grid_index (r : float) : Prop :=
  exists i, (i < 4)%nat /\ r = number i.

(** The inputs that [getDigiPin] is specified for. *)
Definition in_bounds (lat lon : float) : Prop :=
  (minLat BOUNDS <=? lat) = true /\ (lat <=? maxLat BOUNDS) = true /\
  (minLon BOUNDS <=? lon) = true /\ (lon <=? maxLon BOUNDS) = true.

(** A path of quarters. *)
Definition valid_path (p : list nat) : Prop :=
  Forall (fun i => (i < 4)%nat) p.

(** An axis whose tree of cells passes the checks. *)
Definition checked (a : axis_kind) : Prop :=
  tree_ok a 10 0 (axis_lo a) (axis_hi a) (axis_units a) = true /\
  (2 ^ 21 <= axis_units a /\ axis_units a + cell_width 0 < 2 ^ 27)%Z /\
  axis_lo a = of_units (axis_units a) /\
  axis_hi a = of_units (axis_units a + cell_width 0).


(** The midpoint of a cell, as [centerLat] and [centerLon] compute it. *)
Definition centre (c : float * float) : float := (fst c + snd c) * 0.5.

(** The quarters that the symbols of a code select on the two axes: the
    rows of the grid are counted from the north, the quarters of the
    latitude from the south. *)
Definition lat_path (pin : list ascii) : list nat :=
  omap (fun c => (fun p => (3 - row p)%nat) <$> CHAR_TO_POSITION !! c) pin.

Definition lon_path (pin : list ascii) : list nat :=
  omap (fun c => col <$> CHAR_TO_POSITION !! c) pin.

(** A rectangle that lies within another one, bounds included. *)
Definition nested (b outer : bounds) : Prop :=
  (minLat outer <=? minLat b) = true /\ (minLat b <=? maxLat b) = true /\
  (maxLat b <=? maxLat outer) = true /\
  (minLon outer <=? minLon b) = true /\ (minLon b <=? maxLon b) = true /\
  (maxLon b <=? maxLon outer) = true.

(** The entry [DIGIPIN_GRID[row][col]] for numbers [row] and [col], when
    both accesses are defined. *)
Definition grid_entry (row col : float) : option ascii :=
  array_get DIGIPIN_GRID row ≫= fun line => array_get line col.

(** A level whose row and column are indices of the grid, with a defined
    entry of the table. *)
Definition level_ok (row col : float) : Prop :=
  grid_index row /\ grid_index col /\ is_Some (grid_entry row col).

(** The rectangle that the decoder has reached after the symbols [pin]. *)
Definition code_rectangle (pin : list ascii) : bounds :=
  rectangle (cell_of latitude_axis (lat_path pin))
    (cell_of longitude_axis (lon_path pin)).

(** ** The page of the map

    The page of the map has its own copies of the encoder and of the
    decoder, which are those of the typed variant line by line, without
    the type annotations and the capacity hint, and a class
    [DigipinVisualizer].  The methods of the class that compute are
    modelled here; the map itself, from which the zoom and the visible
    bounds come, is not. *)

(** [s.substring(start, stop)]: both indices are clamped to the length of
    [s], and swapped when the first is the larger. *)
Definition js_substring (s : string) (start stop : nat) : string :=
  let len := String.length s in
  let a := Nat.min start len in
  let b := Nat.min stop len in
  substring (Nat.min a b) (Nat.max a b - Nat.min a b) s.

Module Visualizer.

Definition INDIA_BOUNDS : bounds :=
  {| minLat := 2.5; maxLat := 38.5; minLon := 63.5; maxLon := 99.5 |}.

Record grid_level := {
  level : nat;
  chars : nat;
  size : string;
  description : string
}.

Definition GRID_LEVELS : list grid_level :=
  [ {| level := 1; chars := 1; size := "~1000 km";
       description := "Regions" |};
    {| level := 2; chars := 2; size := "~250 km";
       description := "Large States" |};
    {| level := 3; chars := 3; size := "~62.5 km";
       description := "Districts" |};
    {| level := 4; chars := 4; size := "~15.6 km";
       description := "Cities/Towns" |};
    {| level := 5; chars := 5; size := "~3.9 km";
       description := "Neighborhoods" |};
    {| level := 6; chars := 6; size := "~1 km";
       description := "Local areas" |};
    {| level := 7; chars := 7; size := "~250 m";
       description := "City blocks" |};
    {| level := 8; chars := 8; size := "~60 m";
       description := "Building complex" |};
    {| level := 9; chars := 9; size := "~15 m";
       description := "Individual buildings" |};
    {| level := 10; chars := 10; size := "~4 m";
       description := "Final precision" |} ].

(** The encoder of the page. *)
Definition getDigiPin (lat lon : float) : result string :=
  Typed.getDigiPin lat lon.

(** [updateGridLevel]: the level for the zoom of the map replaces
    [currentGridLevel]. *)
Definition updateGridLevel (zoom : float) (currentGridLevel : nat) : nat :=
  let newLevel :=
    if zoom <=? 3 then 1%nat
    else if zoom <=? 4 then 2%nat
    else if zoom <=? 6 then 3%nat
    else if zoom <=? 8 then 4%nat
    else if zoom <=? 10 then 5%nat
    else if zoom <=? 12 then 6%nat
    else if zoom <=? 14 then 7%nat
    else if zoom <=? 16 then 8%nat
    else if zoom <=? 17 then 9%nat
    else 10%nat in
  if bool_decide (newLevel <> currentGridLevel) then newLevel
  else currentGridLevel.

(** The entry [GRID_LEVELS[this.currentGridLevel - 1]] that
    [updateInfoPanel] reads. *)
Definition gridInfo (currentGridLevel : nat) : option grid_level :=
  array_get GRID_LEVELS (number currentGridLevel - 1).

Definition intersectsIndiaBounds (south north west east : float) : bool :=
  negb ((east <? minLon INDIA_BOUNDS) || (maxLon INDIA_BOUNDS <? west)
        || (north <? minLat INDIA_BOUNDS) || (maxLat INDIA_BOUNDS <? south)).

Definition isInIndiaBounds (lat lon : float) : bool :=
  (minLat INDIA_BOUNDS <=? lat) && (lat <=? maxLat INDIA_BOUNDS)
  && (minLon INDIA_BOUNDS <=? lon) && (lon <=? maxLon INDIA_BOUNDS).

(** A cell of the grid drawn over the map: [bounds], which is
    [[south, west], [north, east]], [center] and [level]. *)
Record grid_cell := {
  cell_bounds : (float * float) * (float * float);
  cell_center : float * float;
  cell_level : nat
}.

(** The values that the counter of [for (let i = 0; i < d; i++)] takes,
    from [i] on.  The loops of [calculateGridCells] have a [d] of 8 at
    most, and [fuel] is 8 there. *)
Fixpoint counters (d : float) (fuel i : nat) : list nat :=
  match fuel with
  | O => []
  | S fuel => if number i <? d then i :: counters d fuel (S i) else []
  end.

(** [calculateGridCells]: the zoom and the visible bounds come from the
    map. *)
Definition calculateGridCells (zoom south0 north0 west0 east0 : float)
    (level : nat) : list grid_cell :=
  let maxCells : float :=
    if zoom <=? 5 then 16 else if zoom <=? 8 then 36 else 64 in
  let divisionsPerAxis := PrimFloat.sqrt maxCells in
  let latStep := (north0 - south0) / divisionsPerAxis in
  let lonStep := (east0 - west0) / divisionsPerAxis in
  flat_map (fun i =>
    flat_map (fun j =>
      let south := south0 + number i * latStep in
      let north := south0 + (number i + 1) * latStep in
      let west := west0 + number j * lonStep in
      let east := west0 + (number j + 1) * lonStep in
      if intersectsIndiaBounds south north west east then
        let centerLat := (south + north) / 2 in
        let centerLon := (west + east) / 2 in
        [ {| cell_bounds := ((south, west), (north, east));
             cell_center := (centerLat, centerLon);
             cell_level := level |} ]
      else [])
      (counters divisionsPerAxis 8 0))
    (counters divisionsPerAxis 8 0).

Definition formatDigipinForDisplay (digipin : string) : string :=
  if (String.length digipin <=? 3)%nat then digipin
  else
    let formatted := js_substring digipin 0 3 in
    let formatted :=
      if (3 <? String.length digipin)%nat
      then (formatted ++ ("-" ++ js_substring digipin 3 6))%string
      else formatted in
    let formatted :=
      if (6 <? String.length digipin)%nat
      then (formatted
            ++ ("-" ++ js_substring digipin 6 (String.length digipin)))%string
      else formatted in
    formatted.

(** [getDigipinAt]: the code of a point within the bounds, and [null],
    here [None], for another point or when the encoder throws. *)
Definition getDigipinAt (lat lon : float) : option string :=
  if isInIndiaBounds lat lon then
    match getDigiPin lat lon with
    | Ok code => Some code
    | Err _ => None
    end
  else None.

(** What [handleCellHover] shows for the centre of a cell: the symbols of
    the current level, grouped; the text [Out of bounds] when the encoder
    throws; nothing new for a centre that is not within the bounds. *)
Inductive hover :=
| Shown (label : string)
| OutOfBounds
| Unchanged.

Definition hoverLabel (currentGridLevel : nat) (lat lon : float) : hover :=
  if isInIndiaBounds lat lon then
    match getDigiPin lat lon with
    | Ok fullDigipin =>
        let levelDigipin :=
          js_substring
            (string_of_list_ascii
               (remove_hyphens (list_ascii_of_string fullDigipin)))
            0 currentGridLevel in
        Shown (formatDigipinForDisplay levelDigipin)
    | Err _ => OutOfBounds
    end
  else Unchanged.

End Visualizer.

(** * Binary64 arithmetic: the facts the proofs need *)

Section Binary64.

Local Open Scope Z_scope.

(** ** Powers of two *)

Lemma bpow_pos (e : Z) : (0 < bpow e)%R.
Proof. apply powerRZ_lt. lra. Qed.

Lemma bpow_add (a b : Z) : bpow (a + b) = (bpow a * bpow b)%R.
Proof. apply powerRZ_add. lra. Qed.

Lemma bpow_IZR (e : Z) : (0 <= e)%Z -> bpow e = IZR (2 ^ e).
Proof.
  intros H. unfold bpow. rewrite <- (Z2Nat.id e H) at 2.
  rewrite <- pow_IZR, pow_powerRZ, Z2Nat.id by exact H. reflexivity.
Qed.

Lemma bpow_le (a b : Z) : (a <= b)%Z -> (bpow a <= bpow b)%R.
Proof.
  intros H. replace b with (a + (b - a))%Z by lia.
  rewrite bpow_add, (bpow_IZR (b - a)) by lia.
  assert (1 <= 2 ^ (b - a))%Z by (apply Z.lt_pred_le, Z.pow_pos_nonneg; lia).
  apply IZR_le in H0. pose proof (bpow_pos a). nra.
Qed.

Lemma bpow_lt (a b : Z) : (a < b)%Z -> (bpow a < bpow b)%R.
Proof.
  intros H. replace b with (a + (b - a))%Z by lia.
  rewrite bpow_add, (bpow_IZR (b - a)) by lia.
  assert (2 <= 2 ^ (b - a))%Z.
  { change 2%Z with (2 ^ 1)%Z at 1. apply Z.pow_le_mono_r; lia. }
  apply IZR_le in H0. pose proof (bpow_pos a). nra.
Qed.

Lemma bpow_opp (e : Z) : bpow (- e) = (/ bpow e)%R.
Proof. apply powerRZ_neg'. Qed.

(** ** The number of binary digits *)

Lemma digits2_pos_size (p : positive) : digits2_pos p = Pos.size p.
Proof. induction p; simpl; congruence. Qed.

Lemma Zdigits2_bounds (m : Z) :
  (0 < m)%Z -> (2 ^ (Zdigits2 m - 1) <= m < 2 ^ Zdigits2 m)%Z.
Proof.
  destruct m as [|p|p]; try lia. intros _. simpl.
  rewrite digits2_pos_size.
  pose proof (Pos.size_gt p) as Hgt. pose proof (Pos.size_le p) as Hle.
  assert (Hp : (Z.pos (2 ^ Pos.size p) = 2 ^ Z.pos (Pos.size p))%Z)
    by (rewrite Pos2Z.inj_pow; reflexivity).
  split.
  - assert (2 * 2 ^ (Z.pos (Pos.size p) - 1) = 2 ^ Z.pos (Pos.size p))%Z.
    { rewrite <- Z.pow_succ_r by lia. f_equal. lia. }
    lia.
  - lia.
Qed.

Lemma Zdigits2_nonneg (m : Z) : (0 <= Zdigits2 m)%Z.
Proof. destruct m; simpl; lia. Qed.

Lemma Zdigits2_unique (m d : Z) :
  (2 ^ (d - 1) <= m < 2 ^ d)%Z -> (0 < m)%Z -> Zdigits2 m = d.
Proof.
  intros [Hlo Hhi] Hm. pose proof (Zdigits2_bounds m Hm) as [Hlo' Hhi'].
  pose proof (Zdigits2_nonneg m) as Hn.
  destruct (Z.lt_trichotomy (Zdigits2 m) d) as [H|[H|H]]; [|exact H|].
  - assert (0 <= d - 1)%Z by lia.
    assert (2 ^ Zdigits2 m <= 2 ^ (d - 1))%Z by (apply Z.pow_le_mono_r; lia).
    lia.
  - assert (d < 0 \/ 0 <= d)%Z as [Hd|Hd] by lia.
    + rewrite (Z.pow_neg_r 2 d) in Hhi by lia. lia.
    + assert (2 ^ d <= 2 ^ (Zdigits2 m - 1))%Z by (apply Z.pow_le_mono_r; lia).
      lia.
Qed.

Lemma Zdigits2_le (m d : Z) : (0 <= d)%Z -> (0 <= m < 2 ^ d)%Z -> (Zdigits2 m <= d)%Z.
Proof.
  intros Hd [H0 Hm]. destruct (Z.eq_dec m 0) as [->|Hne]; [simpl; lia|].
  pose proof (Zdigits2_bounds m ltac:(lia)) as [Hlo _].
  destruct (Z_le_gt_dec (Zdigits2 m) d) as [H|H]; [exact H|].
  assert (2 ^ d <= 2 ^ (Zdigits2 m - 1))%Z by (apply Z.pow_le_mono_r; lia).
  lia.
Qed.

(** ** Shifting a mantissa right *)

Local Abbreviation fexp := (SpecFloat.fexp prec emax).

Lemma fexp_eq (e : Z) : fexp e = Z.max (e - 53) (-1074).
Proof. reflexivity. Qed.

Lemma fexp_mono (a b : Z) : a <= b -> fexp a <= fexp b.
Proof. rewrite !fexp_eq. lia. Qed.

Lemma shr_1_nonneg (mrs : shr_record) :
  0 <= shr_m mrs -> 0 <= shr_m (shr_1 mrs).
Proof. destruct mrs as [[|[p|p|]|p] r s]; cbn [shr_1 shr_m]; lia. Qed.

Lemma shr_1_div (mrs : shr_record) :
  0 <= shr_m mrs -> shr_m (shr_1 mrs) = shr_m mrs / 2.
Proof.
  destruct mrs as [[|[p|p|]|p] r s]; cbn [shr_1 shr_m]; intros H;
    try reflexivity; try lia.
  - apply Z.div_unique with 1; [lia|reflexivity].
  - apply Z.div_unique with 0; [lia|reflexivity].
Qed.

Lemma located_shr_1 (t : R) (mrs : shr_record) (E : Z) :
  0 <= shr_m mrs -> located_record t mrs E ->
  located_record t (shr_1 mrs) (E + 1).
Proof.
  unfold located_record. intros Hm.
  pose proof (bpow_pos E) as HE.
  assert (HE1 : bpow (E + 1) = (2 * bpow E)%R).
  { rewrite bpow_add. change (bpow 1) with (2 * 1)%R. lra. }
  destruct mrs as [[|[p|p|]|p] r s]; try (cbn [shr_m] in Hm; lia);
    destruct r, s; cbn [shr_1 shr_m shr_r shr_s located orb];
    rewrite HE1;
    try change (Z.pos p~1) with (2 * Z.pos p + 1);
    try change (Z.pos p~0) with (2 * Z.pos p);
    rewrite ?plus_IZR, ?mult_IZR;
    intros H; try (rewrite H); try lra; try nra.
Qed.

Lemma iter_shr_1 (p : positive) :
  forall (t : R) (mrs : shr_record) (E : Z),
    0 <= shr_m mrs -> located_record t mrs E ->
    0 <= shr_m (SpecFloat.iter_pos shr_1 p mrs) /\
    shr_m (SpecFloat.iter_pos shr_1 p mrs) = shr_m mrs / 2 ^ Z.pos p /\
    located_record t (SpecFloat.iter_pos shr_1 p mrs) (E + Z.pos p).
Proof.
  induction p as [p IH|p IH|]; intros t mrs E Hm Hloc; simpl.
  - pose proof (shr_1_nonneg _ Hm) as H1.
    pose proof (located_shr_1 _ _ _ Hm Hloc) as L1.
    destruct (IH _ _ _ H1 L1) as (H2 & D2 & L2).
    destruct (IH _ _ _ H2 L2) as (H3 & D3 & L3).
    split; [exact H3|]. split.
    + rewrite D3, D2, shr_1_div by exact Hm.
      rewrite !Z.div_div by lia. f_equal.
      rewrite Pos2Z.inj_xI, <- !Z.pow_add_r, <- (Z.pow_1_r 2) at 1 by lia.
      rewrite <- Z.pow_add_r by lia. f_equal. lia.
    + replace (E + Z.pos p~1) with (E + 1 + Z.pos p + Z.pos p) by lia.
      exact L3.
  - destruct (IH _ _ _ Hm Hloc) as (H2 & D2 & L2).
    destruct (IH _ _ _ H2 L2) as (H3 & D3 & L3).
    split; [exact H3|]. split.
    + rewrite D3, D2, Z.div_div by lia. f_equal.
      rewrite Pos2Z.inj_xO, <- Z.pow_add_r by lia. f_equal. lia.
    + replace (E + Z.pos p~0) with (E + Z.pos p + Z.pos p) by lia.
      exact L3.
  - split; [apply shr_1_nonneg, Hm|]. split.
    + rewrite shr_1_div by exact Hm. reflexivity.
    + apply located_shr_1; assumption.
Qed.

Lemma shr_fexp_spec (t : R) (m e : Z) (l : location) :
  0 <= m -> located_loc t m e l ->
  let e1 := Z.max e (fexp (Zdigits2 m + e)) in
  exists mrs,
    shr_fexp prec emax m e l = (mrs, e1) /\
    0 <= shr_m mrs /\
    shr_m mrs = m / 2 ^ (e1 - e) /\
    located_record t mrs e1.
Proof.
  intros Hm Hloc e1. unfold shr_fexp, shr.
  assert (Hrec : shr_m (shr_record_of_loc m l) = m)
    by (destruct l as [|[]]; reflexivity).
  destruct (fexp (Zdigits2 m + e) - e) as [|p|p] eqn:Hn.
  - exists (shr_record_of_loc m l). subst e1.
    replace (Z.max e (fexp (Zdigits2 m + e))) with e by lia.
    rewrite Hrec, Z.sub_diag, Z.div_1_r. repeat split; [lia|exact Hloc].
  - destruct (iter_shr_1 p t (shr_record_of_loc m l) e) as (H1 & H2 & H3);
      [rewrite Hrec; exact Hm|exact Hloc|].
    exists (SpecFloat.iter_pos shr_1 p (shr_record_of_loc m l)). subst e1.
    replace (Z.max e (fexp (Zdigits2 m + e))) with (e + Z.pos p) by lia.
    rewrite Hrec in H2. replace (e + Z.pos p - e) with (Z.pos p) by lia.
    repeat split; assumption.
  - exists (shr_record_of_loc m l). subst e1.
    replace (Z.max e (fexp (Zdigits2 m + e))) with e by lia.
    rewrite Hrec, Z.sub_diag, Z.div_1_r. repeat split; [lia|exact Hloc].
Qed.

(** ** Rounding to nearest, ties to even *)

Lemma round_nearest_even_spec (t : R) (mrs : shr_record) (E : Z) :
  located_record t mrs E ->
  let m := shr_m mrs in
  let m' := round_nearest_even m (loc_of_shr_record mrs) in
  (m' = m /\ (IZR m * bpow E <= t <= (IZR m + 1 / 2) * bpow E)%R) \/
  (m' = m + 1 /\ ((IZR m + 1 / 2) * bpow E <= t < (IZR m + 1) * bpow E)%R).
Proof.
  unfold located_record. destruct mrs as [m r s]. cbn [shr_m shr_r shr_s].
  pose proof (bpow_pos E) as HE.
  destruct r, s; cbn [located loc_of_shr_record round_nearest_even]; intros H.
  - right. split; [reflexivity|lra].
  - destruct (Z.even m); [left|right]; (split; [reflexivity|]); rewrite H; nra.
  - left. split; [reflexivity|lra].
  - left. split; [reflexivity|]. rewrite H. nra.
Qed.

Lemma Zdigits2_div_pow2 (m n : Z) :
  0 <= m -> 0 <= n -> Zdigits2 (m / 2 ^ n) <= Z.max 0 (Zdigits2 m - n).
Proof.
  intros Hm Hn. pose proof (Zdigits2_nonneg m) as Hd.
  assert (Hp : 0 < 2 ^ n) by (apply Z.pow_pos_nonneg; lia).
  destruct (Z.eq_dec m 0) as [->|Hne].
  { rewrite Z.div_0_l by lia. simpl. lia. }
  pose proof (Zdigits2_bounds m ltac:(lia)) as [_ Hhi].
  destruct (Z_le_gt_dec n (Zdigits2 m)) as [Hle|Hgt].
  - replace (Z.max 0 (Zdigits2 m - n)) with (Zdigits2 m - n) by lia.
    apply Zdigits2_le; [lia|]. split; [apply Z.div_pos; lia|].
    apply Z.div_lt_upper_bound; [lia|].
    rewrite <- Z.pow_add_r by lia. replace (n + (Zdigits2 m - n)) with (Zdigits2 m) by lia.
    exact Hhi.
  - assert (m / 2 ^ n = 0) as ->.
    { apply Z.div_small. split; [lia|].
      assert (2 ^ Zdigits2 m <= 2 ^ n) by (apply Z.pow_le_mono_r; lia). lia. }
    simpl. lia.
Qed.

Lemma Zdigits2_succ (m : Z) :
  0 <= m -> Zdigits2 (m + 1) = Zdigits2 m \/
            (Zdigits2 (m + 1) = Zdigits2 m + 1 /\ m + 1 = 2 ^ Zdigits2 m).
Proof.
  intros Hm. pose proof (Zdigits2_nonneg m) as Hd.
  destruct (Z.eq_dec m 0) as [->|Hne]; [right; simpl; split; reflexivity|].
  pose proof (Zdigits2_bounds m ltac:(lia)) as [Hlo Hhi].
  destruct (Z.eq_dec (m + 1) (2 ^ Zdigits2 m)) as [Heq|Hneq].
  - right. split; [|exact Heq]. apply Zdigits2_unique; [|lia].
    replace (Zdigits2 m + 1 - 1) with (Zdigits2 m) by lia.
    rewrite Z.pow_add_r, Z.pow_1_r by lia. lia.
  - left. apply Zdigits2_unique; lia.
Qed.

(** What [binary_round_aux] returns for a real [t] located by [m], [e] and
    [l]: [t] rounded to nearest-even on the grid of step [2^e1], or an
    infinity, which takes [e1] to be large. *)
Lemma binary_round_aux_spec (t : R) (s : bool) (m e : Z) (l : location) :
  0 <= m -> located_loc t m e l ->
  let e1 := Z.max e (fexp (Zdigits2 m + e)) in
  let m1 := m / 2 ^ (e1 - e) in
  exists m2,
    ((m2 = m1 /\ (IZR m1 * bpow e1 <= t <= (IZR m1 + 1 / 2) * bpow e1)%R) \/
     (m2 = m1 + 1 /\
      ((IZR m1 + 1 / 2) * bpow e1 <= t < (IZR m1 + 1) * bpow e1)%R)) /\
    ((binary_round_aux prec emax s m e l = S754_infinity s /\ 970 <= e1) \/
     (SF_finite (binary_round_aux prec emax s m e l) = true /\
      SF_sign (binary_round_aux prec emax s m e l) = s /\
      SF2R (binary_round_aux prec emax s m e l)
      = (IZR (cond_Zopp s m2) * bpow e1)%R)).
Proof.
  intros Hm Hloc e1 m1.
  destruct (shr_fexp_spec t m e l Hm Hloc) as (mrs & Hshr & Hm1 & Hdiv & Hloc1).
  fold e1 in Hshr, Hdiv, Hloc1. fold m1 in Hdiv.
  pose proof (round_nearest_even_spec t mrs e1 Hloc1) as Hrne.
  cbv zeta in Hrne. rewrite Hdiv in Hrne.
  set (m2 := round_nearest_even m1 (loc_of_shr_record mrs)) in *.
  exists m2. split; [exact Hrne|].
  assert (Hm1' : 0 <= m1) by (rewrite <- Hdiv; exact Hm1).
  assert (Hm2 : 0 <= m2) by (destruct Hrne as [[-> _]|[-> _]]; lia).
  assert (He1 : -1074 <= e1) by (unfold e1; rewrite fexp_eq; lia).
  (* the exponent of the grid fits the digits that remain *)
  assert (Hcan : fexp (Zdigits2 m1 + e1) <= e1).
  { pose proof (Zdigits2_div_pow2 m (e1 - e) Hm ltac:(unfold e1; lia)) as Hd.
    fold m1 in Hd.
    assert (fexp (Zdigits2 m1 + e1)
            <= fexp (Z.max e1 (Zdigits2 m + e))) by (apply fexp_mono; lia).
    assert (fexp (Z.max e1 (Zdigits2 m + e)) <= e1)
      by (unfold e1 in *; rewrite !fexp_eq in *; lia).
    lia. }
  (* the second shift moves one digit at most, and loses nothing *)
  assert (Hloc2 : located_loc (IZR m2 * bpow e1) m2 e1 loc_Exact)
    by reflexivity.
  destruct (shr_fexp_spec _ m2 e1 loc_Exact Hm2 Hloc2)
    as (mrs2 & Hshr2 & Hm3 & Hdiv2 & _).
  set (e3 := Z.max e1 (fexp (Zdigits2 m2 + e1))) in *.
  assert (Hval : e1 <= e3 <= e1 + 1 /\
                 (IZR (shr_m mrs2) * bpow e3 = IZR m2 * bpow e1)%R).
  { assert (Zdigits2 m2 = Zdigits2 m1 \/
            (Zdigits2 m2 = Zdigits2 m1 + 1 /\ m2 = 2 ^ Zdigits2 m1)) as [Hd|[Hd H2]].
    { destruct Hrne as [[-> _]|[-> _]]; [left; reflexivity|].
      apply Zdigits2_succ, Hm1'. }
    - assert (e3 = e1) as -> by (unfold e3; rewrite Hd; lia).
      rewrite Hdiv2, Z.sub_diag, Z.div_1_r. split; [lia|reflexivity].
    - pose proof (Zdigits2_nonneg m1) as Hd1.
      destruct (Z.eq_dec (Zdigits2 m1) 0) as [Hz|Hnz].
      + assert (e3 = e1) as ->.
        { unfold e3. rewrite Hd, Hz, fexp_eq. lia. }
        rewrite Hdiv2, Z.sub_diag, Z.div_1_r. split; [lia|reflexivity].
      + assert (He3 : e3 = e1 \/ e3 = e1 + 1).
        { unfold e3. rewrite Hd. rewrite !fexp_eq in *. lia. }
        destruct He3 as [->| ->].
        * rewrite Hdiv2, Z.sub_diag, Z.div_1_r. split; [lia|reflexivity].
        * split; [lia|]. rewrite Hdiv2, H2.
          replace (e1 + 1 - e1) with 1 by lia.
          replace (Zdigits2 m1) with (1 + (Zdigits2 m1 - 1)) at 1 by lia.
          rewrite Z.pow_add_r, Z.pow_1_r, Z.mul_comm, Z.div_mul by lia.
          rewrite bpow_add. change (bpow 1) with (2 * 1)%R.
          replace (2 ^ Zdigits2 m1) with (2 * 2 ^ (Zdigits2 m1 - 1)).
          2:{ rewrite <- (Z.pow_1_r 2) at 1. rewrite <- Z.pow_add_r by lia.
              f_equal. lia. }
          rewrite mult_IZR. lra. }
  destruct Hval as [He3 Hval].
  unfold binary_round_aux. rewrite Hshr. cbv beta iota. rewrite Hdiv.
  fold m2. rewrite Hshr2.
  destruct (shr_m mrs2) as [|p|p] eqn:Hp; [| |lia].
  - right. split; [reflexivity|]. split; [reflexivity|]. simpl.
    assert (IZR m2 * bpow e1 = 0)%R as Hz by (rewrite <- Hval; lra).
    destruct s; simpl; rewrite ?opp_IZR; lra.
  - destruct (e3 <=? emax - prec) eqn:Hle.
    + right. split; [reflexivity|]. split; [reflexivity|]. simpl.
      destruct s; simpl; rewrite ?opp_IZR;
        change (IZR (Z.neg p)) with (- IZR (Z.pos p))%R; lra.
    + left. split; [reflexivity|].
      apply Z.leb_gt in Hle. change (emax - prec) with 971 in Hle. lia.
Qed.

(** ** Numbers in canonical form *)

Lemma valid_finite (s : bool) (m : positive) (e : Z) :
  valid_binary (S754_finite s m e) = true ->
  fexp (Zdigits2 (Z.pos m) + e) = e /\ e <= 971.
Proof.
  unfold SpecFloat.valid_binary, bounded, canonical_mantissa.
  intros H. apply andb_prop in H as [H1 H2].
  apply Z.eqb_eq in H1. apply Z.leb_le in H2.
  split; [exact H1|exact H2].
Qed.

(** A finite number in canonical form: at most 53 digits, and exactly 53
    unless the exponent is the least one. *)
Lemma valid_finite_digits (s : bool) (m : positive) (e : Z) :
  valid_binary (S754_finite s m e) = true ->
  -1074 <= e <= 971 /\ Z.pos m < 2 ^ 53 /\ (-1074 < e -> 2 ^ 52 <= Z.pos m).
Proof.
  intros H. apply valid_finite in H as [H1 H2]. rewrite fexp_eq in H1.
  pose proof (Zdigits2_bounds (Z.pos m) ltac:(lia)) as [Hlo Hhi].
  pose proof (Zdigits2_nonneg (Z.pos m)) as Hd.
  split; [lia|]. split.
  - assert (2 ^ Zdigits2 (Z.pos m) <= 2 ^ 53) by (apply Z.pow_le_mono_r; lia).
    lia.
  - intros He. assert (Zdigits2 (Z.pos m) = 53) as Hd53 by lia.
    rewrite Hd53 in Hlo. exact Hlo.
Qed.

Lemma shl_align_spec (mx : positive) (ex ex' : Z) :
  snd (shl_align mx ex ex') = Z.min ex ex' /\
  Z.pos (fst (shl_align mx ex ex'))
  = Z.pos mx * 2 ^ (ex - Z.min ex ex').
Proof.
  unfold shl_align. destruct (ex' - ex) as [|d|d] eqn:Hd; cbn [fst snd].
  - replace (Z.min ex ex') with ex by lia.
    rewrite Z.sub_diag, Z.mul_1_r. split; reflexivity.
  - replace (Z.min ex ex') with ex by lia.
    rewrite Z.sub_diag, Z.mul_1_r. split; reflexivity.
  - replace (Z.min ex ex') with ex' by lia. split; [reflexivity|].
    change (Pos.iter xO mx d) with (shift_pos d mx).
    rewrite shift_pos_correct, Z.pow_pos_fold, Z.mul_comm.
    f_equal. f_equal. lia.
Qed.

Lemma Zdigits2_mul_pow2 (m n : Z) :
  0 < m -> 0 <= n -> Zdigits2 (m * 2 ^ n) = Zdigits2 m + n.
Proof.
  intros Hm Hn. pose proof (Zdigits2_bounds m Hm) as [Hlo Hhi].
  pose proof (Zdigits2_nonneg m) as Hd.
  assert (Hp : 0 < 2 ^ n) by (apply Z.pow_pos_nonneg; lia).
  assert (Zdigits2 m <> 0).
  { intros H0. rewrite H0 in Hhi. simpl in Hhi. lia. }
  apply Zdigits2_unique; [|nia].
  replace (Zdigits2 m + n - 1) with (Zdigits2 m - 1 + n) by lia.
  rewrite !Z.pow_add_r by lia. nia.
Qed.

Lemma IZR_bpow_eq (a b : Z) (e g : Z) :
  e <= g -> (IZR a * bpow e = IZR b * bpow g)%R -> a = b * 2 ^ (g - e).
Proof.
  intros Heg H. apply eq_IZR. rewrite mult_IZR, <- bpow_IZR by lia.
  replace g with (e + (g - e)) in H by lia. rewrite bpow_add in H.
  pose proof (bpow_pos e). nra.
Qed.

Lemma bpow_digits (m e K : Z) :
  0 < m -> (IZR m * bpow e < bpow K)%R -> Zdigits2 m + e <= K.
Proof.
  intros Hm H. pose proof (Zdigits2_bounds m Hm) as [Hlo Hhi].
  pose proof (Zdigits2_nonneg m) as Hd.
  assert (Hnz : Zdigits2 m <> 0).
  { intros H0. rewrite H0 in Hhi. simpl in Hhi. lia. }
  destruct (Z_le_gt_dec (Zdigits2 m + e) K) as [Hle|Hgt]; [exact Hle|].
  exfalso. apply IZR_le in Hlo. rewrite <- bpow_IZR in Hlo by lia.
  assert (HK : (bpow K <= bpow (Zdigits2 m - 1 + e))%R) by (apply bpow_le; lia).
  rewrite bpow_add in HK. pose proof (bpow_pos e). nra.
Qed.

(** ** Exact results *)

(** A number that fits the format is normalized without change. *)
Lemma binary_normalize_exact (M e : Z) (sz : bool) (N g : Z) :
  (IZR M * bpow e = IZR N * bpow g)%R ->
  Z.abs N < 2 ^ 53 -> -1074 <= g <= 900 ->
  SF_finite (binary_normalize prec emax M e sz) = true /\
  SF2R (binary_normalize prec emax M e sz) = (IZR M * bpow e)%R.
Proof.
  intros Heq HN Hg.
  assert (Hgen : forall (s : bool) (p : positive) (N' : Z),
            0 < N' < 2 ^ 53 ->
            (IZR (Z.pos p) * bpow e = IZR N' * bpow g)%R ->
            SF_finite (binary_round prec emax s p e) = true /\
            SF2R (binary_round prec emax s p e)
            = (IZR (cond_Zopp s (Z.pos p)) * bpow e)%R).
  { clear Heq HN. intros s p N' HN' Heq. unfold binary_round.
    remember (Z.pos (digits2_pos p) + e) as D eqn:HDdef.
    pose proof (shl_align_spec p e (fexp D)) as [Hez Hmz].
    destruct (shl_align p e (fexp D)) as [mz ez]. cbn [fst snd] in Hez, Hmz.
    assert (Ht : (IZR (Z.pos mz) * bpow ez = IZR (Z.pos p) * bpow e)%R).
    { rewrite Hmz, mult_IZR, <- (bpow_IZR (e - Z.min e (fexp D))) by lia.
      rewrite Rmult_assoc, <- bpow_add. f_equal. f_equal. lia. }
    assert (HD : Zdigits2 (Z.pos mz) + ez = D).
    { rewrite Hmz, Zdigits2_mul_pow2 by lia.
      change (Zdigits2 (Z.pos p)) with (Z.pos (digits2_pos p)). lia. }
    assert (HDg : D <= 53 + g).
    { rewrite HDdef. apply (bpow_digits (Z.pos p) e); [lia|]. rewrite Heq.
      replace (53 + g) with (g + 53) by lia. rewrite bpow_add.
      rewrite (bpow_IZR 53) by lia.
      assert (IZR N' < IZR (2 ^ 53))%R by (apply IZR_lt; lia).
      pose proof (bpow_pos g). nra. }
    assert (Hloc : located_loc (IZR (Z.pos p) * bpow e) (Z.pos mz) ez loc_Exact).
    { unfold located_loc, located_record. simpl. lra. }
    destruct (binary_round_aux_spec _ s (Z.pos mz) ez loc_Exact
                ltac:(lia) Hloc) as (m2 & Hcase & Hres).
    rewrite HD in Hcase, Hres.
    set (e1 := Z.max ez (fexp D)) in *.
    assert (He1 : e1 = fexp D) by (unfold e1; lia).
    assert (He1g : e1 <= g) by (rewrite He1, fexp_eq; lia).
    assert (Hm1 : Z.pos mz / 2 ^ (e1 - ez) = N' * 2 ^ (g - e1)).
    { assert (Z.pos mz = N' * 2 ^ (g - e1) * 2 ^ (e1 - ez)) as ->.
      { rewrite <- Z.mul_assoc, <- Z.pow_add_r by lia.
        replace (g - e1 + (e1 - ez)) with (g - ez) by lia.
        apply IZR_bpow_eq; [lia|]. rewrite Ht. exact Heq. }
      apply Z.div_mul. apply Z.pow_nonzero; lia. }
    rewrite Hm1 in Hcase.
    assert (Hexact : (IZR (N' * 2 ^ (g - e1)) * bpow e1
                      = IZR (Z.pos p) * bpow e)%R).
    { rewrite Heq, mult_IZR, <- bpow_IZR, Rmult_assoc, <- bpow_add by lia.
      f_equal. f_equal. lia. }
    pose proof (bpow_pos e1) as Hpos.
    assert (m2 = N' * 2 ^ (g - e1)) as ->.
    { destruct Hcase as [[-> _]|[_ [H _]]]; [reflexivity|]. lra. }
    destruct Hres as [[_ Hbig]|(Hfin & _ & Hval)]; [lia|].
    split; [exact Hfin|]. rewrite Hval.
    destruct s; cbn [cond_Zopp]; rewrite ?opp_IZR; lra. }
  destruct M as [|p|p]; cbn [binary_normalize].
  - split; [reflexivity|]. simpl. lra.
  - assert (0 < N).
    { apply lt_IZR. pose proof (bpow_pos e). pose proof (bpow_pos g).
      assert (0 < IZR (Z.pos p))%R by (apply IZR_lt; lia). nra. }
    apply (Hgen false p N); [lia|exact Heq].
  - assert (N < 0).
    { apply lt_IZR. pose proof (bpow_pos e). pose proof (bpow_pos g).
      assert (IZR (Z.neg p) < 0)%R by (apply IZR_lt; lia). nra. }
    destruct (Hgen true p (- N)) as [H1 H2]; [lia| |].
    + rewrite opp_IZR.
      change (IZR (Z.neg p)) with (- IZR (Z.pos p))%R in Heq. lra.
    + split; [exact H1|]. rewrite H2. reflexivity.
Qed.

Lemma SFsub_exact (sx sy : bool) (mx my : positive) (ex ey : Z) (N g : Z) :
  let x := S754_finite sx mx ex in
  let y := S754_finite sy my ey in
  (SF2R x - SF2R y = IZR N * bpow g)%R ->
  Z.abs N < 2 ^ 53 -> -1074 <= g <= 900 ->
  SF_finite (SF64sub x y) = true /\
  SF2R (SF64sub x y) = (SF2R x - SF2R y)%R /\
  ((SF2R x - SF2R y = 0)%R -> SF64sub x y = S754_zero false).
Proof.
  intros x y Heq HN Hg.
  set (ez := Z.min ex ey).
  pose proof (shl_align_spec mx ex ez) as [_ Hx].
  pose proof (shl_align_spec my ey ez) as [_ Hy].
  replace (Z.min ex ez) with ez in Hx by lia.
  replace (Z.min ey ez) with ez in Hy by lia.
  set (M := cond_Zopp sx (Z.pos (fst (shl_align mx ex ez)))
            - cond_Zopp sy (Z.pos (fst (shl_align my ey ez)))).
  assert (HM : (IZR M * bpow ez = SF2R x - SF2R y)%R).
  { unfold M, x, y, SF2R. rewrite minus_IZR, Hx, Hy.
    assert (Hbx : bpow ex = (IZR (2 ^ (ex - ez)) * bpow ez)%R).
    { rewrite <- bpow_IZR, <- bpow_add by lia. f_equal. lia. }
    assert (Hby : bpow ey = (IZR (2 ^ (ey - ez)) * bpow ez)%R).
    { rewrite <- bpow_IZR, <- bpow_add by lia. f_equal. lia. }
    rewrite Hbx, Hby.
    destruct sx, sy; cbn [cond_Zopp]; rewrite ?opp_IZR, ?mult_IZR; ring. }
  change (SF64sub x y) with (binary_normalize prec emax M ez false).
  rewrite <- HM in Heq |- *.
  destruct (binary_normalize_exact M ez false N g Heq HN Hg) as [H1 H2].
  split; [exact H1|]. split; [exact H2|].
  intros H0. assert (M = 0) as ->; [|reflexivity].
  apply eq_IZR. pose proof (bpow_pos ez). nra.
Qed.

(** ** Division *)

Lemma new_location_spec (n r q e : Z) :
  0 < n -> 0 <= r < n ->
  located_loc ((IZR q + IZR r / IZR n) * bpow e) q e (new_location n r).
Proof.
  intros Hn Hr. pose proof (bpow_pos e) as He.
  assert (Hn' : (0 < IZR n)%R) by (apply IZR_lt; lia).
  assert (Hdiv : forall a b : R, (a * / IZR n < b <-> a < b * IZR n)%R).
  { intros a b. split; intros H.
    - apply (Rmult_lt_compat_r (IZR n)) in H; [|exact Hn'].
      rewrite Rmult_assoc, Rinv_l, Rmult_1_r in H by lra. exact H.
    - apply (Rmult_lt_reg_r (IZR n)); [exact Hn'|].
      rewrite Rmult_assoc, Rinv_l, Rmult_1_r by lra. exact H. }
  assert (Hdiv' : forall a b : R, (b < a * / IZR n <-> b * IZR n < a)%R).
  { intros a b. split; intros H.
    - apply (Rmult_lt_compat_r (IZR n)) in H; [|exact Hn'].
      rewrite Rmult_assoc, Rinv_l, Rmult_1_r in H by lra. exact H.
    - apply (Rmult_lt_reg_r (IZR n)); [exact Hn'|].
      rewrite Rmult_assoc, Rinv_l, Rmult_1_r by lra. exact H. }
  unfold located_loc, located_record, new_location, new_location_even,
    new_location_odd, Rdiv.
  assert (Hcases : r = 0 \/ (0 < r /\ 2 * r < n) \/ (2 * r = n) \/
                   (n < 2 * r)) by lia.
  destruct (Z.even n) eqn:Heven; destruct (r =? 0) eqn:Hr0;
    try (apply Z.eqb_eq in Hr0; subst r; simpl; rewrite Rmult_0_l; lra).
  - apply Z.eqb_neq in Hr0.
    destruct (Z.compare_spec (2 * r) n) as [H|H|H]; simpl.
    + assert (IZR r * / IZR n = 1 / 2)%R as ->; [|lra].
      apply (Rmult_eq_reg_r (IZR n)); [|lra].
      rewrite Rmult_assoc, Rinv_l, Rmult_1_r by lra.
      rewrite <- H, mult_IZR. lra.
    + assert (0 < IZR r * / IZR n < 1 / 2)%R; [|nra].
      split; [apply Hdiv'|apply Hdiv].
      * rewrite Rmult_0_l. apply IZR_lt. lia.
      * apply IZR_lt in H. rewrite mult_IZR in H. lra.
    + assert (1 / 2 < IZR r * / IZR n < 1)%R; [|nra].
      split; [apply Hdiv'|apply Hdiv].
      * apply IZR_lt in H. rewrite mult_IZR in H. lra.
      * rewrite Rmult_1_l. apply IZR_lt. lia.
  - apply Z.eqb_neq in Hr0.
    assert (Hodd : 2 * r <> n).
    { intros <-. rewrite Z.even_mul in Heven. discriminate Heven. }
    destruct (Z.compare_spec (2 * r + 1) n) as [H|H|H]; simpl.
    + assert (0 < IZR r * / IZR n < 1 / 2)%R; [|nra].
      split; [apply Hdiv'|apply Hdiv].
      * rewrite Rmult_0_l. apply IZR_lt. lia.
      * rewrite <- H, plus_IZR, mult_IZR. lra.
    + assert (0 < IZR r * / IZR n < 1 / 2)%R; [|nra].
      split; [apply Hdiv'|apply Hdiv].
      * rewrite Rmult_0_l. apply IZR_lt. lia.
      * apply IZR_lt in H. rewrite plus_IZR, mult_IZR in H. lra.
    + assert (1 / 2 < IZR r * / IZR n < 1)%R; [|nra].
      split; [apply Hdiv'|apply Hdiv].
      * assert (n < 2 * r) as H' by lia.
        apply IZR_lt in H'. rewrite mult_IZR in H'. lra.
      * rewrite Rmult_1_l. apply IZR_lt. lia.
Qed.

Lemma bpow_lt_inv (a b : Z) : (bpow a < bpow b)%R -> a < b.
Proof.
  intros H. destruct (Z_lt_ge_dec a b) as [Hlt|Hge]; [exact Hlt|].
  pose proof (bpow_le b a ltac:(lia)). lra.
Qed.

Lemma bpow_le_inv (a b : Z) : (bpow a <= bpow b)%R -> a <= b.
Proof.
  intros H. destruct (Z_le_gt_dec a b) as [Hle|Hgt]; [exact Hle|].
  pose proof (bpow_lt b a ltac:(lia)). lra.
Qed.

(** The quotient of two finite numbers: the real quotient [t] of the
    magnitudes, rounded to nearest-even on a grid of step [2^e1], where
    [e1] is the exponent that the format gives to numbers of the size of
    [t]. *)
Lemma SFdiv_spec (sx sy : bool) (mx my : positive) (ex ey : Z) :
  let t := (IZR (Z.pos mx) * bpow ex / (IZR (Z.pos my) * bpow ey))%R in
  let z := SF64div (S754_finite sx mx ex) (S754_finite sy my ey) in
  exists e1 m1 m2 : Z,
    -1074 <= e1 /\ 0 <= m1 /\
    (forall K, (t < bpow K)%R -> e1 <= fexp K) /\
    ((m2 = m1 /\ (IZR m1 * bpow e1 <= t <= (IZR m1 + 1 / 2) * bpow e1)%R) \/
     (m2 = m1 + 1 /\
      ((IZR m1 + 1 / 2) * bpow e1 <= t < (IZR m1 + 1) * bpow e1)%R)) /\
    ((z = S754_infinity (xorb sx sy) /\ 970 <= e1) \/
     (SF_finite z = true /\ SF_sign z = xorb sx sy /\
      SF2R z = (IZR (cond_Zopp (xorb sx sy) m2) * bpow e1)%R)).
Proof.
  intros t z.
  set (d1 := Zdigits2 (Z.pos mx)). set (d2 := Zdigits2 (Z.pos my)).
  set (e' := Z.min (fexp (d1 + ex - (d2 + ey))) (ex - ey)).
  set (s := ex - ey - e').
  assert (Hs : 0 <= s) by (unfold s, e'; lia).
  set (m' := match s with
             | Z.pos _ => Z.shiftl (Z.pos mx) s
             | Z0 => Z.pos mx
             | Z.neg _ => 0
             end).
  assert (Hm' : m' = Z.pos mx * 2 ^ s).
  { unfold m'. destruct s as [|p|p] eqn:Hp; [simpl; lia| |lia].
    apply Z.shiftl_mul_pow2. lia. }
  pose proof (Z_div_mod m' (Z.pos my) ltac:(lia)) as Hdm.
  destruct (Z.div_eucl m' (Z.pos my)) as [q r] eqn:Hqr.
  destruct Hdm as [Hdm Hr].
  assert (Hq : 0 <= q).
  { assert (0 <= m') by (rewrite Hm'; apply Z.mul_nonneg_nonneg;
                          [lia|apply Z.pow_nonneg; lia]).
    nia. }
  assert (Hz : z = binary_round_aux prec emax (xorb sx sy) q e'
                     (new_location (Z.pos my) r)).
  { unfold z, SF64div, SFdiv, SFdiv_core_binary.
    fold d1 d2 e' s m'. rewrite Hqr. reflexivity. }
  pose proof (bpow_pos ex) as Hbx. pose proof (bpow_pos ey) as Hby.
  pose proof (bpow_pos e') as Hbe.
  assert (Hmy : (0 < IZR (Z.pos my))%R) by (apply IZR_lt; lia).
  assert (Hmx : (0 < IZR (Z.pos mx))%R) by (apply IZR_lt; lia).
  assert (Ht : t = ((IZR q + IZR r / IZR (Z.pos my)) * bpow e')%R).
  { unfold t.
    assert (Hm'R : (IZR m' = IZR (Z.pos my) * IZR q + IZR r)%R)
      by (rewrite Hdm, plus_IZR, mult_IZR; reflexivity).
    assert (Hbex : bpow ex = (IZR (2 ^ s) * bpow e' * bpow ey)%R).
    { rewrite <- bpow_IZR, <- !bpow_add by lia. f_equal. unfold s. lia. }
    rewrite Hm', mult_IZR in Hm'R. rewrite Hbex.
    assert (Hfrac : (IZR q + IZR r / IZR (Z.pos my)
                     = IZR (Z.pos mx) * IZR (2 ^ s) / IZR (Z.pos my))%R).
    { rewrite Hm'R. field. lra. }
    rewrite Hfrac. field. split; lra. }
  pose proof (new_location_spec (Z.pos my) r q e' ltac:(lia) Hr) as Hloc.
  rewrite <- Ht in Hloc.
  destruct (binary_round_aux_spec t (xorb sx sy) q e' _ Hq Hloc)
    as (m2 & Hcase & Hres).
  rewrite <- Hz in Hres.
  set (e1 := Z.max e' (fexp (Zdigits2 q + e'))) in *.
  exists e1, (q / 2 ^ (e1 - e')), m2.
  split; [unfold e1; rewrite fexp_eq; lia|].
  split; [apply Z.div_pos; [exact Hq|apply Z.pow_pos_nonneg; unfold e1; lia]|].
  split; [|split; [exact Hcase|exact Hres]].
  intros K HK.
  assert (Hd : d1 + ex - (d2 + ey) <= K).
  { pose proof (Zdigits2_bounds (Z.pos mx) ltac:(lia)) as [Hlo1 _].
    pose proof (Zdigits2_bounds (Z.pos my) ltac:(lia)) as [_ Hhi2].
    fold d1 in Hlo1. fold d2 in Hhi2.
    assert (0 < d1) by (unfold d1; simpl; lia).
    assert (0 < d2) by (unfold d2; simpl; lia).
    apply IZR_le in Hlo1. apply IZR_lt in Hhi2.
    rewrite <- bpow_IZR in Hlo1, Hhi2 by lia.
    assert (d1 - 1 + ex - (d2 + ey) < K); [|lia].
    apply bpow_lt_inv. eapply Rle_lt_trans; [|exact HK].
    unfold t.
    apply (Rmult_le_reg_r (IZR (Z.pos my) * bpow ey)); [nra|].
    unfold Rdiv. rewrite Rmult_assoc, Rinv_l, Rmult_1_r by nra.
    replace (d1 - 1 + ex - (d2 + ey)) with ((d1 - 1) + ex + - (d2 + ey)) by lia.
    rewrite !bpow_add, bpow_opp, bpow_add.
    pose proof (bpow_pos (d1 - 1)). pose proof (bpow_pos d2).
    assert (Hle : (bpow (d1 - 1) * bpow ex * / (bpow d2 * bpow ey)
                   * (IZR (Z.pos my) * bpow ey)
                   <= bpow (d1 - 1) * bpow ex)%R).
    { assert (Hfrac : (/ (bpow d2 * bpow ey) * (IZR (Z.pos my) * bpow ey)
                       <= 1)%R).
      { apply (Rmult_le_reg_l (bpow d2 * bpow ey)); [nra|].
        rewrite <- Rmult_assoc, Rinv_r, Rmult_1_l, Rmult_1_r by nra. nra. }
      rewrite Rmult_assoc.
      assert (0 < bpow (d1 - 1) * bpow ex)%R by nra. nra. }
    nra. }
  assert (He' : e' <= fexp K).
  { pose proof (fexp_mono _ _ Hd). unfold e'. lia. }
  assert (Hdq : fexp (Zdigits2 q + e') <= fexp K).
  { destruct (Z.eq_dec q 0) as [->|Hq0].
    - simpl. rewrite !fexp_eq in *. lia.
    - apply fexp_mono. apply (bpow_digits q e' K); [lia|].
      eapply Rle_lt_trans; [|exact HK]. rewrite Ht.
      assert (0 <= IZR r / IZR (Z.pos my))%R.
      { apply Rmult_le_pos; [apply IZR_le; lia|].
        apply Rlt_le, Rinv_0_lt_compat, Hmy. }
      nra. }
  unfold e1. lia.
Qed.

(** ** Comparisons *)

Lemma SFcompare_pos (m1 m2 : positive) (e1 e2 : Z) :
  valid_binary (S754_finite false m1 e1) = true ->
  valid_binary (S754_finite false m2 e2) = true ->
  match SFcompare (S754_finite false m1 e1) (S754_finite false m2 e2) with
  | Some Lt => (IZR (Z.pos m1) * bpow e1 < IZR (Z.pos m2) * bpow e2)%R
  | Some Eq => (IZR (Z.pos m1) * bpow e1 = IZR (Z.pos m2) * bpow e2)%R
  | Some Gt => (IZR (Z.pos m2) * bpow e2 < IZR (Z.pos m1) * bpow e1)%R
  | None => False
  end.
Proof.
  intros V1 V2.
  apply valid_finite_digits in V1 as (He1 & Hm1 & Hn1).
  apply valid_finite_digits in V2 as (He2 & Hm2 & Hn2).
  assert (Hlt : forall (a b : positive) (ea eb : Z),
            Z.pos a < 2 ^ 53 -> 2 ^ 52 <= Z.pos b -> ea < eb ->
            (IZR (Z.pos a) * bpow ea < IZR (Z.pos b) * bpow eb)%R).
  { intros a b ea eb Ha Hb Hab.
    apply IZR_lt in Ha. apply IZR_le in Hb.
    rewrite <- bpow_IZR in Ha, Hb by lia.
    pose proof (bpow_pos ea). pose proof (bpow_pos eb).
    assert (bpow (53 + ea) <= bpow (52 + eb))%R by (apply bpow_le; lia).
    rewrite !bpow_add in *. nra. }
  cbn [SFcompare].
  destruct (Z.compare_spec e1 e2) as [->|H|H].
  - change (Pos.compare_cont Eq m1 m2) with (Pos.compare m1 m2).
    pose proof (bpow_pos e2).
    destruct (Pos.compare_spec m1 m2) as [->|Hm|Hm].
    + reflexivity.
    + assert (IZR (Z.pos m1) < IZR (Z.pos m2))%R by (apply IZR_lt; lia). nra.
    + assert (IZR (Z.pos m2) < IZR (Z.pos m1))%R by (apply IZR_lt; lia). nra.
  - apply Hlt; [exact Hm1|apply Hn2; lia|exact H].
  - apply Hlt; [exact Hm2|apply Hn1; lia|exact H].
Qed.

(** ** The quotient by a step of the grid

    The steps of the grid are the numbers [9 * 2^j].  A number [X] below
    [k] steps, for [k] from 1 to 4, is below them by one unit of its last
    place at least, and that is more than half a unit of the last place of
    the quotient: the rounded quotient stays below [k]. *)

Lemma bpow_neg_num (p : positive) : bpow (Z.neg p) = (/ IZR (2 ^ Z.pos p))%R.
Proof.
  change (Z.neg p) with (- Z.pos p). rewrite bpow_opp, bpow_IZR by lia.
  reflexivity.
Qed.

Lemma below_step_gap (mx : positive) (ex j k E : Z) :
  valid_binary (S754_finite false mx ex) = true ->
  -100 <= j <= 100 ->
  (k = 1 /\ E = -53) \/ (k = 2 /\ E = -52) \/
  (k = 3 /\ E = -51) \/ (k = 4 /\ E = -51) ->
  (IZR (Z.pos mx) * bpow ex < IZR k * (9 * bpow j))%R ->
  (IZR k * (9 * bpow j) - IZR (Z.pos mx) * bpow ex
   <= 9 * bpow j * bpow E / 2)%R ->
  False.
Proof.
  intros V Hj Hk Hlt Hgap.
  apply valid_finite_digits in V as (He & Hm & Hn).
  set (Y := IZR (Z.pos mx)) in *.
  pose proof (bpow_pos j) as HB. pose proof (bpow_pos ex) as Hbx.
  assert (HY53 : (Y < IZR (2 ^ 53))%R) by (apply IZR_lt; exact Hm).
  assert (HE : (bpow E <= bpow (-51))%R) by (apply bpow_le; lia).
  assert (Hk14 : (1 <= IZR k <= 4)%R)
    by (destruct Hk as [[-> _]|[[-> _]|[[-> _]|[-> _]]]]; lra).
  assert (Hb51 : bpow (-51) = (/ 2251799813685248)%R).
  { apply (bpow_neg_num 51). }
  (* the exponent of [X] is 49, 48 or 47 below that of the step *)
  assert (Hlo : j - 49 <= ex).
  { assert (j + 3 < 53 + ex); [|lia]. apply bpow_lt_inv.
    rewrite !bpow_add, (bpow_IZR 3), (bpow_IZR 53) by lia.
    change (IZR (2 ^ 3)) with 8%R. rewrite Hb51 in HE. nra. }
  assert (HY52 : (IZR (2 ^ 52) <= Y)%R) by (apply IZR_le, Hn; lia).
  assert (Hhi : ex <= j - 47).
  { assert (52 + ex < j + 6); [|lia]. apply bpow_lt_inv.
    rewrite !bpow_add, (bpow_IZR 6), (bpow_IZR 52) by lia.
    change (IZR (2 ^ 6)) with 64%R. nra. }
  assert (Hex : ex = j + -49 \/ ex = j + -48 \/ ex = j + -47) by lia.
  assert (Hdisc : forall c : Z, (Y < IZR c)%R -> (Y + 1 <= IZR c)%R).
  { intros c Hc. unfold Y in *. apply lt_IZR in Hc.
    change 1%R with (IZR 1). rewrite <- plus_IZR. apply IZR_le. lia. }
  assert (Hb49 : bpow (-49) = (/ 562949953421312)%R).
  { apply (bpow_neg_num 49). }
  assert (Hb48 : bpow (-48) = (/ 281474976710656)%R).
  { apply (bpow_neg_num 48). }
  assert (Hb47 : bpow (-47) = (/ 140737488355328)%R).
  { apply (bpow_neg_num 47). }
  assert (Hb52 : bpow (-52) = (/ 4503599627370496)%R).
  { apply (bpow_neg_num 52). }
  assert (Hb53 : bpow (-53) = (/ 9007199254740992)%R).
  { apply (bpow_neg_num 53). }
  change (IZR (2 ^ 52)) with 4503599627370496%R in HY52.
  change (IZR (2 ^ 53)) with 9007199254740992%R in HY53.
  assert (Hscale : forall a b : R, (a * bpow j < b * bpow j)%R -> (a < b)%R).
  { intros a b Hab. apply (Rmult_lt_reg_r (bpow j)); assumption. }
  assert (Hscale' : forall a b : R, (a * bpow j <= b * bpow j)%R -> (a <= b)%R).
  { intros a b Hab. apply (Rmult_le_reg_r (bpow j)); assumption. }
  destruct Hex as [->|[->| ->]]; rewrite bpow_add in Hlt, Hgap;
    match type of Hlt with
    | (Y * (_ * bpow ?a) < _)%R =>
        assert (H1 : (Y * bpow a < IZR k * 9)%R) by (apply Hscale; lra);
        assert (H2 : (IZR k * 9 - Y * bpow a <= 9 * bpow E / 2)%R)
          by (apply Hscale'; lra)
    end;
    clear Hlt Hgap Hscale Hscale' Hbx HB;
    destruct Hk as [[-> ->]|[[-> ->]|[[-> ->]|[-> ->]]]];
    rewrite ?Hb47, ?Hb48, ?Hb49, ?Hb51, ?Hb52, ?Hb53 in H1, H2;
    try lra.
  - pose proof (Hdisc (9 * 562949953421312) ltac:(rewrite mult_IZR; lra)) as Hd.
    rewrite mult_IZR in Hd. lra.
  - pose proof (Hdisc (18 * 281474976710656) ltac:(rewrite mult_IZR; lra)) as Hd.
    rewrite mult_IZR in Hd. lra.
  - pose proof (Hdisc (27 * 281474976710656) ltac:(rewrite mult_IZR; lra)) as Hd.
    rewrite mult_IZR in Hd. lra.
  - pose proof (Hdisc (36 * 140737488355328) ltac:(rewrite mult_IZR; lra)) as Hd.
    rewrite mult_IZR in Hd. lra.
Qed.

Lemma step_value (ed : Z) :
  (IZR (Z.pos 5066549580791808) * bpow ed = 9 * bpow (ed + 49))%R.
Proof.
  rewrite bpow_add, (bpow_IZR 49) by lia.
  change (IZR (2 ^ 49)) with 562949953421312%R. lra.
Qed.

(** The rounded quotient of [X] by a step [D] of the grid reaches an
    integer [k] from 1 to 4 exactly when [X] reaches [k] steps. *)
Lemma quotient_by_step (mx : positive) (ex ed : Z) :
  valid_binary (S754_finite false mx ex) = true ->
  -100 <= ed + 49 <= 100 ->
  let X := (IZR (Z.pos mx) * bpow ex)%R in
  let D := (9 * bpow (ed + 49))%R in
  let z := SF64div (S754_finite false mx ex)
                   (S754_finite false 5066549580791808 ed) in
  (X <= 4 * D)%R ->
  SF_finite z = true /\ SF_sign z = false /\ (0 <= SF2R z < 5)%R /\
  forall k, 1 <= k <= 4 -> ((IZR k <= SF2R z)%R <-> (IZR k * D <= X)%R).
Proof.
  intros V Hed X D z HX.
  destruct (SFdiv_spec false false mx 5066549580791808 ex ed)
    as (e1 & m1 & m2 & He1 & Hm1 & HK & Hcase & Hres).
  fold z in Hres. rewrite step_value in HK, Hcase. fold X D in HK, Hcase.
  set (t := (X / D)%R) in *.
  pose proof (bpow_pos (ed + 49)) as HB. pose proof (bpow_pos ex) as Hbx.
  assert (HD : (0 < D)%R) by (unfold D; lra).
  assert (HX0 : (0 < X)%R).
  { unfold X. assert (0 < IZR (Z.pos mx))%R by (apply IZR_lt; lia). nra. }
  assert (HtX : (t * D = X)%R) by (unfold t; field; lra).
  assert (Ht4 : (0 < t <= 4)%R).
  { split; [unfold t; apply Rdiv_lt_0_compat; assumption|].
    apply (Rmult_le_reg_r D); [exact HD|]. lra. }
  assert (He50 : e1 <= -50).
  { apply (HK 3). rewrite (bpow_IZR 3) by lia. change (IZR (2 ^ 3)) with 8%R.
    lra. }
  set (h := bpow e1) in *.
  pose proof (bpow_pos e1) as Hh. fold h in Hh.
  assert (Hh50 : (h <= / 1125899906842624)%R).
  { unfold h. change (/ 1125899906842624)%R with (/ IZR (2 ^ 50))%R.
    rewrite <- (bpow_neg_num 50). apply bpow_le. lia. }
  assert (Hm1R : (0 <= IZR m1)%R) by (apply IZR_le; lia).
  destruct Hres as [[_ Hbig]|(Hfin & Hsign & Hval)]; [lia|].
  cbn [xorb cond_Zopp] in Hsign, Hval.
  assert (Hlow : (IZR m1 * h <= SF2R z)%R).
  { rewrite Hval. destruct Hcase as [[-> _]|[-> _]];
      rewrite ?plus_IZR; nra. }
  assert (Hup : (t < (IZR m1 + 1) * h)%R)
    by (destruct Hcase as [[_ H]|[_ H]]; nra).
  split; [exact Hfin|]. split; [exact Hsign|]. split.
  { rewrite Hval. destruct Hcase as [[-> H]|[-> H]]; rewrite ?plus_IZR; nra. }
  intros k Hk.
  assert (HkR : (1 <= IZR k <= 4)%R)
    by (split; [apply (IZR_le 1)|apply (IZR_le _ 4)]; lia).
  split.
  - (* the quotient reaches [k] only if [X] does *)
    intros Hkz.
    destruct (Rle_lt_dec (IZR k * D) X) as [Hle|Hlt]; [exact Hle|exfalso].
    assert (Htk : (t < IZR k)%R).
    { apply (Rmult_lt_reg_r D); [exact HD|]. lra. }
    destruct Hcase as [[-> H]|[-> H]].
    + rewrite Hval in Hkz. lra.
    + rewrite Hval, plus_IZR in Hkz.
      assert (Hgap : (IZR k - t <= h / 2)%R) by lra.
      assert (exists E, ((k = 1 /\ E = -53) \/ (k = 2 /\ E = -52) \/
                         (k = 3 /\ E = -51) \/ (k = 4 /\ E = -51)) /\
                        e1 <= E) as (E & HkE & HE).
      { assert (k = 1 \/ k = 2 \/ k = 3 \/ k = 4) as [->|[->|[->| ->]]] by lia.
        - exists (-53). split; [tauto|]. apply (HK 0). simpl in *. lra.
        - exists (-52). split; [tauto|]. apply (HK 1).
          change (bpow 1) with (2 * 1)%R. lra.
        - exists (-51). split; [tauto|]. apply (HK 2).
          rewrite (bpow_IZR 2) by lia. change (IZR (2 ^ 2)) with 4%R. lra.
        - exists (-51). split; [tauto|]. apply (HK 2).
          rewrite (bpow_IZR 2) by lia. change (IZR (2 ^ 2)) with 4%R. lra. }
      apply (below_step_gap mx ex (ed + 49) k E V Hed HkE).
      * fold X. fold D. exact Hlt.
      * fold X. fold D.
        assert (h <= bpow E)%R by (apply bpow_le; exact HE).
        pose proof (bpow_pos E).
        assert (IZR k * D - X = (IZR k - t) * D)%R as -> by lra.
        unfold D in *. nra.
  - (* and it reaches [k] when [X] does: [k] is on the grid *)
    intros Hle.
    assert (Htk : (IZR k <= t)%R).
    { apply (Rmult_le_reg_r D); [exact HD|]. lra. }
    assert (Hgrid : (IZR k = IZR (k * 2 ^ (- e1)) * h)%R).
    { rewrite mult_IZR, <- bpow_IZR by lia. unfold h.
      rewrite Rmult_assoc, <- bpow_add.
      replace (- e1 + e1) with 0 by lia. simpl. lra. }
    assert (k * 2 ^ (- e1) <= m1).
    { assert (k * 2 ^ (- e1) < m1 + 1); [|lia]. apply lt_IZR.
      rewrite plus_IZR. apply (Rmult_lt_reg_r h); [exact Hh|].
      rewrite <- Hgrid. lra. }
    apply IZR_le in H. rewrite Hgrid. nra.
Qed.

(** ** Numbers of the program *)

Lemma F2R_finite (x : float) (s : bool) (m : positive) (e : Z) :
  Prim2SF x = S754_finite s m e ->
  F2R x = (IZR (cond_Zopp s (Z.pos m)) * bpow e)%R.
Proof. intros H. unfold F2R. rewrite H. reflexivity. Qed.

(** A number between two positive numbers is positive and finite, and its
    real value lies between theirs. *)
Lemma in_range_spec (lo hi x : float) (ml mh : positive) (el eh : Z) :
  Prim2SF lo = S754_finite false ml el ->
  Prim2SF hi = S754_finite false mh eh ->
  (lo <=? x)%float = true -> (x <=? hi)%float = true ->
  exists m e, Prim2SF x = S754_finite false m e /\
              (F2R lo <= F2R x <= F2R hi)%R.
Proof.
  intros Hlo Hhi H1 H2. rewrite FloatAxioms.leb_spec in H1, H2.
  pose proof (Prim2SF_valid x) as Vx. pose proof (Prim2SF_valid lo) as Vlo.
  pose proof (Prim2SF_valid hi) as Vhi.
  unfold F2R. rewrite Hlo, Hhi in *.
  destruct (Prim2SF x) as [s|s| |s m e]; try discriminate.
  - destruct s; discriminate.
  - destruct s; [discriminate|].
    exists m, e. split; [reflexivity|].
    pose proof (SFcompare_pos ml m el e Vlo Vx) as C1.
    pose proof (SFcompare_pos m mh e eh Vx Vhi) as C2.
    unfold SFleb in H1, H2. cbn [SF2R cond_Zopp].
    destruct (SFcompare (S754_finite false ml el) (S754_finite false m e))
      as [[]|]; try discriminate;
      destruct (SFcompare (S754_finite false m e) (S754_finite false mh eh))
      as [[]|]; try discriminate; lra.
Qed.

(** [Math.floor] of a positive number below [2^52]. *)
Lemma Math_floor_spec (q : float) (m : positive) (e : Z) :
  Prim2SF q = S754_finite false m e -> (F2R q < bpow 52)%R ->
  exists n, Math_floor q = Z2F n /\ 0 <= n /\ (IZR n <= F2R q < IZR n + 1)%R.
Proof.
  intros Hq Hlt. pose proof (Prim2SF_valid q) as V. rewrite Hq in V.
  apply valid_finite_digits in V as (He & Hm & Hn).
  rewrite (F2R_finite _ _ _ _ Hq) in *. cbn [cond_Zopp] in *.
  assert (He0 : e < 0).
  { destruct (Z_lt_ge_dec e 0) as [H|H]; [exact H|exfalso].
    assert (IZR (2 ^ 52) <= IZR (Z.pos m))%R by (apply IZR_le, Hn; lia).
    rewrite <- bpow_IZR in H0 by lia.
    assert (bpow 0 <= bpow e)%R by (apply bpow_le; lia).
    simpl in H1. pose proof (bpow_pos 52). nra. }
  exists (Z.shiftr (Z.pos m) (- e)).
  unfold Math_floor. rewrite Hq.
  destruct (0 <=? e) eqn:Hle; [apply Z.leb_le in Hle; lia|].
  split; [reflexivity|].
  rewrite Z.shiftr_div_pow2 by lia.
  assert (Hp : 0 < 2 ^ (- e)) by (apply Z.pow_pos_nonneg; lia).
  split; [apply Z.div_pos; lia|].
  pose proof (Z.div_mod (Z.pos m) (2 ^ (- e)) ltac:(lia)) as Hdm.
  pose proof (Z.mod_pos_bound (Z.pos m) (2 ^ (- e)) Hp) as Hmod.
  set (n := Z.pos m / 2 ^ (- e)) in *. set (r := Z.pos m mod 2 ^ (- e)) in *.
  assert (Hb : (bpow e * IZR (2 ^ (- e)) = 1)%R).
  { rewrite <- bpow_IZR, <- bpow_add by lia.
    replace (e + - e) with 0 by lia. reflexivity. }
  assert (Hr : (0 <= IZR r < IZR (2 ^ (- e)))%R)
    by (split; [apply IZR_le|apply IZR_lt]; lia).
  assert (Hm' : (IZR (Z.pos m) * bpow e = IZR n + IZR r * bpow e)%R).
  { rewrite Hdm, plus_IZR, mult_IZR.
    replace ((IZR (2 ^ (- e)) * IZR n + IZR r) * bpow e)%R
      with (IZR n * (bpow e * IZR (2 ^ (- e))) + IZR r * bpow e)%R by ring.
    rewrite Hb. ring. }
  rewrite Hm'. pose proof (bpow_pos e) as Hbe.
  assert (0 <= IZR r * bpow e < 1)%R; [|lra].
  rewrite <- Hb. split; nra.
Qed.

(** ** The index of a cell

    [x] lies in a cell that starts at [lo], a multiple of [2^-20], and
    has four steps [d = 9 * 2^j].  The difference [x - lo] is computed
    exactly, and the floor of its quotient by [d] is the number of whole
    steps between [lo] and [x]. *)
Lemma cell_index (x lo d : float) (mx ml : positive) (ex el ed u : Z) :
  Prim2SF x = S754_finite false mx ex ->
  Prim2SF lo = S754_finite false ml el ->
  Prim2SF d = S754_finite false 5066549580791808 ed ->
  -100 <= ed + 49 <= 100 ->
  F2R lo = (IZR u * bpow (-20))%R ->
  (F2R lo <= F2R x <= F2R lo + 4 * F2R d)%R ->
  (0 <= F2R lo)%R -> (F2R x < 128)%R ->
  exists n,
    0 <= n <= 4 /\
    Math_floor ((x - lo) / d)%float = Z2F n /\
    (IZR n * F2R d <= F2R x - F2R lo)%R /\
    (n < 4 -> (F2R x - F2R lo < (IZR n + 1) * F2R d)%R).
Proof.
  intros Hx Hlo Hd Hed Hu Hcell Hlo0 H128.
  pose proof (Prim2SF_valid x) as Vx. rewrite Hx in Vx.
  pose proof (valid_finite_digits _ _ _ Vx) as (Hex & Hmx & Hnx).
  pose proof (F2R_finite _ _ _ _ Hx) as Fx.
  pose proof (F2R_finite _ _ _ _ Hlo) as Fl.
  pose proof (F2R_finite _ _ _ _ Hd) as Fd.
  cbn [cond_Zopp] in Fx, Fl, Fd. rewrite step_value in Fd.
  pose proof (bpow_pos ex) as Hbx. pose proof (bpow_pos (ed + 49)) as Hbd.
  assert (Hex20 : ex <= -20).
  { destruct (Z_le_gt_dec ex (-20)) as [H|H]; [exact H|exfalso].
    assert (IZR (2 ^ 52) <= IZR (Z.pos mx))%R by (apply IZR_le, Hnx; lia).
    assert (bpow (-19) <= bpow ex)%R by (apply bpow_le; lia).
    rewrite (bpow_neg_num 19) in H1.
    change (IZR (2 ^ 52)) with 4503599627370496%R in H0.
    change (IZR (2 ^ Z.pos 19)) with 524288%R in H1.
    rewrite Fx in H128. nra. }
  (* the difference is exact *)
  set (N := Z.pos mx - u * 2 ^ (-20 - ex)).
  assert (HN : (F2R x - F2R lo = IZR N * bpow ex)%R).
  { unfold N. rewrite minus_IZR, mult_IZR, <- bpow_IZR by lia.
    rewrite Fx, Hu. rewrite Rmult_minus_distr_r, Rmult_assoc, <- bpow_add.
    replace (-20 - ex + ex) with (-20) by lia. reflexivity. }
  assert (HN53 : Z.abs N < 2 ^ 53).
  { assert (0 <= N <= Z.pos mx); [|lia]. split.
    - apply le_IZR. apply (Rmult_le_reg_r (bpow ex)); [exact Hbx|].
      rewrite <- HN. lra.
    - apply le_IZR. apply (Rmult_le_reg_r (bpow ex)); [exact Hbx|].
      rewrite <- HN, <- Fx. lra. }
  pose proof (FloatAxioms.sub_spec x lo) as Hsub. rewrite Hx, Hlo in Hsub.
  destruct (SFsub_exact false false mx ml ex el N ex) as (Sfin & Sval & Szero);
    [cbn [SF2R cond_Zopp]; rewrite <- Fx, <- Fl; exact HN|exact HN53|lia|].
  cbn [SF2R cond_Zopp] in Sval, Szero. rewrite <- Fx, <- Fl in Sval, Szero.
  rewrite <- Hsub in Sfin, Sval, Szero.
  pose proof (FloatAxioms.div_spec (x - lo) d) as Hdiv. rewrite Hd in Hdiv.
  destruct (Req_dec (F2R x - F2R lo) 0) as [Hz|Hnz].
  - (* [x] is the start of the cell *)
    rewrite (Szero Hz) in Hdiv. cbn in Hdiv.
    assert (Hq : ((x - lo) / d)%float = 0%float).
    { rewrite <- (SF2Prim_Prim2SF (_ / _)), Hdiv. reflexivity. }
    exists 0. rewrite Hq. split; [lia|]. split; [reflexivity|].
    rewrite Fd. split; [lra|]. intros _. lra.
  - (* [x] is inside the cell *)
    destruct (Prim2SF (x - lo)) as [s|s| |s mz ez] eqn:Hz;
      try discriminate Sfin; [cbn [SF2R] in Sval; lra|].
    assert (s = false) as ->.
    { destruct s; [|reflexivity]. cbn [SF2R cond_Zopp] in Sval.
      assert (0 < IZR (Z.pos mz))%R by (apply IZR_lt; lia).
      pose proof (bpow_pos ez). rewrite opp_IZR in Sval. nra. }
    cbn [SF2R cond_Zopp] in Sval.
    pose proof (Prim2SF_valid (x - lo)) as Vz. rewrite Hz in Vz.
    destruct (quotient_by_step mz ez ed Vz Hed) as (Qfin & Qsign & Qval & Qk).
    { rewrite Sval, <- Fd. lra. }
    rewrite <- Hdiv in Qfin, Qsign, Qval, Qk.
    rewrite Sval, <- Fd in Qk.
    assert (HD : (0 < F2R d)%R) by (rewrite Fd; lra).
    destruct (Prim2SF ((x - lo) / d)) as [s|s| |s mq eq] eqn:Hq;
      try discriminate Qfin; cbn [SF_sign] in Qsign; subst s.
    + (* the quotient is zero *)
      assert (Hq0 : ((x - lo) / d)%float = 0%float).
      { rewrite <- (SF2Prim_Prim2SF (_ / _)), Hq. reflexivity. }
      exists 0. rewrite Hq0. split; [lia|]. split; [reflexivity|].
      split; [lra|]. intros _.
      destruct (Rlt_le_dec (F2R x - F2R lo) ((0 + 1) * F2R d)) as [H|H];
        [exact H|exfalso].
      assert (H' : (1 * F2R d <= F2R x - F2R lo)%R) by lra.
      apply (proj2 (Qk 1 ltac:(lia))) in H'.
      cbn [SF2R] in H'. lra.
    + destruct (Math_floor_spec ((x - lo) / d)%float mq eq Hq)
        as (n & Hfloor & Hn0 & Hn).
      { unfold F2R. rewrite Hq. rewrite (bpow_IZR 52) by lia.
        change (IZR (2 ^ 52)) with 4503599627370496%R. lra. }
      unfold F2R in Hn. rewrite Hq in Hn.
      assert (Hn4 : n <= 4).
      { assert (n < 5); [|lia]. apply lt_IZR. lra. }
      exists n. split; [lia|]. split; [exact Hfloor|]. split.
      * destruct (Z.eq_dec n 0) as [->|Hn1]; [lra|].
        apply (proj1 (Qk n ltac:(lia))). lra.
      * intros Hlt4.
        destruct (Rlt_le_dec (F2R x - F2R lo) ((IZR n + 1) * F2R d)) as [H|H];
          [exact H|exfalso].
        rewrite <- (plus_IZR n 1) in H.
        apply (proj2 (Qk (n + 1) ltac:(lia))) in H.
        rewrite plus_IZR in H. lra.
Qed.

(** ** The cells of the grid *)

Lemma of_units_spec (u : Z) :
  0 < u < 2 ^ 53 ->
  exists m e, Prim2SF (of_units u) = S754_finite false m e /\
              F2R (of_units u) = (IZR u * bpow (-20))%R.
Proof.
  intros Hu. unfold of_units.
  assert (Hint : Prim2SF (of_uint63 (of_Z u))
                 = binary_normalize prec emax u 0 false).
  { rewrite of_uint63_spec, of_Z_spec. f_equal. apply Z.mod_small.
    change wB with (2 ^ 63). split; [lia|].
    assert (2 ^ 53 < 2 ^ 63) by (apply Z.pow_lt_mono_r; lia). lia. }
  destruct (binary_normalize_exact u 0 false u 0) as [Nfin Nval];
    [reflexivity|lia|lia|].
  rewrite <- Hint in Nfin, Nval.
  assert (Hb0 : bpow 0 = 1%R) by reflexivity. rewrite Hb0, Rmult_1_r in Nval.
  assert (HuR : (0 < IZR u)%R) by (apply IZR_lt; lia).
  destruct (Prim2SF (of_uint63 (of_Z u))) as [s|s| |s mu eu] eqn:Hn;
    try discriminate Nfin; [cbn [SF2R] in Nval; lra|].
  assert (s = false) as ->.
  { destruct s; [|reflexivity]. cbn [SF2R cond_Zopp] in Nval.
    rewrite opp_IZR in Nval.
    assert (0 < IZR (Z.pos mu))%R by (apply IZR_lt; lia).
    pose proof (bpow_pos eu). nra. }
  cbn [SF2R cond_Zopp] in Nval.
  pose proof (FloatAxioms.div_spec (of_uint63 (of_Z u)) 1048576) as Hdiv.
  rewrite Hn in Hdiv.
  change (Prim2SF 1048576) with (S754_finite false 4503599627370496 (-32)) in Hdiv.
  destruct (SFdiv_spec false false mu 4503599627370496 eu (-32))
    as (e1 & m1 & m2 & He1 & Hm1 & HK & Hcase & Hres).
  rewrite <- Hdiv in Hres. cbn [xorb cond_Zopp] in Hres.
  assert (Hden : (IZR (Z.pos 4503599627370496) * bpow (-32) = 1048576)%R).
  { rewrite (bpow_neg_num 32).
    change (IZR (2 ^ Z.pos 32)) with 4294967296%R. lra. }
  rewrite Nval, Hden in HK, Hcase.
  set (t := (IZR u / 1048576)%R) in *.
  assert (Ht : t = (IZR u * bpow (-20))%R).
  { unfold t. rewrite (bpow_neg_num 20).
    change (IZR (2 ^ Z.pos 20)) with 1048576%R. reflexivity. }
  assert (He20 : e1 <= -20).
  { apply (HK 33). unfold t. rewrite (bpow_IZR 33) by lia.
    assert (IZR u < IZR (2 ^ 53))%R by (apply IZR_lt; lia).
    change (IZR (2 ^ 53)) with 9007199254740992%R in H.
    change (IZR (2 ^ 33)) with 8589934592%R. lra. }
  pose proof (bpow_pos e1) as Hh.
  assert (Hgrid : t = (IZR (u * 2 ^ (-20 - e1)) * bpow e1)%R).
  { rewrite Ht, mult_IZR, <- bpow_IZR, Rmult_assoc, <- bpow_add by lia.
    f_equal. f_equal. lia. }
  assert (Hm2 : m2 = u * 2 ^ (-20 - e1)).
  { rewrite Hgrid in Hcase. set (T := u * 2 ^ (-20 - e1)) in *.
    assert (HT : forall a b : Z, (IZR a * bpow e1 <= IZR b * bpow e1)%R ->
                                 a <= b).
    { intros a b Hab. apply le_IZR. nra. }
    destruct Hcase as [[-> [Hlo Hhi]]|[-> [Hlo Hhi]]].
    - apply HT in Hlo. assert (T < m1 + 1); [|lia].
      apply lt_IZR. rewrite plus_IZR. nra.
    - assert (m1 < T).
      { apply lt_IZR. nra. }
      assert (T < m1 + 1); [|lia].
      apply lt_IZR. rewrite plus_IZR. nra. }
  destruct Hres as [[_ Hbig]|(Dfin & Dsign & Dval)]; [lia|].
  rewrite Hm2, <- Hgrid in Dval.
  assert (HtR : (0 < t)%R) by (rewrite Ht; pose proof (bpow_pos (-20)); nra).
  destruct (Prim2SF (of_uint63 (of_Z u) / 1048576)) as [s|s| |s m e] eqn:Hq;
    try discriminate Dfin; [cbn [SF2R] in Dval; lra|].
  cbn [SF_sign] in Dsign. subst s.
  exists m, e. split; [reflexivity|].
  unfold F2R. rewrite Hq, Dval. exact Ht.
Qed.

Lemma grid_step_spec (k : nat) :
  (k < 10)%nat ->
  Prim2SF (grid_step k)
  = S754_finite false 5066549580791808 (-49 - 2 * Z.of_nat k).
Proof.
  intros Hk.
  do 10 (destruct k as [|k]; [vm_compute; reflexivity|]). lia.
Qed.

Lemma cell_width_quarter (k : nat) :
  (k <= 10)%nat -> cell_width k = 4 * cell_width (S k).
Proof.
  intros Hk. unfold cell_width.
  replace (11 - Z.of_nat k) with (1 + (11 - Z.of_nat (S k))) by lia.
  rewrite Z.pow_add_r by lia. lia.
Qed.

Lemma cell_width_pos (k : nat) : (k <= 11)%nat -> 0 < cell_width k.
Proof.
  intros Hk. unfold cell_width.
  assert (0 < 4 ^ (11 - Z.of_nat k)) by (apply Z.pow_pos_nonneg; lia). lia.
Qed.

Lemma grid_step_value (k : nat) :
  (k < 10)%nat ->
  F2R (grid_step k) = (IZR (cell_width (S k)) * bpow (-20))%R.
Proof.
  intros Hk. rewrite (F2R_finite _ _ _ _ (grid_step_spec k Hk)).
  cbn [cond_Zopp]. rewrite step_value.
  replace (-49 - 2 * Z.of_nat k + 49) with (2 * (10 - Z.of_nat k) + -20) by lia.
  rewrite bpow_add, bpow_IZR by lia. unfold cell_width.
  rewrite mult_IZR, Z.pow_mul_r by lia.
  replace (11 - Z.of_nat (S k)) with (10 - Z.of_nat k) by lia.
  change (2 ^ 2) with 4. lra.
Qed.

Lemma descend_app (lo hi : float) (p : list nat) (i : nat) :
  descend lo hi (p ++ [i])
  = axis_narrow (fst (descend lo hi p)) (snd (descend lo hi p)) (number i).
Proof.
  revert lo hi. induction p as [|j p IH]; intros lo hi;
    cbn [descend app fst snd].
  - destruct (axis_narrow lo hi (number i)); reflexivity.
  - apply IH.
Qed.

Lemma descend_units_app (u : Z) (k : nat) (p : list nat) (i : nat) :
  descend_units u k (p ++ [i])
  = descend_units u k p
    + Z.of_nat i * cell_width (S (k + length p)).
Proof.
  revert u k. induction p as [|j p IH]; intros u k; cbn [descend_units app length].
  - rewrite Nat.add_0_r. reflexivity.
  - rewrite IH. do 3 f_equal. lia.
Qed.

Lemma descend_units_bounds (p : list nat) :
  forall (u : Z) (k : nat),
    Forall (fun i => (i < 4)%nat) p -> (k + length p <= 11)%nat ->
    u <= descend_units u k p /\
    descend_units u k p + cell_width (k + length p) <= u + cell_width k.
Proof.
  induction p as [|i p IH]; intros u k Hp Hk; cbn [descend_units length] in *.
  - rewrite Nat.add_0_r. lia.
  - apply Forall_cons in Hp as [Hi Hp].
    destruct (IH (u + Z.of_nat i * cell_width (S k)) (S k) Hp ltac:(lia))
      as [H1 H2].
    replace (S k + length p)%nat with (k + S (length p))%nat in H2 by lia.
    pose proof (cell_width_quarter k ltac:(lia)) as Hq.
    pose proof (cell_width_pos (S k) ltac:(lia)) as Hpos.
    split; nia.
Qed.

Lemma tree_ok_descend (a : axis_kind) (p : list nat) :
  forall (depth k : nat) (lo hi : float) (u : Z),
    tree_ok a depth k lo hi u = true ->
    (length p <= depth)%nat -> Forall (fun i => (i < 4)%nat) p ->
    tree_ok a (depth - length p) (k + length p)
      (fst (descend lo hi p)) (snd (descend lo hi p))
      (descend_units u k p) = true.
Proof.
  induction p as [|i p IH]; intros depth k lo hi u Htree Hlen Hp;
    cbn [descend descend_units length] in *.
  - rewrite Nat.sub_0_r, Nat.add_0_r. exact Htree.
  - destruct depth as [|depth]; [lia|].
    apply Forall_cons in Hp as [Hi Hp].
    cbn [tree_ok] in Htree. apply andb_prop in Htree as [_ Hall].
    rewrite forallb_forall in Hall.
    specialize (Hall i ltac:(apply in_seq; lia)).
    apply andb_prop in Hall as [_ Hsub].
    replace (k + S (length p))%nat with (S k + length p)%nat by lia.
    apply (IH depth (S k)); [exact Hsub|cbn; lia|exact Hp].
Qed.

Section Axis.

Variable a : axis_kind.
Hypothesis Htree :
  tree_ok a 10 0 (axis_lo a) (axis_hi a) (axis_units a) = true.
Hypothesis Hunits :
  2 ^ 21 <= axis_units a /\ axis_units a + cell_width 0 < 2 ^ 27.

Lemma cell_tree (p : list nat) :
  valid_path p -> (length p <= 10)%nat ->
  tree_ok a (10 - length p) (length p)
    (fst (cell_of a p)) (snd (cell_of a p)) (units_of a p) = true.
Proof.
  intros Hp Hlen.
  exact (tree_ok_descend a p 10 0 _ _ _ Htree Hlen Hp).
Qed.

Lemma units_range (p : list nat) :
  valid_path p -> (length p <= 11)%nat ->
  2 ^ 21 <= units_of a p /\
  units_of a p + cell_width (length p) < 2 ^ 27.
Proof.
  intros Hp Hlen.
  destruct (descend_units_bounds p (axis_units a) 0 Hp ltac:(cbn; lia))
    as [H1 H2].
  cbn [Nat.add] in H2. unfold units_of. lia.
Qed.

Lemma units_of_app (p : list nat) (i : nat) :
  units_of a (p ++ [i])
  = units_of a p + Z.of_nat i * cell_width (S (length p)).
Proof. unfold units_of. rewrite descend_units_app. reflexivity. Qed.

Lemma cell_of_app (p : list nat) (i : nat) :
  cell_of a (p ++ [i])
  = axis_narrow (fst (cell_of a p)) (snd (cell_of a p)) (number i).
Proof. apply descend_app. Qed.

(** The cell of a path of less than ten quarters. *)
Lemma cell_facts (p : list nat) :
  valid_path p -> (length p < 10)%nat ->
  let lo := fst (cell_of a p) in
  let hi := snd (cell_of a p) in
  (exists ml el, Prim2SF lo = S754_finite false ml el) /\
  F2R lo = (IZR (units_of a p) * bpow (-20))%R /\
  F2R hi = (IZR (units_of a p + cell_width (length p)) * bpow (-20))%R /\
  ((hi - lo) / GRID_SIZE)%float = grid_step (length p) /\
  ((hi - lo) * 0.25)%float = grid_step (length p) /\
  ((axis_lo a <=? lo)%float = true /\ (lo <=? hi)%float = true /\
   (hi <=? axis_hi a)%float = true) /\
  forall i, (i < 4)%nat -> quarter_ok a lo hi i = true.
Proof.
  intros Hp Hlen lo hi.
  pose proof (cell_tree p Hp ltac:(lia)) as Ht. fold lo hi in Ht.
  destruct (10 - length p)%nat as [|d] eqn:Hd; [lia|].
  cbn [tree_ok] in Ht. apply andb_prop in Ht as [Hcell Hall].
  unfold cell_ok in Hcell.
  repeat (apply andb_prop in Hcell as [Hcell ?]).
  repeat match goal with
         | H : Leibniz.eqb _ _ = true |- _ => apply Leibniz.eqb_spec in H
         end.
  destruct (units_range p Hp ltac:(lia)) as [Hu1 Hu2].
  pose proof (cell_width_pos (length p) ltac:(lia)) as Hw.
  assert (Hp53 : 2 ^ 27 < 2 ^ 53) by (apply Z.pow_lt_mono_r; lia).
  destruct (of_units_spec (units_of a p)) as (ml & el & Hlo & Flo); [lia|].
  destruct (of_units_spec (units_of a p + cell_width (length p)))
    as (mh & eh & Hhi & Fhi); [lia|].
  rewrite <- Hcell in Hlo, Flo.
  match goal with H : hi = of_units _ |- _ => rewrite <- H in Hhi, Fhi end.
  split; [exists ml, el; exact Hlo|]. split; [exact Flo|]. split; [exact Fhi|].
  split; [assumption|]. split; [assumption|]. split; [repeat split; assumption|].
  intros i Hi. rewrite forallb_forall in Hall.
  specialize (Hall i ltac:(apply in_seq; lia)).
  apply andb_prop in Hall as [Hq _]. exact Hq.
Qed.

(** One level: the floored quotient is the number of whole steps from the
    start of the cell, and the quarter it selects contains [x]. *)
Lemma quarter_step (p : list nat) (x : float) (mx : positive) (ex : Z) :
  valid_path p -> (length p < 10)%nat ->
  Prim2SF x = S754_finite false mx ex ->
  contains a p x ->
  exists n,
    0 <= n <= 4 /\
    axis_floor x (fst (cell_of a p)) (snd (cell_of a p)) = Z2F n /\
    contains a (p ++ [Z.to_nat (Z.min 3 n)]) x.
Proof.
  intros Hp Hlen Hx Hin.
  destruct (cell_facts p Hp Hlen)
    as ((ml & el & Hlo) & Flo & Fhi & Hd & _ & _ & _).
  set (lo := fst (cell_of a p)) in *. set (hi := snd (cell_of a p)) in *.
  set (u := units_of a p) in *. set (k := length p) in *.
  unfold contains in Hin. fold u k in Hin.
  pose proof (grid_step_spec k Hlen) as Hstep.
  pose proof (grid_step_value k Hlen) as Fstep.
  rewrite <- Hd in Hstep, Fstep.
  destruct (units_range p Hp ltac:(lia)) as [Hu1 Hu2]. fold u k in Hu1, Hu2.
  pose proof (cell_width_quarter k ltac:(lia)) as Hq.
  pose proof (cell_width_pos (S k) ltac:(lia)) as Hw.
  pose proof (bpow_pos (-20)) as Hb.
  assert (HuR : (IZR (2 ^ 21) <= IZR u)%R) by (apply IZR_le; exact Hu1).
  assert (HhR : (IZR (u + cell_width k) < IZR (2 ^ 27))%R)
    by (apply IZR_lt; exact Hu2).
  assert (Hb20 : bpow (-20) = (/ 1048576)%R) by apply (bpow_neg_num 20).
  change (IZR (2 ^ 21)) with 2097152%R in HuR.
  change (IZR (2 ^ 27)) with 134217728%R in HhR.
  destruct (cell_index x lo ((hi - lo) / GRID_SIZE)%float mx ml ex el
              (-49 - 2 * Z.of_nat k) u Hx Hlo Hstep)
    as (n & Hn & Hfloor & Hge & Hlt).
  - lia.
  - exact Flo.
  - rewrite Flo, Fstep. rewrite Hq, plus_IZR, mult_IZR in Hin. lra.
  - rewrite Flo. nra.
  - rewrite Hb20 in *. lra.
  - exists n. split; [exact Hn|]. split; [exact Hfloor|].
    unfold contains. rewrite units_of_app, length_app. cbn [length].
    fold u k. replace (k + 1)%nat with (S k) by lia.
    rewrite Z2Nat.id by lia.
    rewrite Flo, Fstep in Hge, Hlt.
    rewrite Hq, plus_IZR, mult_IZR in Hin.
    rewrite !plus_IZR, !mult_IZR. rewrite Hb20 in *.
    assert (HwR : (0 < IZR (cell_width (S k)))%R) by (apply IZR_lt; exact Hw).
    assert (Hn' : (n < 4 /\ Z.min 3 n = n) \/ (n = 4 /\ Z.min 3 n = 3)) by lia.
    destruct Hn' as [[Hn4 ->]|[-> ->]].
    + specialize (Hlt Hn4). lra.
    + lra.
Qed.

End Axis.

(** ** Exact sums, products and quotients *)

Lemma round_cases_exact (t : R) (m1 m2 e1 K : Z) :
  t = (IZR K * bpow e1)%R ->
  ((m2 = m1 /\ (IZR m1 * bpow e1 <= t <= (IZR m1 + 1 / 2) * bpow e1)%R) \/
   (m2 = m1 + 1 /\
    ((IZR m1 + 1 / 2) * bpow e1 <= t < (IZR m1 + 1) * bpow e1)%R)) ->
  m2 = K.
Proof.
  intros -> Hcase. pose proof (bpow_pos e1) as Hpos.
  destruct Hcase as [[-> [Hlo Hhi]]|[-> [Hlo Hhi]]].
  - assert (m1 <= K) by (apply le_IZR; nra).
    assert (K < m1 + 1) by (apply lt_IZR; rewrite plus_IZR; nra). lia.
  - exfalso. assert (m1 < K) by (apply lt_IZR; nra).
    assert (K < m1 + 1) by (apply lt_IZR; rewrite plus_IZR; nra). lia.
Qed.

Lemma grid_multiple (N g e1 : Z) :
  e1 <= g -> (IZR N * bpow g = IZR (N * 2 ^ (g - e1)) * bpow e1)%R.
Proof.
  intros H. rewrite mult_IZR, <- bpow_IZR, Rmult_assoc, <- bpow_add by lia.
  f_equal. f_equal. lia.
Qed.

(** A number that fits the format is rounded without change. *)
Lemma binary_round_aux_exact (s : bool) (m e N g : Z) :
  0 < m -> (IZR m * bpow e = IZR N * bpow g)%R ->
  0 < N < 2 ^ 53 -> -1074 <= g <= 900 ->
  let z := binary_round_aux prec emax s m e loc_Exact in
  SF_finite z = true /\ SF_sign z = s /\
  SF2R z = (IZR (cond_Zopp s m) * bpow e)%R.
Proof.
  intros Hm Heq HN Hg z.
  assert (Hloc : located_loc (IZR m * bpow e) m e loc_Exact).
  { unfold located_loc, located_record. simpl. lra. }
  destruct (binary_round_aux_spec _ s m e loc_Exact ltac:(lia) Hloc)
    as (m2 & Hcase & Hres).
  fold z in Hres.
  remember (Zdigits2 m + e) as D eqn:HD.
  remember (Z.max e (fexp D)) as e1 eqn:He1.
  assert (HDg : D <= 53 + g).
  { rewrite HD. apply (bpow_digits m e); [lia|]. rewrite Heq.
    replace (53 + g) with (g + 53) by lia. rewrite bpow_add.
    rewrite (bpow_IZR 53) by lia.
    assert (IZR N < IZR (2 ^ 53))%R by (apply IZR_lt; lia).
    pose proof (bpow_pos g). nra. }
  assert (Hf : fexp D <= g) by (rewrite fexp_eq; lia).
  assert (HK : exists K, (IZR m * bpow e = IZR K * bpow e1)%R /\ e1 < 970).
  { destruct (Z_le_gt_dec e1 g) as [Hle|Hgt].
    - exists (N * 2 ^ (g - e1)). split; [|lia].
      rewrite Heq. apply grid_multiple. exact Hle.
    - assert (e1 = e) as -> by lia. exists m. split; [reflexivity|].
      symmetry in Heq. apply IZR_bpow_eq in Heq; [|lia].
      destruct (Z_lt_ge_dec e 970) as [H|H]; [exact H|exfalso].
      assert (2 ^ 53 <= 2 ^ (e - g)) by (apply Z.pow_le_mono_r; lia).
      nia. }
  destruct HK as (K & HK & Hsmall).
  pose proof (round_cases_exact _ _ _ _ _ HK Hcase) as ->.
  destruct Hres as [[_ Hbig]|(Hfin & Hsign & Hval)]; [lia|].
  split; [exact Hfin|]. split; [exact Hsign|]. rewrite Hval.
  destruct s; cbn [cond_Zopp]; rewrite ?opp_IZR; lra.
Qed.

Lemma SFadd_exact (mx my : positive) (ex ey : Z) (N g : Z) :
  let x := S754_finite false mx ex in
  let y := S754_finite false my ey in
  (SF2R x + SF2R y = IZR N * bpow g)%R ->
  Z.abs N < 2 ^ 53 -> -1074 <= g <= 900 ->
  SF_finite (SF64add x y) = true /\
  SF2R (SF64add x y) = (SF2R x + SF2R y)%R.
Proof.
  intros x y Heq HN Hg.
  set (ez := Z.min ex ey).
  pose proof (shl_align_spec mx ex ez) as [_ Hx].
  pose proof (shl_align_spec my ey ez) as [_ Hy].
  replace (Z.min ex ez) with ez in Hx by lia.
  replace (Z.min ey ez) with ez in Hy by lia.
  set (M := Z.pos (fst (shl_align mx ex ez))
            + Z.pos (fst (shl_align my ey ez))).
  assert (HM : (IZR M * bpow ez = SF2R x + SF2R y)%R).
  { unfold M, x, y, SF2R. rewrite plus_IZR, Hx, Hy.
    assert (Hbx : bpow ex = (IZR (2 ^ (ex - ez)) * bpow ez)%R).
    { rewrite <- bpow_IZR, <- bpow_add by lia. f_equal. lia. }
    assert (Hby : bpow ey = (IZR (2 ^ (ey - ez)) * bpow ez)%R).
    { rewrite <- bpow_IZR, <- bpow_add by lia. f_equal. lia. }
    rewrite Hbx, Hby. cbn [cond_Zopp]. rewrite !mult_IZR. ring. }
  change (SF64add x y) with (binary_normalize prec emax M ez false).
  rewrite <- HM in Heq |- *.
  exact (binary_normalize_exact M ez false N g Heq HN Hg).
Qed.

Lemma SFmul_exact (mx my : positive) (ex ey : Z) (N g : Z) :
  let x := S754_finite false mx ex in
  let y := S754_finite false my ey in
  (SF2R x * SF2R y = IZR N * bpow g)%R ->
  0 < N < 2 ^ 53 -> -1074 <= g <= 900 ->
  SF_finite (SF64mul x y) = true /\ SF_sign (SF64mul x y) = false /\
  SF2R (SF64mul x y) = (SF2R x * SF2R y)%R.
Proof.
  intros x y Heq HN Hg.
  change (SF64mul x y)
    with (binary_round_aux prec emax false (Z.pos (mx * my)) (ex + ey)
            loc_Exact).
  assert (HM : (IZR (Z.pos (mx * my)) * bpow (ex + ey)
                = SF2R x * SF2R y)%R).
  { unfold x, y, SF2R. cbn [cond_Zopp].
    rewrite Pos2Z.inj_mul, mult_IZR, bpow_add. ring. }
  rewrite <- HM in Heq |- *.
  exact (binary_round_aux_exact false _ _ N g (Pos2Z.is_pos _) Heq HN Hg).
Qed.

Lemma SFdiv_exact (mx my : positive) (ex ey : Z) (N g : Z) :
  let x := S754_finite false mx ex in
  let y := S754_finite false my ey in
  (SF2R x / SF2R y = IZR N * bpow g)%R ->
  0 < N < 2 ^ 53 -> -1074 <= g <= 900 ->
  SF_finite (SF64div x y) = true /\ SF_sign (SF64div x y) = false /\
  SF2R (SF64div x y) = (SF2R x / SF2R y)%R.
Proof.
  intros x y Heq HN Hg.
  destruct (SFdiv_spec false false mx my ex ey)
    as (e1 & m1 & m2 & He1 & Hm1 & HK & Hcase & Hres).
  fold x y in Hres. cbn [xorb] in Hres.
  change (IZR (Z.pos mx) * bpow ex / (IZR (Z.pos my) * bpow ey))%R
    with (SF2R x / SF2R y)%R in HK, Hcase.
  rewrite Heq in HK, Hcase |- *.
  assert (He1g : e1 <= g).
  { assert (Hd : Zdigits2 N + g <= 53 + g).
    { assert (Zdigits2 N <= 53) by (apply Zdigits2_le; lia). lia. }
    pose proof (Zdigits2_bounds N ltac:(lia)) as [_ Hhi].
    pose proof (Zdigits2_nonneg N) as Hnn.
    specialize (HK (Zdigits2 N + g)). rewrite fexp_eq in HK.
    assert (Ht : (IZR N * bpow g < bpow (Zdigits2 N + g))%R).
    { rewrite bpow_add, (bpow_IZR (Zdigits2 N)) by lia.
      apply IZR_lt in Hhi. pose proof (bpow_pos g). nra. }
    specialize (HK Ht). lia. }
  pose proof (round_cases_exact _ _ _ _ _ (grid_multiple N g e1 He1g) Hcase)
    as ->.
  destruct Hres as [[_ Hbig]|(Hfin & Hsign & Hval)]; [lia|].
  split; [exact Hfin|]. split; [exact Hsign|].
  rewrite Hval. cbn [cond_Zopp]. symmetry. apply grid_multiple. exact He1g.
Qed.

(** ** Comparisons of positive numbers *)

Lemma ltb_false (x y : float) (mx my : positive) (ex ey : Z) :
  Prim2SF x = S754_finite false mx ex ->
  Prim2SF y = S754_finite false my ey ->
  (F2R y <= F2R x)%R -> (x <? y)%float = false.
Proof.
  intros Hx Hy Hle. rewrite FloatAxioms.ltb_spec.
  pose proof (Prim2SF_valid x) as Vx. pose proof (Prim2SF_valid y) as Vy.
  unfold F2R in Hle. rewrite Hx, Hy in *. cbn [SF2R cond_Zopp] in Hle.
  pose proof (SFcompare_pos mx my ex ey Vx Vy) as C. unfold SFltb.
  destruct (SFcompare (S754_finite false mx ex) (S754_finite false my ey))
    as [[]|]; try reflexivity. lra.
Qed.

Lemma leb_true (x y : float) (mx my : positive) (ex ey : Z) :
  Prim2SF x = S754_finite false mx ex ->
  Prim2SF y = S754_finite false my ey ->
  (F2R x <= F2R y)%R -> (x <=? y)%float = true.
Proof.
  intros Hx Hy Hle. rewrite FloatAxioms.leb_spec.
  pose proof (Prim2SF_valid x) as Vx. pose proof (Prim2SF_valid y) as Vy.
  unfold F2R in Hle. rewrite Hx, Hy in *. cbn [SF2R cond_Zopp] in Hle.
  pose proof (SFcompare_pos mx my ex ey Vx Vy) as C. unfold SFleb.
  destruct (SFcompare (S754_finite false mx ex) (S754_finite false my ey))
    as [[]|]; try reflexivity; try contradiction. lra.
Qed.

Lemma leb_false (x y : float) (mx my : positive) (ex ey : Z) :
  Prim2SF x = S754_finite false mx ex ->
  Prim2SF y = S754_finite false my ey ->
  (F2R y < F2R x)%R -> (x <=? y)%float = false.
Proof.
  intros Hx Hy Hlt. rewrite FloatAxioms.leb_spec.
  pose proof (Prim2SF_valid x) as Vx. pose proof (Prim2SF_valid y) as Vy.
  unfold F2R in Hlt. rewrite Hx, Hy in *. cbn [SF2R cond_Zopp] in Hlt.
  pose proof (SFcompare_pos mx my ex ey Vx Vy) as C. unfold SFleb.
  destruct (SFcompare (S754_finite false mx ex) (S754_finite false my ey))
    as [[]|]; try reflexivity; lra.
Qed.


(** ** Numbers of units

    The bounds of the cells, the steps and the small integers of the
    program are whole numbers of units of [2^-20], and the operations on
    them are exact. *)

Lemma valid_unique (m1 m2 : positive) (e1 e2 : Z) :
  valid_binary (S754_finite false m1 e1) = true ->
  valid_binary (S754_finite false m2 e2) = true ->
  (IZR (Z.pos m1) * bpow e1 = IZR (Z.pos m2) * bpow e2)%R ->
  m1 = m2 /\ e1 = e2.
Proof.
  intros V1 V2 H.
  apply valid_finite in V1 as [F1 _]. apply valid_finite in V2 as [F2 _].
  assert (Hgen : forall (ma mb : positive) (ea eb : Z),
            fexp (Zdigits2 (Z.pos ma) + ea) = ea ->
            fexp (Zdigits2 (Z.pos mb) + eb) = eb ->
            (IZR (Z.pos ma) * bpow ea = IZR (Z.pos mb) * bpow eb)%R ->
            ea <= eb -> ma = mb /\ ea = eb).
  { intros ma mb ea eb Fa Fb Heq Hle.
    apply IZR_bpow_eq in Heq; [|exact Hle].
    assert (Hd : Zdigits2 (Z.pos ma) = Zdigits2 (Z.pos mb) + (eb - ea))
      by (rewrite Heq; apply Zdigits2_mul_pow2; lia).
    assert (He : ea = eb).
    { rewrite <- Fa, <- Fb. f_equal. lia. }
    subst eb. rewrite Z.sub_diag, Z.pow_0_r, Z.mul_1_r in Heq.
    split; [congruence|reflexivity]. }
  destruct (Z_le_gt_dec e1 e2) as [Hle|Hgt].
  - exact (Hgen m1 m2 e1 e2 F1 F2 H Hle).
  - destruct (Hgen m2 m1 e2 e1 F2 F1 (eq_sym H) ltac:(lia)) as [-> ->].
    split; reflexivity.
Qed.

Lemma units_inj (x y : float) (n : Z) : units x n -> units y n -> x = y.
Proof.
  intros [(mx & ex & Hx) Fx] [(my & ey & Hy) Fy].
  pose proof (Prim2SF_valid x) as Vx. pose proof (Prim2SF_valid y) as Vy.
  rewrite Hx in Vx. rewrite Hy in Vy.
  rewrite (F2R_finite _ _ _ _ Hx) in Fx. rewrite (F2R_finite _ _ _ _ Hy) in Fy.
  cbn [cond_Zopp] in Fx, Fy.
  destruct (valid_unique mx my ex ey Vx Vy ltac:(congruence)) as [-> ->].
  rewrite <- (SF2Prim_Prim2SF x), <- (SF2Prim_Prim2SF y). congruence.
Qed.

Lemma units_of_units (n : Z) : 0 < n < 2 ^ 53 -> units (of_units n) n.
Proof.
  intros Hn. destruct (of_units_spec n Hn) as (m & e & H & F).
  split; [exists m, e; exact H|exact F].
Qed.

Lemma units_eq (x : float) (n : Z) :
  units x n -> n < 2 ^ 53 -> x = of_units n.
Proof.
  intros Hx Hn. apply (units_inj _ _ n Hx). apply units_of_units.
  split; [|exact Hn].
  destruct Hx as [(m & e & Hx) Fx].
  rewrite (F2R_finite _ _ _ _ Hx) in Fx. cbn [cond_Zopp] in Fx.
  apply lt_IZR. pose proof (bpow_pos e). pose proof (bpow_pos (-20)).
  assert (0 < IZR (Z.pos m))%R by (apply IZR_lt; lia). nra.
Qed.

Lemma units_pos (x : float) (n : Z) : units x n -> 0 < n.
Proof.
  intros [(m & e & Hx) Fx].
  rewrite (F2R_finite _ _ _ _ Hx) in Fx. cbn [cond_Zopp] in Fx.
  apply lt_IZR. pose proof (bpow_pos e). pose proof (bpow_pos (-20)).
  assert (0 < IZR (Z.pos m))%R by (apply IZR_lt; lia). nra.
Qed.

Lemma finite_positive (z : float) (n : Z) :
  SF_finite (Prim2SF z) = true -> 0 < n ->
  SF2R (Prim2SF z) = (IZR n * bpow (-20))%R -> units z n.
Proof.
  intros Hfin Hn Hval. split; [|exact Hval].
  assert (Hpos : (0 < IZR n * bpow (-20))%R).
  { pose proof (bpow_pos (-20)). assert (0 < IZR n)%R by (apply IZR_lt; lia).
    nra. }
  destruct (Prim2SF z) as [s|s| |s m e]; try discriminate Hfin.
  - cbn [SF2R] in Hval. lra.
  - destruct s; [|eauto]. cbn [SF2R cond_Zopp] in Hval.
    rewrite opp_IZR in Hval. pose proof (bpow_pos e).
    assert (0 < IZR (Z.pos m))%R by (apply IZR_lt; lia). nra.
Qed.

Lemma add_units (x y : float) (a b : Z) :
  units x a -> units y b -> a + b < 2 ^ 53 -> units (x + y)%float (a + b).
Proof.
  intros Hx Hy Hlt.
  pose proof (units_pos _ _ Hx) as Ha. pose proof (units_pos _ _ Hy) as Hb.
  destruct Hx as [(mx & ex & Hx) Fx]. destruct Hy as [(my & ey & Hy) Fy].
  unfold F2R in Fx, Fy. rewrite Hx in Fx. rewrite Hy in Fy.
  destruct (SFadd_exact mx my ex ey (a + b) (-20)) as [Hfin Hval].
  - cbv zeta. rewrite Fx, Fy, plus_IZR. ring.
  - lia.
  - lia.
  - cbv zeta in Hfin, Hval. rewrite <- Hx, <- Hy in Hfin, Hval at 1.
    rewrite <- FloatAxioms.add_spec in Hfin, Hval.
    apply finite_positive; [exact Hfin|lia|].
    rewrite Hval, Fx, Fy, plus_IZR. ring.
Qed.

Lemma sub_units (x y : float) (a b : Z) :
  units x a -> units y b -> b < a -> a < 2 ^ 53 ->
  units (x - y)%float (a - b).
Proof.
  intros Hx Hy Hlt Ha53.
  pose proof (units_pos _ _ Hy) as Hb.
  destruct Hx as [(mx & ex & Hx) Fx]. destruct Hy as [(my & ey & Hy) Fy].
  unfold F2R in Fx, Fy. rewrite Hx in Fx. rewrite Hy in Fy.
  destruct (SFsub_exact false false mx my ex ey (a - b) (-20))
    as (Hfin & Hval & _).
  - cbv zeta. rewrite Fx, Fy, minus_IZR. ring.
  - lia.
  - lia.
  - cbv zeta in Hfin, Hval. rewrite <- Hx, <- Hy in Hfin, Hval at 1.
    rewrite <- FloatAxioms.sub_spec in Hfin, Hval.
    apply finite_positive; [exact Hfin|lia|].
    rewrite Hval, Fx, Fy, minus_IZR. ring.
Qed.

Lemma bpow_20_20 : (bpow (-20) * IZR (2 ^ 20) = 1)%R.
Proof.
  rewrite <- (bpow_IZR 20), <- bpow_add by lia. reflexivity.
Qed.

Lemma mul_units (x y : float) (a b c : Z) :
  units x a -> units y b -> a * b = c * 2 ^ 20 -> c < 2 ^ 53 ->
  units (x * y)%float c.
Proof.
  intros Hx Hy Hc Hlt.
  pose proof (units_pos _ _ Hx) as Ha. pose proof (units_pos _ _ Hy) as Hb.
  assert (Hc0 : 0 < c) by nia.
  destruct Hx as [(mx & ex & Hx) Fx]. destruct Hy as [(my & ey & Hy) Fy].
  unfold F2R in Fx, Fy. rewrite Hx in Fx. rewrite Hy in Fy.
  assert (Hprod : (IZR a * bpow (-20) * (IZR b * bpow (-20))
                   = IZR c * bpow (-20))%R).
  { apply (f_equal IZR) in Hc. rewrite !mult_IZR in Hc.
    pose proof bpow_20_20 as H20.
    transitivity (IZR a * IZR b * bpow (-20) * bpow (-20))%R; [ring|].
    rewrite Hc.
    transitivity (IZR c * bpow (-20) * (bpow (-20) * IZR (2 ^ 20)))%R;
      [ring|].
    rewrite H20. ring. }
  destruct (SFmul_exact mx my ex ey c (-20)) as (Hfin & _ & Hval).
  - cbv zeta. rewrite Fx, Fy. exact Hprod.
  - lia.
  - lia.
  - cbv zeta in Hfin, Hval. rewrite <- Hx, <- Hy in Hfin, Hval at 1.
    rewrite <- FloatAxioms.mul_spec in Hfin, Hval.
    apply finite_positive; [exact Hfin|lia|].
    rewrite Hval, Fx, Fy. exact Hprod.
Qed.

Lemma div_units (x y : float) (a b c : Z) :
  units x a -> units y b -> a * 2 ^ 20 = c * b -> c < 2 ^ 53 ->
  units (x / y)%float c.
Proof.
  intros Hx Hy Hc Hlt.
  pose proof (units_pos _ _ Hx) as Ha. pose proof (units_pos _ _ Hy) as Hb.
  assert (Hc0 : 0 < c) by nia.
  destruct Hx as [(mx & ex & Hx) Fx]. destruct Hy as [(my & ey & Hy) Fy].
  unfold F2R in Fx, Fy. rewrite Hx in Fx. rewrite Hy in Fy.
  assert (Hquot : (IZR a * bpow (-20) / (IZR b * bpow (-20))
                   = IZR c * bpow (-20))%R).
  { apply (f_equal IZR) in Hc. rewrite !mult_IZR in Hc.
    pose proof bpow_20_20 as H20. pose proof (bpow_pos (-20)) as Hp.
    assert (HbR : (0 < IZR b)%R) by (apply IZR_lt; lia).
    apply (Rmult_eq_reg_r (IZR b * bpow (-20))); [|nra].
    unfold Rdiv. rewrite Rmult_assoc, Rinv_l, Rmult_1_r by nra.
    transitivity (IZR a * (bpow (-20) * IZR (2 ^ 20)) * bpow (-20))%R.
    - rewrite H20. ring.
    - transitivity (IZR a * IZR (2 ^ 20) * bpow (-20) * bpow (-20))%R;
        [ring|]. rewrite Hc. ring. }
  destruct (SFdiv_exact mx my ex ey c (-20)) as (Hfin & _ & Hval).
  - cbv zeta. rewrite Fx, Fy. exact Hquot.
  - lia.
  - lia.
  - cbv zeta in Hfin, Hval. rewrite <- Hx, <- Hy in Hfin, Hval at 1.
    rewrite <- FloatAxioms.div_spec in Hfin, Hval.
    apply finite_positive; [exact Hfin|lia|].
    rewrite Hval, Fx, Fy. exact Hquot.
Qed.

Lemma leb_units (x y : float) (a b : Z) :
  units x a -> units y b -> a <= b -> (x <=? y)%float = true.
Proof.
  intros [(mx & ex & Hx) Fx] [(my & ey & Hy) Fy] Hle.
  apply (leb_true x y mx my ex ey Hx Hy). rewrite Fx, Fy.
  apply IZR_le in Hle. pose proof (bpow_pos (-20)). nra.
Qed.

(** Zero is the one number of the program that is not a number of units. *)
Lemma mul_zero (x : float) (a : Z) : units x a -> (x * 0)%float = 0%float.
Proof.
  intros [(m & e & Hx) _].
  rewrite <- (SF2Prim_Prim2SF (x * 0)), FloatAxioms.mul_spec, Hx.
  reflexivity.
Qed.

Lemma add_zero (x : float) (a : Z) : units x a -> (x + 0)%float = x.
Proof.
  intros [(m & e & Hx) _].
  rewrite <- (SF2Prim_Prim2SF (x + 0)), FloatAxioms.add_spec, Hx.
  change (SF64add (S754_finite false m e) (Prim2SF 0))
    with (S754_finite false m e).
  rewrite <- Hx. apply SF2Prim_Prim2SF.
Qed.

Lemma sub_zero (x : float) (a : Z) : units x a -> (x - 0)%float = x.
Proof.
  intros [(m & e & Hx) _].
  rewrite <- (SF2Prim_Prim2SF (x - 0)), FloatAxioms.sub_spec, Hx.
  change (SF64sub (S754_finite false m e) (Prim2SF 0))
    with (S754_finite false m e).
  rewrite <- Hx. apply SF2Prim_Prim2SF.
Qed.

(** ** Rounding the centre of a cell *)

Lemma micro_units_spec (u : Z) :
  2097152 * micro_units u <= 2 * (u * 1000000) + 1048576
  < 2097152 * (micro_units u + 1).
Proof.
  unfold micro_units. rewrite Z.shiftr_div_pow2 by lia.
  change (2 ^ 21) with 2097152.
  pose proof (Z.div_mod (2 * (u * 1000000) + 1048576) 2097152 ltac:(lia)).
  pose proof (Z.mod_pos_bound (2 * (u * 1000000) + 1048576) 2097152
                ltac:(lia)).
  lia.
Qed.


Lemma positive_finite (z : float) :
  SF_finite (Prim2SF z) = true -> (0 < SF2R (Prim2SF z))%R ->
  exists m e, Prim2SF z = S754_finite false m e.
Proof.
  intros Hfin Hpos.
  destruct (Prim2SF z) as [s|s| |s m e]; try discriminate Hfin.
  - cbn [SF2R] in Hpos. lra.
  - destruct s; [|eauto]. cbn [SF2R cond_Zopp] in Hpos.
    rewrite opp_IZR in Hpos. pose proof (bpow_pos e).
    assert (0 < IZR (Z.pos m))%R by (apply IZR_lt; lia). nra.
Qed.

(** The mantissa of a number of units. *)
Lemma units_mantissa (y : float) (M : Z) (m : positive) (e : Z) :
  units y M -> M < 2 ^ 53 -> Prim2SF y = S754_finite false m e ->
  e <= -20 /\ Z.pos m = M * 2 ^ (-20 - e).
Proof.
  intros Hy HM Hm. pose proof (units_pos _ _ Hy) as HM0.
  destruct Hy as [_ Fy]. rewrite (F2R_finite _ _ _ _ Hm) in Fy.
  cbn [cond_Zopp] in Fy.
  pose proof (Prim2SF_valid y) as V. rewrite Hm in V.
  apply valid_finite_digits in V as (He & Hm53 & Hn).
  assert (He20 : e <= -20).
  { destruct (Z_le_gt_dec e (-20)) as [H|H]; [exact H|exfalso].
    symmetry in Fy. apply IZR_bpow_eq in Fy; [|lia].
    assert (2 ^ 52 <= Z.pos m) by (apply Hn; lia).
    assert (2 ^ 1 <= 2 ^ (e - -20)) by (apply Z.pow_le_mono_r; lia).
    change (2 ^ 1) with 2 in *. change (2 ^ 53) with (2 * 2 ^ 52) in HM.
    nia. }
  split; [exact He20|]. apply IZR_bpow_eq; [exact He20|exact Fy].
Qed.

(** [Math.round] of a number of units that is at least 1. *)
Lemma Math_round_units (y : float) (M : Z) :
  units y M -> 2 ^ 20 <= M < 2 ^ 53 ->
  Math_round y = of_uint63 (Uint63.of_Z (Z.shiftr (2 * M + 2 ^ 20) 21)).
Proof.
  intros Hy HM. destruct (proj1 Hy) as (m & e & Hm).
  destruct (units_mantissa y M m e Hy ltac:(lia) Hm) as [He Hpos].
  unfold Math_round. rewrite Hm.
  destruct (0 <=? e) eqn:H0; [apply Z.leb_le in H0; lia|].
  cbn [cond_Zopp]. rewrite Hpos.
  set (k := -20 - e). assert (Hk : 0 <= k) by (unfold k; lia).
  replace (- e) with (k + 20) by (unfold k; lia).
  replace (k + 20 + 1) with (k + 21) by lia.
  rewrite !Z.shiftr_div_pow2, !Z.pow_add_r by lia.
  replace (2 * (M * 2 ^ k) + 2 ^ k * 2 ^ 20)
    with (2 ^ k * (2 * M + 2 ^ 20)) by ring.
  rewrite Z.div_mul_cancel_l by (apply Z.pow_nonzero; lia).
  assert (Hn : 1 <= (2 * M + 2 ^ 20) / 2 ^ 21).
  { apply Z.div_le_lower_bound; [reflexivity|].
    change (2 ^ 21) with 2097152. change (2 ^ 20) with 1048576 in *. lia. }
  destruct ((2 * M + 2 ^ 20) / 2 ^ 21) as [|n|n] eqn:Hq; try lia.
  reflexivity.
Qed.

(** An integer below [2^33], as a number of units. *)
Lemma units_of_int (n : Z) :
  0 < n < 2 ^ 33 -> units (of_uint63 (Uint63.of_Z n)) (n * 2 ^ 20).
Proof.
  intros Hn.
  assert (H33 : 2 ^ 33 < 2 ^ 53) by (apply Z.pow_lt_mono_r; lia).
  assert (Hint : Prim2SF (of_uint63 (of_Z n))
                 = binary_normalize prec emax n 0 false).
  { rewrite of_uint63_spec, of_Z_spec. f_equal. apply Z.mod_small.
    change wB with (2 ^ 63). split; [lia|].
    assert (2 ^ 53 < 2 ^ 63) by (apply Z.pow_lt_mono_r; lia). lia. }
  destruct (binary_normalize_exact n 0 false n 0) as [Nfin Nval];
    [reflexivity|lia|lia|].
  rewrite <- Hint in Nfin, Nval.
  apply finite_positive; [exact Nfin|lia|].
  rewrite Nval, mult_IZR. change (bpow 0) with 1%R.
  rewrite (Rmult_assoc (IZR n)), (Rmult_comm (IZR (2 ^ 20))), bpow_20_20.
  reflexivity.
Qed.

(** The quotient of an integer below [2^7] million by a million is
    rounded by at most [2^-47]. *)
Lemma micro_quotient (N : Z) :
  0 < N < 128000000 ->
  let r := (of_uint63 (Uint63.of_Z N) / 1000000)%float in
  (exists m e, Prim2SF r = S754_finite false m e) /\
  (IZR N / 1000000 - bpow (-47) <= F2R r
   <= IZR N / 1000000 + bpow (-47))%R.
Proof.
  intros HN r.
  assert (H33 : 128000000 < 2 ^ 33) by reflexivity.
  destruct (units_of_int N ltac:(lia)) as [(mx & ex & Hx) Fx].
  assert (Hy : units 1000000%float (1000000 * 2 ^ 20)).
  { change 1000000%float with (of_units (1000000 * 2 ^ 20)).
    apply units_of_units. split; reflexivity. }
  destruct Hy as [(my & ey & Hy) Fy].
  rewrite (F2R_finite _ _ _ _ Hx) in Fx. rewrite (F2R_finite _ _ _ _ Hy) in Fy.
  cbn [cond_Zopp] in Fx, Fy.
  assert (FxN : (IZR (Z.pos mx) * bpow ex = IZR N)%R).
  { rewrite Fx, mult_IZR, Rmult_assoc, (Rmult_comm (IZR (2 ^ 20))),
      bpow_20_20. ring. }
  assert (FyN : (IZR (Z.pos my) * bpow ey = 1000000)%R).
  { rewrite Fy, mult_IZR, Rmult_assoc, (Rmult_comm (IZR (2 ^ 20))),
      bpow_20_20. ring. }
  destruct (SFdiv_spec false false mx my ex ey)
    as (e1 & m1 & m2 & He1 & Hm1 & HK & Hcase & Hres).
  rewrite FxN, FyN in HK, Hcase. cbn [xorb cond_Zopp] in Hres.
  rewrite <- Hx, <- Hy, <- FloatAxioms.div_spec in Hres. fold r in Hres.
  assert (HNR : (1 <= IZR N <= 127999999)%R).
  { split; apply IZR_le; lia. }
  assert (He46 : e1 <= -46).
  { apply (HK 7). rewrite (bpow_IZR 7) by lia.
    change (IZR (2 ^ 7)) with 128%R. lra. }
  pose proof (bpow_pos e1) as Hp1.
  pose proof (bpow_le e1 (-46) He46) as Hle.
  assert (H46 : (bpow (-46) = 2 * bpow (-47))%R).
  { replace (-46) with (1 + -47) by lia.
    rewrite bpow_add, (bpow_IZR 1) by lia. reflexivity. }
  assert (H47 : bpow (-47) = (/ 140737488355328)%R)
    by apply (bpow_neg_num 47).
  assert (Hnear : (IZR N / 1000000 - bpow (-47) <= IZR m2 * bpow e1
                   <= IZR N / 1000000 + bpow (-47))%R).
  { assert (E1 : ((IZR m1 + 1 / 2) * bpow e1
                  = IZR m1 * bpow e1 + bpow e1 / 2)%R) by field.
    assert (E2 : ((IZR m1 + 1) * bpow e1
                  = IZR m1 * bpow e1 + bpow e1)%R) by ring.
    rewrite E1, ?E2 in Hcase.
    destruct Hcase as [[-> [Hlo Hhi]]|[-> [Hlo Hhi]]];
      rewrite ?plus_IZR, ?E2; lra. }
  destruct Hres as [[_ Hbig]|(Hfin & _ & Hval)]; [lia|].
  unfold F2R. rewrite Hval. split; [|exact Hnear].
  apply positive_finite; [exact Hfin|]. rewrite Hval.
  rewrite H47 in Hnear. lra.
Qed.

End Binary64.

(** * The tree of cells of an axis

    Every bound of a cell is a whole number of units, so the operations
    that compute the cells are exact; the facts that [tree_ok] collects
    hold on all the cells. *)

Lemma units_same (x y : float) (n n' : Z) :
  units x n -> units y n' -> n = n' -> x = y.
Proof. intros Hx Hy <-. exact (units_inj x y n Hx Hy). Qed.

Lemma units_number (i : nat) :
  (1 <= i <= 4)%nat -> units (number i) (Z.of_nat i * 2 ^ 20).
Proof.
  intros Hi.
  assert (H : number i = of_units (Z.of_nat i * 2 ^ 20)).
  { destruct i as [|[|[|[|[|i]]]]]; try lia; reflexivity. }
  rewrite H. apply units_of_units.
  destruct i as [|[|[|[|[|i]]]]]; try lia; split; reflexivity.
Qed.

Lemma number_succ (i : nat) :
  (i <= 3)%nat -> number i + 1 = number (S i).
Proof. intros Hi. destruct i as [|[|[|[|i]]]]; try lia; reflexivity. Qed.

(** [i] steps up from a number of units, and down. *)
Lemma plus_steps (x d : float) (v w : Z) (i : nat) :
  units x v -> units d w -> (i <= 4)%nat ->
  (v < 2 ^ 27)%Z -> (w < 2 ^ 27)%Z ->
  units (x + d * number i) (v + Z.of_nat i * w).
Proof.
  intros Hx Hd Hi Hv Hw.
  pose proof (units_pos _ _ Hx) as Hv0. pose proof (units_pos _ _ Hd) as Hw0.
  assert (H27 : (8 * 2 ^ 27 < 2 ^ 53)%Z) by reflexivity.
  destruct i as [|i].
  - change (number 0) with 0. rewrite (mul_zero d w Hd), (add_zero x v Hx).
    replace (v + Z.of_nat 0 * w)%Z with v by lia. exact Hx.
  - apply add_units; [exact Hx| |nia].
    apply (mul_units d (number (S i)) w (Z.of_nat (S i) * 2 ^ 20));
      [exact Hd|apply units_number; lia|ring|nia].
Qed.

Lemma minus_steps (x d : float) (v w : Z) (i : nat) :
  units x v -> units d w -> (i <= 4)%nat ->
  (v < 2 ^ 27)%Z -> (w < 2 ^ 27)%Z -> (Z.of_nat i * w < v)%Z ->
  units (x - d * number i) (v - Z.of_nat i * w).
Proof.
  intros Hx Hd Hi Hv Hw Hlt.
  pose proof (units_pos _ _ Hx) as Hv0. pose proof (units_pos _ _ Hd) as Hw0.
  assert (H27 : (8 * 2 ^ 27 < 2 ^ 53)%Z) by reflexivity.
  destruct i as [|i].
  - change (number 0) with 0. rewrite (mul_zero d w Hd), (sub_zero x v Hx).
    replace (v - Z.of_nat 0 * w)%Z with v by lia. exact Hx.
  - apply sub_units; [exact Hx| |exact Hlt|lia].
    apply (mul_units d (number (S i)) w (Z.of_nat (S i) * 2 ^ 20));
      [exact Hd|apply units_number; lia|ring|nia].
Qed.

Lemma units_grid_step (k : nat) :
  (k < 10)%nat -> units (grid_step k) (cell_width (S k)).
Proof.
  intros Hk. split.
  - eexists _, _. exact (grid_step_spec k Hk).
  - exact (grid_step_value k Hk).
Qed.

Lemma units_constants :
  units GRID_SIZE (4 * 2 ^ 20) /\ units 0.25 (2 ^ 18) /\
  units 0.5 (2 ^ 19) /\ units 1000000 (1000000 * 2 ^ 20).
Proof.
  assert (H : forall n : Z, (0 < n < 2 ^ 53)%Z -> forall x : float,
                x = of_units n -> units x n).
  { intros n Hn x ->. apply units_of_units. exact Hn. }
  split; [|split; [|split]]; (apply H; [split; reflexivity|reflexivity]).
Qed.

Section Tree.

Variable a : axis_kind.
Hypothesis Hunits :
  (2 ^ 21 <= axis_units a /\ axis_units a + cell_width 0 < 2 ^ 27)%Z.
Hypothesis Hlo : axis_lo a = of_units (axis_units a).
Hypothesis Hhi : axis_hi a = of_units (axis_units a + cell_width 0).

Section Cell.

Variables (k : nat) (lo hi : float) (u : Z).
Hypothesis Hk : (k <= 10)%nat.
Hypothesis Hu1 : (axis_units a <= u)%Z.
Hypothesis Hu2 : (u + cell_width k <= axis_units a + cell_width 0)%Z.
Hypothesis Elo : lo = of_units u.
Hypothesis Ehi : hi = of_units (u + cell_width k).

Lemma cell_units :
  units lo u /\ units hi (u + cell_width k) /\
  units (axis_lo a) (axis_units a) /\
  units (axis_hi a) (axis_units a + cell_width 0).
Proof.
  pose proof (cell_width_pos k ltac:(lia)) as Hw.
  pose proof (cell_width_pos 0 ltac:(lia)) as Hw0.
  assert (H27 : (2 ^ 27 < 2 ^ 53)%Z) by reflexivity.
  rewrite Elo, Ehi, Hlo, Hhi.
  split; [|split; [|split]]; apply units_of_units; lia.
Qed.

Lemma cell_box :
  (axis_lo a <=? lo) = true /\ (lo <=? hi) = true /\
  (hi <=? axis_hi a) = true.
Proof.
  destruct cell_units as (Ul & Uh & Ual & Uah).
  pose proof (cell_width_pos k ltac:(lia)) as Hw.
  split; [|split].
  - exact (leb_units _ _ _ _ Ual Ul Hu1).
  - apply (leb_units _ _ _ _ Ul Uh). lia.
  - exact (leb_units _ _ _ _ Uh Uah Hu2).
Qed.

Lemma cell_step :
  (k < 10)%nat ->
  (hi - lo) / GRID_SIZE = grid_step k /\ (hi - lo) * 0.25 = grid_step k.
Proof.
  intros Hk10.
  destruct cell_units as (Ul & Uh & _).
  destruct units_constants as (U4 & Uq & _).
  pose proof (cell_width_quarter k Hk) as Hq.
  pose proof (cell_width_pos (S k) ltac:(lia)) as Hw.
  assert (H27 : (2 ^ 27 < 2 ^ 53)%Z) by reflexivity.
  assert (Ud : units (hi - lo) (4 * cell_width (S k))).
  { replace (4 * cell_width (S k))%Z with (u + cell_width k - u)%Z by lia.
    apply (sub_units _ _ _ _ Uh Ul); lia. }
  pose proof (units_grid_step k Hk10) as Ug.
  split.
  - apply (units_inj _ _ (cell_width (S k))); [|exact Ug].
    apply (div_units _ _ _ _ _ Ud U4); [ring|lia].
  - apply (units_inj _ _ (cell_width (S k))); [|exact Ug].
    apply (mul_units _ _ _ _ _ Ud Uq); [|lia].
    change (2 ^ 20)%Z with (4 * 2 ^ 18)%Z. ring.
Qed.

Lemma cell_holds : (k < 10)%nat -> cell_ok a k lo hi u = true.
Proof.
  intros Hk10. destruct cell_box as (B1 & B2 & B3).
  destruct (cell_step Hk10) as (S1 & S2).
  unfold cell_ok. rewrite B1, B2, B3.
  rewrite (proj2 (Leibniz.eqb_spec _ _) Elo).
  rewrite (proj2 (Leibniz.eqb_spec _ _) Ehi).
  rewrite (proj2 (Leibniz.eqb_spec _ _) S1).
  rewrite (proj2 (Leibniz.eqb_spec _ _) S2).
  reflexivity.
Qed.

(** The quarters of a cell, as each variant computes them. *)
Lemma quarter_holds (i : nat) :
  (k < 10)%nat -> (i < 4)%nat ->
  let q := axis_narrow lo hi (number i) in
  quarter_ok a lo hi i = true /\
  fst q = of_units (u + Z.of_nat i * cell_width (S k)) /\
  snd q = of_units (u + Z.of_nat i * cell_width (S k) + cell_width (S k)).
Proof.
  intros Hk10 Hi q.
  destruct cell_units as (Ul & Uh & _).
  destruct (cell_step Hk10) as (S1 & S2).
  pose proof (units_grid_step k Hk10) as Ug.
  pose proof (cell_width_quarter k Hk) as Hq.
  pose proof (cell_width_pos (S k) ltac:(lia)) as Hw.
  assert (H27 : (2 ^ 27 < 2 ^ 53)%Z) by reflexivity.
  set (w := cell_width (S k)) in *. set (d := grid_step k) in *.
  assert (Hup : forall j : nat, (j <= 4)%nat ->
            units (lo + d * number j) (u + Z.of_nat j * w))
    by (intros j Hj; apply (plus_steps _ _ _ _ _ Ul Ug Hj); lia).
  assert (Hdown : forall j : nat, (j <= 4)%nat ->
            units (hi - d * number j) (u + 4 * w - Z.of_nat j * w)).
  { intros j Hj. rewrite <- Hq.
    apply (minus_steps _ _ _ _ _ Uh Ug); [exact Hj|lia|lia|nia]. }
  assert (A1 : units (fst q) (u + Z.of_nat i * w)).
  { unfold q, axis_narrow. cbn [fst]. rewrite S1. apply Hup. lia. }
  assert (A2 : units (snd q) (u + Z.of_nat i * w + w)).
  { unfold q, axis_narrow. cbn [snd]. rewrite S1.
    apply add_units; [apply Hup; lia|exact Ug|nia]. }
  split; [|split; apply units_eq; [assumption|nia|assumption|nia]].
  assert (Hr : Z.of_nat (3 - i) = (3 - Z.of_nat i)%Z) by lia.
  assert (Q1 : typed_axis_narrow lo hi (number i) = q).
  { unfold q, typed_axis_narrow, axis_narrow. rewrite S1, S2. reflexivity. }
  assert (Q2 : lon_refine lo hi i = q).
  { unfold lon_refine. rewrite S1, (number_succ i) by lia.
    fold d. destruct q as [q1 q2] eqn:Eq. cbn [fst snd] in A1, A2.
    f_equal.
    - exact (units_same _ _ _ _ (Hup i ltac:(lia)) A1 eq_refl).
    - apply (units_same _ _ _ _ (Hup (S i) ltac:(lia)) A2).
      rewrite Nat2Z.inj_succ. ring. }
  assert (Q3 : typed_lon_refine lo hi i = q).
  { rewrite <- Q1. unfold typed_lon_refine, typed_axis_narrow. reflexivity. }
  assert (Q4 : lat_refine lo hi (3 - i) = q).
  { unfold lat_refine. rewrite S1, (number_succ (3 - i)) by lia.
    fold d. destruct q as [q1 q2] eqn:Eq. cbn [fst snd] in A1, A2.
    f_equal.
    - apply (units_same _ _ _ _ (Hdown (S (3 - i)) ltac:(lia)) A1).
      rewrite Nat2Z.inj_succ, Hr. ring.
    - apply (units_same _ _ _ _ (Hdown (3 - i)%nat ltac:(lia)) A2).
      rewrite Hr. ring. }
  assert (Q5 : typed_lat_refine lo hi (3 - i) = q).
  { unfold typed_lat_refine. change Typed.gridSizeReciprocal with 0.25.
    rewrite S2. fold d. destruct q as [q1 q2] eqn:Eq.
    cbn [fst snd] in A1, A2. f_equal.
    - assert (U : units (hi - d * number (3 - i) - d)
                    (u + 4 * w - Z.of_nat (3 - i) * w - w)).
      { apply sub_units; [apply Hdown; lia|exact Ug|nia|nia]. }
      apply (units_same _ _ _ _ U A1). rewrite Hr. ring.
    - apply (units_same _ _ _ _ (Hdown (3 - i)%nat ltac:(lia)) A2).
      rewrite Hr. ring. }
  unfold quarter_ok. fold q. rewrite Q1, Q2, Q3, Q4, Q5.
  assert (Hsame : same_bounds q q = true).
  { unfold same_bounds.
    rewrite !(proj2 (Leibniz.eqb_spec _ _) eq_refl). reflexivity. }
  rewrite Hsame.
  rewrite (leb_units _ _ _ _ Ul A1) by nia.
  rewrite (leb_units _ _ _ _ A2 Uh) by nia.
  destruct (axis_reversed a); reflexivity.
Qed.

(** The centre of a final cell. *)
Lemma centre_holds : k = 10%nat -> centre_ok a lo hi u = true.
Proof.
  intros Hk10.
  assert (Hw : cell_width k = 36%Z) by (rewrite Hk10; reflexivity).
  destruct cell_units as (Ul & Uh & Ual & Uah).
  destruct cell_box as (B1 & B2 & B3).
  pose proof Hu2 as Hu3. rewrite Hw in Uh, Hu3.
  destruct units_constants as (_ & _ & Uhalf & Umil).
  destruct Hunits as [Hun1 Hun2].
  assert (H21 : (2 ^ 21 = 2097152)%Z) by reflexivity.
  assert (H27 : (2 ^ 27 = 134217728)%Z) by reflexivity.
  assert (H53 : (2 ^ 53 = 9007199254740992)%Z) by reflexivity.
  assert (H20 : (2 ^ 20 = 1048576)%Z) by reflexivity.
  assert (Uc : units ((lo + hi) * 0.5) (u + 18)).
  { apply (mul_units _ _ (u + (u + 36)) (2 ^ 19));
      [apply add_units; [exact Ul|exact Uh|lia]|exact Uhalf| |lia].
    change (2 ^ 20)%Z with (2 * 2 ^ 19)%Z. ring. }
  set (c := (lo + hi) * 0.5) in *.
  assert (Ec : c = of_units (u + 18)) by (apply units_eq; [exact Uc|lia]).
  assert (Um : units (c * 1000000) ((u + 18) * 1000000)).
  { apply (mul_units _ _ _ _ _ Uc Umil); [ring|lia]. }
  assert (Er : Math_round (c * 1000000)
               = of_uint63 (Uint63.of_Z (micro_units (u + 18)))).
  { rewrite (Math_round_units _ _ Um) by lia. reflexivity. }
  pose proof (micro_units_spec (u + 18)) as [M1 M2].
  set (N := micro_units (u + 18)) in *.
  destruct (micro_quotient N ltac:(lia)) as ((mr & er & Hr) & Fr1 & Fr2).
  set (r := of_uint63 (Uint63.of_Z N) / 1000000) in *.
  assert (Hnear : (IZR (u + 17) * bpow (-20) <= F2R r
                   <= IZR (u + 19) * bpow (-20))%R).
  { apply IZR_le in M1. apply IZR_lt in M2.
    rewrite !plus_IZR, !mult_IZR, ?plus_IZR in *.
    rewrite (bpow_neg_num 20). rewrite (bpow_neg_num 47) in Fr1, Fr2.
    change (IZR (2 ^ Z.pos 20)) with 1048576%R.
    change (IZR (2 ^ Z.pos 47)) with 140737488355328%R in Fr1, Fr2.
    split; lra. }
  assert (Hcmp : forall (x : float) (n : Z), units x n ->
            ((n <= u + 17)%Z -> (x <=? r) = true) /\
            ((u + 19 <= n)%Z -> (r <=? x) = true)).
  { intros x n [(mx & ex & Hx) Fx]. pose proof (bpow_pos (-20)) as Hp.
    split; intros Hn; apply IZR_le in Hn.
    - apply (leb_true _ _ _ _ _ _ Hx Hr). rewrite Fx. nra.
    - apply (leb_true _ _ _ _ _ _ Hr Hx). rewrite Fx. nra. }
  assert (U17 : units (of_units (u + 17)) (u + 17))
    by (apply units_of_units; lia).
  assert (U19 : units (of_units (u + 19)) (u + 19))
    by (apply units_of_units; lia).
  unfold centre_ok. fold c. rewrite Er. fold N. fold r.
  rewrite (proj2 (Leibniz.eqb_spec _ _) Ec).
  rewrite (proj2 (Leibniz.eqb_spec _ _) eq_refl).
  rewrite (leb_units _ _ _ _ Ual Uc) by lia.
  rewrite (leb_units _ _ _ _ Uc Uah) by lia.
  rewrite (proj1 (Hcmp _ _ Ual)) by lia.
  rewrite (proj2 (Hcmp _ _ Uah)) by lia.
  rewrite (proj1 (Hcmp _ _ U17)) by lia.
  rewrite (proj2 (Hcmp _ _ U19)) by lia.
  rewrite B1, B2, B3. reflexivity.
Qed.

End Cell.

Lemma tree_holds (depth : nat) :
  forall (k : nat) (lo hi : float) (u : Z),
    (depth + k = 10)%nat ->
    (axis_units a <= u)%Z ->
    (u + cell_width k <= axis_units a + cell_width 0)%Z ->
    lo = of_units u -> hi = of_units (u + cell_width k) ->
    tree_ok a depth k lo hi u = true.
Proof.
  induction depth as [|depth IH]; intros k lo hi u Hk Hu1 Hu2 Elo Ehi.
  - cbn [tree_ok].
    exact (centre_holds k lo hi u ltac:(lia) Hu1 Hu2 Elo Ehi ltac:(lia)).
  - cbn [tree_ok].
    rewrite (cell_holds k lo hi u ltac:(lia) Hu1 Hu2 Elo Ehi ltac:(lia)).
    cbn [andb]. apply forallb_forall. intros i Hi.
    apply in_seq in Hi.
    destruct (quarter_holds k lo hi u ltac:(lia) Hu1 Hu2 Elo Ehi i
                ltac:(lia) ltac:(lia)) as (Hq & E1 & E2).
    cbv zeta in Hq, E1, E2. cbv zeta. rewrite Hq. cbn [andb].
    pose proof (cell_width_quarter k ltac:(lia)) as Hw.
    pose proof (cell_width_pos (S k) ltac:(lia)) as Hw0.
    apply IH; [lia|nia|nia|exact E1|exact E2].
Qed.

Lemma axis_tree :
  tree_ok a 10 0 (axis_lo a) (axis_hi a) (axis_units a) = true.
Proof.
  apply tree_holds; [reflexivity|lia|lia|exact Hlo|exact Hhi].
Qed.

End Tree.

Lemma latitude_tree :
  tree_ok latitude_axis 10 0 (axis_lo latitude_axis) (axis_hi latitude_axis)
    (axis_units latitude_axis) = true.
Proof.
  apply axis_tree; [split; [discriminate|reflexivity]| |]; reflexivity.
Qed.

Lemma longitude_tree :
  tree_ok longitude_axis 10 0 (axis_lo longitude_axis)
    (axis_hi longitude_axis) (axis_units longitude_axis) = true.
Proof.
  apply axis_tree; [split; [discriminate|reflexivity]| |]; reflexivity.
Qed.

(** * The program on the grid *)

Lemma latitude_units :
  (2 ^ 21 <= axis_units latitude_axis /\
   axis_units latitude_axis + cell_width 0 < 2 ^ 27)%Z.
Proof. vm_compute. split; [discriminate|reflexivity]. Qed.

Lemma longitude_units :
  (2 ^ 21 <= axis_units longitude_axis /\
   axis_units longitude_axis + cell_width 0 < 2 ^ 27)%Z.
Proof. vm_compute. split; [discriminate|reflexivity]. Qed.

Lemma latitude_checked : checked latitude_axis.
Proof.
  split; [exact latitude_tree|]. split; [exact latitude_units|].
  split; vm_compute; reflexivity.
Qed.

Lemma longitude_checked : checked longitude_axis.
Proof.
  split; [exact longitude_tree|]. split; [exact longitude_units|].
  split; vm_compute; reflexivity.
Qed.

(** ** Rows, columns and table entries for a floored quotient *)

Lemma clamp_spec (n : Z) :
  (0 <= n <= 4)%Z ->
  let i := Z.to_nat (Z.min 3 n) in
  (i < 4)%nat /\
  F2Z (Z2F n) = Some n /\
  Math_min 3 (Math_max 0 (3 - Z2F n)) = number (3 - i) /\
  3 - number (3 - i) = number i /\
  Math_min 3 (Math_max 0 (Z2F n)) = number i.
Proof.
  intros Hn.
  assert (n = 0 \/ n = 1 \/ n = 2 \/ n = 3 \/ n = 4)%Z
    as [->|[->|[->|[->| ->]]]] by lia;
    vm_compute; repeat split; lia.
Qed.

Lemma typed_clamp_spec (n : Z) :
  (0 <= n <= 4)%Z ->
  let i := Z.to_nat (Z.min 3 n) in
  (let row := Z2F n in
   let row := if 3 <? row then 3 else row in
   let row := 3 - row in
   if row <? 0 then 0 else row) = number (3 - i) /\
  (let col := Z2F n in
   let col := if 3 <? col then 3 else col in
   if col <? 0 then 0 else col) = number i.
Proof.
  intros Hn.
  assert (n = 0 \/ n = 1 \/ n = 2 \/ n = 3 \/ n = 4)%Z
    as [->|[->|[->|[->| ->]]]] by lia;
    vm_compute; repeat split.
Qed.

Lemma grid_access (r c : nat) :
  (r < 4)%nat -> (c < 4)%nat ->
  exists line,
    array_get DIGIPIN_GRID (number r) = Some line /\
    array_get line (number c) = symbolAt r c.
Proof.
  intros Hr Hc.
  destruct r as [|[|[|[|r]]]]; try lia;
    destruct c as [|[|[|[|c]]]]; try lia;
    eexists; split; vm_compute; reflexivity.
Qed.

Lemma quarter_symbol_spec (i j : nat) :
  (i < 4)%nat -> (j < 4)%nat ->
  exists ch,
    quarter_symbol i j = Some ch /\ ch <> "-"%char /\
    CHAR_TO_POSITION !! ch = Some {| row := 3 - i; col := j |}.
Proof.
  intros Hi Hj.
  destruct i as [|[|[|[|i]]]]; try lia;
    destruct j as [|[|[|[|j]]]]; try lia;
    eexists; (split; [reflexivity|]); (split; [discriminate|]);
    vm_compute; reflexivity.
Qed.

Lemma quarter_of_floor (x lo hi : float) (n : Z) :
  (0 <= n <= 4)%Z -> axis_floor x lo hi = Z2F n ->
  quarter x lo hi = Z.to_nat (Z.min 3 n).
Proof.
  intros Hn Hf. unfold quarter. rewrite Hf.
  destruct (clamp_spec n Hn) as (_ & -> & _). f_equal. lia.
Qed.

(** ** The inputs within the bounds *)

Section Inputs.

Variable a : axis_kind.
Hypothesis Ha : checked a.

Lemma axis_bounds_spec :
  (exists m e, Prim2SF (axis_lo a) = S754_finite false m e) /\
  (exists m e, Prim2SF (axis_hi a) = S754_finite false m e) /\
  F2R (axis_lo a) = (IZR (axis_units a) * bpow (-20))%R /\
  F2R (axis_hi a) = (IZR (axis_units a + cell_width 0) * bpow (-20))%R.
Proof.
  destruct Ha as (_ & [Hu1 Hu2] & Hlo & Hhi).
  assert (Hp53 : (2 ^ 27 < 2 ^ 53)%Z) by (apply Z.pow_lt_mono_r; lia).
  assert (Hw : (0 < cell_width 0)%Z) by reflexivity.
  destruct (of_units_spec (axis_units a)) as (ml & el & H1 & F1); [lia|].
  destruct (of_units_spec (axis_units a + cell_width 0))
    as (mh & eh & H2 & F2); [lia|].
  rewrite <- Hlo in H1, F1. rewrite <- Hhi in H2, F2.
  split; [exists ml, el; exact H1|]. split; [exists mh, eh; exact H2|].
  split; [exact F1|exact F2].
Qed.

(** A number within the bounds of the axis is positive and finite, passes
    the validation, and lies in the cell of the empty path. *)
Lemma input_spec (x : float) :
  (axis_lo a <=? x) = true -> (x <=? axis_hi a) = true ->
  (exists m e, Prim2SF x = S754_finite false m e) /\
  contains a [] x /\
  (x <? axis_lo a) || (axis_hi a <? x) = false.
Proof.
  intros H1 H2.
  destruct axis_bounds_spec as ((ml & el & Hlo) & (mh & eh & Hhi) & Flo & Fhi).
  destruct (in_range_spec _ _ x ml mh el eh Hlo Hhi H1 H2) as (m & e & Hx & Hr).
  split; [eauto|]. split.
  - unfold contains. cbn [units_of descend_units length].
    rewrite <- Flo, <- Fhi. exact Hr.
  - rewrite (ltb_false x (axis_lo a) _ _ _ _ Hx Hlo) by lra.
    rewrite (ltb_false (axis_hi a) x _ _ _ _ Hhi Hx) by lra.
    reflexivity.
Qed.

(** The quarters that [n] more levels choose. *)
Lemma axis_path_spec (x : float) (n : nat) :
  forall p : list nat,
    (exists m e, Prim2SF x = S754_finite false m e) ->
    valid_path p -> (length p + n <= 10)%nat -> contains a p x ->
    let q := axis_path x (fst (cell_of a p)) (snd (cell_of a p)) n in
    valid_path (p ++ q) /\ length q = n /\ contains a (p ++ q) x.
Proof.
  destruct Ha as (Ht & Hu & _).
  induction n as [|n IH]; intros p Hx Hp Hlen Hin; cbn [axis_path].
  - rewrite app_nil_r. split; [exact Hp|]. split; [reflexivity|exact Hin].
  - destruct Hx as (m & e & Hx).
    destruct (quarter_step a Ht Hu p x m e Hp ltac:(lia) Hx Hin)
      as (k & Hk & Hfloor & Hin').
    rewrite (quarter_of_floor _ _ _ k Hk Hfloor).
    set (i := Z.to_nat (Z.min 3 k)) in *.
    assert (Hi : (i < 4)%nat) by (unfold i; lia).
    assert (Hp' : valid_path (p ++ [i]))
      by (apply Forall_app; split; [exact Hp|constructor; [exact Hi|constructor]]).
    specialize (IH (p ++ [i]) ltac:(eauto) Hp'
                  ltac:(rewrite length_app; cbn; lia) Hin').
    rewrite cell_of_app in IH. cbv zeta in IH.
    destruct IH as (IH1 & IH2 & IH3).
    rewrite <- app_assoc in IH1, IH3. cbn [app] in IH1, IH3.
    split; [exact IH1|]. split; [cbn [length]; f_equal; exact IH2|exact IH3].
Qed.

End Inputs.

(** ** One level of the encoder *)

Lemma same_bounds_eq (x y : float * float) :
  same_bounds x y = true -> x = y.
Proof.
  unfold same_bounds. intros H. apply andb_prop in H as [H1 H2].
  apply Leibniz.eqb_spec in H1, H2. destruct x, y; cbn in *; congruence.
Qed.

Section Level.

Variables lat lon : float.
Variables p q : list nat.
Hypothesis Hlat : exists m e, Prim2SF lat = S754_finite false m e.
Hypothesis Hlon : exists m e, Prim2SF lon = S754_finite false m e.
Hypothesis Hp : valid_path p.
Hypothesis Hq : valid_path q.
Hypothesis Hlp : (length p < 10)%nat.
Hypothesis Hlq : (length q < 10)%nat.
Hypothesis Hinp : contains latitude_axis p lat.
Hypothesis Hinq : contains longitude_axis q lon.

Let b := rectangle (cell_of latitude_axis p) (cell_of longitude_axis q).
Let i := quarter lat (fst (cell_of latitude_axis p))
           (snd (cell_of latitude_axis p)).
Let j := quarter lon (fst (cell_of longitude_axis q))
           (snd (cell_of longitude_axis q)).
Let b' := rectangle (cell_of latitude_axis (p ++ [i]))
            (cell_of longitude_axis (q ++ [j])).

Lemma level_lat :
  (i < 4)%nat /\
  grid_row lat b = number (3 - i) /\
  Typed.grid_row lat b = number (3 - i) /\
  (3 - number (3 - i))%float = number i /\
  contains latitude_axis (p ++ [i]) lat.
Proof.
  destruct Hlat as (m & e & Hx).
  destruct latitude_checked as (Ht & Hu & _).
  destruct (quarter_step latitude_axis Ht Hu p lat m e Hp Hlp Hx Hinp)
    as (n & Hn & Hfloor & Hin').
  destruct (cell_facts latitude_axis Ht Hu p Hp Hlp)
    as (_ & _ & _ & Hd & Hd' & _ & _).
  assert (Hi : i = Z.to_nat (Z.min 3 n))
    by (apply quarter_of_floor; assumption).
  destruct (clamp_spec n Hn) as (Hi4 & _ & Hrow & Hinv & _).
  destruct (typed_clamp_spec n Hn) as (Hrow' & _).
  cbv zeta in Hi4, Hrow, Hinv, Hrow'. rewrite <- Hi in *.
  split; [exact Hi4|]. split; [|split; [|split; [exact Hinv|exact Hin']]].
  - rewrite <- Hrow, <- Hfloor. reflexivity.
  - rewrite <- Hrow', <- Hfloor. unfold Typed.grid_row, axis_floor.
    cbn [b rectangle minLat maxLat]. rewrite Hd, Hd'. reflexivity.
Qed.

Lemma level_lon :
  (j < 4)%nat /\
  grid_col lon b = number j /\
  Typed.grid_col lon b = number j /\
  contains longitude_axis (q ++ [j]) lon.
Proof.
  destruct Hlon as (m & e & Hx).
  destruct longitude_checked as (Ht & Hu & _).
  destruct (quarter_step longitude_axis Ht Hu q lon m e Hq Hlq Hx Hinq)
    as (n & Hn & Hfloor & Hin').
  destruct (cell_facts longitude_axis Ht Hu q Hq Hlq)
    as (_ & _ & _ & Hd & Hd' & _ & _).
  assert (Hj : j = Z.to_nat (Z.min 3 n))
    by (apply quarter_of_floor; assumption).
  destruct (clamp_spec n Hn) as (Hj4 & _ & _ & _ & Hcol).
  destruct (typed_clamp_spec n Hn) as (_ & Hcol').
  cbv zeta in Hj4, Hcol, Hcol'. rewrite <- Hj in *.
  split; [exact Hj4|]. split; [|split; [|exact Hin']].
  - rewrite <- Hcol, <- Hfloor. reflexivity.
  - rewrite <- Hcol', <- Hfloor. unfold Typed.grid_col, axis_floor.
    cbn [b rectangle minLon maxLon]. rewrite Hd, Hd'. reflexivity.
Qed.

Lemma level_narrow :
  narrow b (number (3 - i)) (number j) = b' /\
  Typed.narrow b (number (3 - i)) (number j) = b'.
Proof.
  destruct level_lat as (Hi & _ & _ & Hinv & _).
  destruct level_lon as (Hj & _).
  destruct latitude_checked as (Ht & Hu & _).
  destruct longitude_checked as (Ht' & Hu' & _).
  destruct (cell_facts latitude_axis Ht Hu p Hp Hlp)
    as (_ & _ & _ & _ & _ & _ & Hquarter).
  destruct (cell_facts longitude_axis Ht' Hu' q Hq Hlq)
    as (_ & _ & _ & _ & _ & _ & Hquarter').
  specialize (Hquarter i Hi). specialize (Hquarter' j Hj).
  unfold quarter_ok in Hquarter, Hquarter'.
  apply andb_prop in Hquarter as [Hquarter _].
  apply andb_prop in Hquarter as [Hquarter _].
  apply andb_prop in Hquarter as [Hquarter _].
  apply andb_prop in Hquarter' as [Hquarter' _].
  apply andb_prop in Hquarter' as [Hquarter' _].
  apply andb_prop in Hquarter' as [Hquarter' _].
  apply same_bounds_eq in Hquarter, Hquarter'.
  unfold b'. rewrite !cell_of_app.
  split.
  - unfold narrow. rewrite Hinv. reflexivity.
  - rewrite <- Hquarter, <- Hquarter'.
    unfold Typed.narrow. rewrite Hinv. reflexivity.
Qed.

End Level.

(** ** One symbol of the decoder *)

Lemma refine_spec (p q : list nat) (i j : nat) :
  valid_path p -> valid_path q ->
  (length p < 10)%nat -> (length q < 10)%nat ->
  (i < 4)%nat -> (j < 4)%nat ->
  let b := rectangle (cell_of latitude_axis p) (cell_of longitude_axis q) in
  let b' := rectangle (cell_of latitude_axis (p ++ [i]))
              (cell_of longitude_axis (q ++ [j])) in
  refine b {| row := 3 - i; col := j |} = b' /\
  Typed.refine b {| row := 3 - i; col := j |} = b'.
Proof.
  intros Hp Hq Hlp Hlq Hi Hj b b'.
  destruct latitude_checked as (Ht & Hu & _).
  destruct longitude_checked as (Ht' & Hu' & _).
  destruct (cell_facts latitude_axis Ht Hu p Hp Hlp)
    as (_ & _ & _ & _ & _ & _ & Hquarter).
  destruct (cell_facts longitude_axis Ht' Hu' q Hq Hlq)
    as (_ & _ & _ & _ & _ & _ & Hquarter').
  specialize (Hquarter i Hi). specialize (Hquarter' j Hj).
  unfold quarter_ok in Hquarter, Hquarter'.
  apply andb_prop in Hquarter as [Hquarter _].
  apply andb_prop in Hquarter as [Hquarter _].
  apply andb_prop in Hquarter as [_ Hquarter].
  apply andb_prop in Hquarter' as [Hquarter' _].
  apply andb_prop in Hquarter' as [Hquarter' _].
  apply andb_prop in Hquarter' as [_ Hquarter'].
  cbn [axis_reversed latitude_axis] in Hquarter.
  cbn [axis_reversed longitude_axis] in Hquarter'.
  apply andb_prop in Hquarter as [H1 H2].
  apply andb_prop in Hquarter' as [H3 H4].
  apply same_bounds_eq in H1, H2, H3, H4.
  unfold b'. rewrite !cell_of_app. split.
  - rewrite <- H1, <- H3. reflexivity.
  - rewrite <- H2, <- H4. reflexivity.
Qed.

(** The rectangle of two cells lies within the bounding box. *)
Lemma rectangle_nested (p q : list nat) :
  valid_path p -> valid_path q ->
  (length p < 10)%nat -> (length q < 10)%nat ->
  nested (rectangle (cell_of latitude_axis p) (cell_of longitude_axis q))
    BOUNDS.
Proof.
  intros Hp Hq Hlp Hlq.
  destruct latitude_checked as (Ht & Hu & _).
  destruct longitude_checked as (Ht' & Hu' & _).
  destruct (cell_facts latitude_axis Ht Hu p Hp Hlp)
    as (_ & _ & _ & _ & _ & (H1 & H2 & H3) & _).
  destruct (cell_facts longitude_axis Ht' Hu' q Hq Hlq)
    as (_ & _ & _ & _ & _ & (H4 & H5 & H6) & _).
  repeat split; assumption.
Qed.

(** ** The centre of a final cell *)

Lemma abs_positive (x : float) (m : positive) (e : Z) :
  Prim2SF x = S754_finite false m e -> abs x = x.
Proof.
  intros Hx. rewrite <- (SF2Prim_Prim2SF (abs x)), abs_spec, Hx.
  cbn [SFabs]. rewrite <- Hx. apply SF2Prim_Prim2SF.
Qed.

(** The integer that [toFixed(6)] prints for a number of [u] units is the
    one that [micro_units] computes. *)
Lemma scaled_nearest_units (m : positive) (e u : Z) :
  valid_binary (S754_finite false m e) = true ->
  (0 < u < 2 ^ 27)%Z ->
  (IZR (Z.pos m) * bpow e = IZR u * bpow (-20))%R ->
  (e < 0)%Z /\ scaled_nearest 6 m e = micro_units u.
Proof.
  intros V Hu Heq.
  apply valid_finite_digits in V as (He & Hm & Hn).
  assert (He20 : (e <= -20)%Z).
  { destruct (Z_le_gt_dec e (-20)) as [H|H]; [exact H|exfalso].
    symmetry in Heq. apply IZR_bpow_eq in Heq; [|lia].
    assert (2 ^ 52 <= Z.pos m)%Z by (apply Hn; lia).
    assert (1 <= 2 ^ (e - -20))%Z by (apply Z.pow_le_mono_r with (b := 0%Z); lia).
    assert (2 ^ 27 < 2 ^ 52)%Z by (apply Z.pow_lt_mono_r; lia).
    nia. }
  split; [lia|].
  apply IZR_bpow_eq in Heq; [|exact He20].
  unfold scaled_nearest, micro_units.
  destruct (0 <=? e)%Z eqn:H0; [apply Z.leb_le in H0; lia|].
  rewrite !Z.shiftr_div_pow2 by lia.
  change (10 ^ Z.of_nat 6)%Z with 1000000%Z.
  set (k := (-20 - e)%Z) in *.
  assert (Hk : (0 <= k)%Z) by (unfold k; lia).
  replace (- e)%Z with (k + 20)%Z by (unfold k; lia).
  replace (k + 20 + 1)%Z with (k + 21)%Z by lia.
  rewrite Heq, !Z.pow_add_r by lia.
  replace (2 * (u * 2 ^ k * 1000000) + 2 ^ k * 2 ^ 20)%Z
    with (2 ^ k * (2 * (u * 1000000) + 1048576))%Z
    by (change (2 ^ 20)%Z with 1048576%Z; ring).
  apply Z.div_mul_cancel_l; apply Z.pow_nonzero; lia.
Qed.

Lemma centre_ok_spec (a : axis_kind) (lo hi : float) (u : Z) :
  centre_ok a lo hi u = true ->
  let c := (lo + hi) * 0.5 in
  let r := of_uint63 (Uint63.of_Z (micro_units (u + 18))) / 1000000 in
  c = of_units (u + 18) /\
  Math_round (c * 1000000) / 1000000 = r /\
  ((axis_lo a <=? c) = true /\ (c <=? axis_hi a) = true) /\
  ((axis_lo a <=? r) = true /\ (r <=? axis_hi a) = true) /\
  ((of_units (u + 17) <=? r) = true /\ (r <=? of_units (u + 19)) = true) /\
  (axis_lo a <=? lo) = true /\ (lo <=? hi) = true /\
  (hi <=? axis_hi a) = true.
Proof.
  intros H c r. unfold centre_ok in H.
  apply andb_prop in H as [H H11]. apply andb_prop in H as [H H10].
  apply andb_prop in H as [H H9]. apply andb_prop in H as [H H8].
  apply andb_prop in H as [H H7]. apply andb_prop in H as [H H6].
  apply andb_prop in H as [H H5]. apply andb_prop in H as [H H4].
  apply andb_prop in H as [H H3]. apply andb_prop in H as [H1 H2].
  apply Leibniz.eqb_spec in H1, H2.
  split; [exact H1|]. split; [unfold r; rewrite <- H2; reflexivity|].
  split; [split; assumption|]. split; [split; assumption|].
  split; [split; assumption|]. split; [assumption|]. split; assumption.
Qed.

Section Leaf.

Variable a : axis_kind.
Hypothesis Ha : checked a.
Variable p : list nat.
Hypothesis Hp : valid_path p.
Hypothesis Hlen : length p = 10%nat.

Let u := units_of a p.
Let c := centre (cell_of a p).
Let r := of_uint63 (Uint63.of_Z (micro_units (u + 18))) / 1000000.

Lemma leaf_units : (2 ^ 21 <= u /\ u + 36 < 2 ^ 27)%Z.
Proof.
  destruct Ha as (Ht & Hu & _).
  pose proof (units_range a Hu p Hp ltac:(lia)) as H.
  rewrite Hlen in H. exact H.
Qed.

Lemma leaf_checks :
  centre_ok a (fst (cell_of a p)) (snd (cell_of a p)) u = true.
Proof.
  destruct Ha as (Ht & Hu & _).
  pose proof (cell_tree a Ht p Hp ltac:(lia)) as H.
  rewrite Hlen in H. exact H.
Qed.

Lemma leaf_centre :
  (exists m e, Prim2SF c = S754_finite false m e) /\
  F2R c = (IZR (u + 18) * bpow (-20))%R /\
  (axis_lo a <=? c) = true /\ (c <=? axis_hi a) = true.
Proof.
  destruct (centre_ok_spec _ _ _ _ leaf_checks) as (H & _ & Hb & _).
  pose proof leaf_units as [Hu1 Hu2].
  assert (Hp53 : (2 ^ 27 < 2 ^ 53)%Z) by (apply Z.pow_lt_mono_r; lia).
  destruct (of_units_spec (u + 18)) as (m & e & Hc & Fc); [lia|].
  rewrite <- H in Hc, Fc.
  split; [exists m, e; exact Hc|]. split; [exact Fc|exact Hb].
Qed.

Lemma leaf_box :
  (axis_lo a <=? fst (cell_of a p)) = true /\
  (fst (cell_of a p) <=? snd (cell_of a p)) = true /\
  (snd (cell_of a p) <=? axis_hi a) = true.
Proof.
  destruct (centre_ok_spec _ _ _ _ leaf_checks) as (_ & _ & _ & _ & _ & H).
  exact H.
Qed.

(** The number that the typed variant returns for the centre. *)
Lemma leaf_round6 :
  Typed.round6 c = r /\
  (exists m e, Prim2SF r = S754_finite false m e) /\
  (IZR (u + 17) * bpow (-20) <= F2R r <= IZR (u + 19) * bpow (-20))%R /\
  (axis_lo a <=? r) = true /\ (r <=? axis_hi a) = true.
Proof.
  destruct (centre_ok_spec _ _ _ _ leaf_checks)
    as (_ & Hr6 & _ & Hb & (Hl & Hh) & _).
  pose proof leaf_units as [Hu1 Hu2].
  assert (Hp53 : (2 ^ 27 < 2 ^ 53)%Z) by (apply Z.pow_lt_mono_r; lia).
  destruct (of_units_spec (u + 17)) as (m1 & e1 & H1 & F1); [lia|].
  destruct (of_units_spec (u + 19)) as (m2 & e2 & H2 & F2); [lia|].
  destruct (in_range_spec _ _ r m1 m2 e1 e2 H1 H2 Hl Hh)
    as (m & e & Hr & Fr).
  rewrite F1, F2 in Fr.
  split; [exact Hr6|]. split; [exists m, e; exact Hr|].
  split; [exact Fr|exact Hb].
Qed.

(** The string that [index.ts] returns for the centre. *)
Lemma leaf_toFixed :
  toFixed 6 c = Digits (with_point 6 (micro_units (u + 18))).
Proof.
  destruct leaf_centre as ((m & e & Hc) & Fc & _ & _).
  pose proof leaf_units as [Hu1 Hu2].
  pose proof (Prim2SF_valid c) as V. rewrite Hc in V.
  rewrite (F2R_finite _ _ _ _ Hc) in Fc. cbn [cond_Zopp] in Fc.
  assert (Hu27 : (0 < u + 18 < 2 ^ 27)%Z) by lia.
  destruct (scaled_nearest_units m e (u + 18) V Hu27 Fc) as [He Hs].
  unfold toFixed. rewrite Hc, (abs_positive _ _ _ Hc), Hs.
  assert (H21 : Prim2SF 1e21 = S754_finite false 7629394531250000 17)
    by reflexivity.
  rewrite (leb_false _ _ _ _ _ _ H21 Hc); [reflexivity|].
  rewrite (F2R_finite _ _ _ _ H21), (F2R_finite _ _ _ _ Hc).
  cbn [cond_Zopp]. rewrite Fc, (bpow_IZR 17) by lia.
  rewrite (bpow_neg_num 20).
  assert (IZR (u + 18) < IZR (2 ^ 27))%R by (apply IZR_lt; lia).
  change (IZR (2 ^ 27)) with 134217728%R in *.
  change (IZR (2 ^ Z.pos 20)) with 1048576%R.
  change (IZR (2 ^ 17)) with 131072%R.
  assert (0 < IZR (u + 18))%R by (apply IZR_lt; lia).
  lra.
Qed.

End Leaf.

(** ** The loop of the encoder *)

Lemma hyphen_positions (level : nat) :
  bool_decide ((level + 1)%nat ∈ HYPHEN_POSITIONS)
  = bool_decide (level = 2%nat \/ level = 5%nat).
Proof.
  apply bool_decide_ext. unfold HYPHEN_POSITIONS.
  rewrite elem_of_union, !elem_of_singleton. lia.
Qed.

Lemma string_app_cons (ch : ascii) (s1 s2 : string) :
  (String ch s1 ++ s2)%string = String ch (s1 ++ s2)%string.
Proof. reflexivity. Qed.

Lemma string_app_nil_l (s : string) : ("" ++ s)%string = s.
Proof. reflexivity. Qed.

Lemma string_app_assoc (s1 s2 s3 : string) :
  ((s1 ++ s2) ++ s3 = s1 ++ (s2 ++ s3))%string.
Proof.
  induction s1 as [|ch s1 IH]; [reflexivity|].
  rewrite !string_app_cons, IH. reflexivity.
Qed.

Lemma string_app_empty (s : string) : (s ++ "")%string = s.
Proof.
  induction s as [|ch s IH]; [reflexivity|].
  rewrite string_app_cons, IH. reflexivity.
Qed.

Section EncodeLoop.

Variables lat lon : float.
Hypothesis Hlat : exists m e, Prim2SF lat = S754_finite false m e.
Hypothesis Hlon : exists m e, Prim2SF lon = S754_finite false m e.

Lemma encode_level_spec (p q : list nat) (level : nat) :
  valid_path p -> valid_path q ->
  (length p < 10)%nat -> (length q < 10)%nat ->
  contains latitude_axis p lat -> contains longitude_axis q lon ->
  let b := rectangle (cell_of latitude_axis p) (cell_of longitude_axis q) in
  let i := quarter lat (fst (cell_of latitude_axis p))
             (snd (cell_of latitude_axis p)) in
  let j := quarter lon (fst (cell_of longitude_axis q))
             (snd (cell_of longitude_axis q)) in
  let b' := rectangle (cell_of latitude_axis (p ++ [i]))
              (cell_of longitude_axis (q ++ [j])) in
  level_ok (grid_row lat b) (grid_col lon b) /\
  level_ok (Typed.grid_row lat b) (Typed.grid_col lon b) /\
  (forall result,
     encode_level lat lon level {| cell := b; out := result |}
     = Ok {| cell := b';
             out := result ++ [quarter_symbol i j]
                    ++ (if bool_decide ((level + 1)%nat ∈ HYPHEN_POSITIONS)
                        then [Some "-"%char] else []) |}) /\
  (forall result,
     Typed.encode_level lat lon level
       {| Typed.cell := b; Typed.out := result |}
     = Ok {| Typed.cell := b';
             Typed.out :=
               (result ++ Typed.appended (quarter_symbol i j)
                ++ (if bool_decide (level = 2%nat \/ level = 5%nat)
                    then "-" else ""))%string |}).
Proof.
  intros Hp Hq Hlp Hlq Hinp Hinq b i j b'.
  destruct (level_lat lat p q Hlat Hp Hlp Hinp) as (Hi & Hrow & Hrow' & _).
  destruct (level_lon lon p q Hlon Hq Hlq Hinq) as (Hj & Hcol & Hcol' & _).
  destruct (level_narrow lat lon p q Hlat Hlon Hp Hq Hlp Hlq Hinp Hinq)
    as (Hn & Hn').
  fold b i j b' in Hi, Hj, Hrow, Hrow', Hcol, Hcol', Hn, Hn'.
  destruct (grid_access (3 - i) j ltac:(lia) Hj) as (line & Hline & Hget).
  destruct (quarter_symbol_spec i j Hi Hj) as (ch & Hch & _).
  assert (Hok : level_ok (number (3 - i)) (number j)).
  { split; [exists (3 - i)%nat; split; [lia|reflexivity]|].
    split; [exists j; split; [exact Hj|reflexivity]|].
    unfold grid_entry. rewrite Hline. cbn [mbind option_bind].
    rewrite Hget. fold (quarter_symbol i j). rewrite Hch. eauto. }
  split; [rewrite Hrow, Hcol; exact Hok|].
  split; [rewrite Hrow', Hcol'; exact Hok|].
  split; intros result.
  - unfold encode_level. cbn [cell out]. rewrite Hrow, Hcol, Hline, Hget, Hn.
    fold (quarter_symbol i j).
    destruct (bool_decide _); [rewrite <- app_assoc|rewrite app_nil_r];
      reflexivity.
  - unfold Typed.encode_level. cbn [Typed.cell Typed.out].
    rewrite Hrow', Hcol', Hline, Hget, Hn'. fold (quarter_symbol i j).
    destruct (bool_decide _);
      [rewrite string_app_assoc|rewrite string_app_empty]; reflexivity.
Qed.

End EncodeLoop.

Section EncodeRun.

Variables lat lon : float.
Hypothesis Hlat : exists m e, Prim2SF lat = S754_finite false m e.
Hypothesis Hlon : exists m e, Prim2SF lon = S754_finite false m e.

Lemma valid_path_nil : valid_path [].
Proof. constructor. Qed.

Lemma valid_path_snoc (p : list nat) (i : nat) :
  valid_path p -> (i < 4)%nat -> valid_path (p ++ [i]).
Proof.
  intros Hp Hi. apply Forall_app. split; [exact Hp|].
  constructor; [exact Hi|constructor].
Qed.

Lemma encode_loop (n : nat) :
  forall (p q : list nat) (result : list (option ascii)),
    valid_path p -> valid_path q -> length q = length p ->
    (length p + n <= 10)%nat ->
    contains latitude_axis p lat -> contains longitude_axis q lon ->
    let ps := axis_path lat (fst (cell_of latitude_axis p))
                (snd (cell_of latitude_axis p)) n in
    let qs := axis_path lon (fst (cell_of longitude_axis q))
                (snd (cell_of longitude_axis q)) n in
    let s := {| cell := rectangle (cell_of latitude_axis p)
                          (cell_of longitude_axis q);
                out := result |} in
    for_loop (encode_level lat lon) (seq (length p) n) s
    = Ok {| cell := rectangle (cell_of latitude_axis (p ++ ps))
                      (cell_of longitude_axis (q ++ qs));
            out := result ++ emitted (length p) ps qs |} /\
    Forall (fun s => level_ok (grid_row lat (cell s)) (grid_col lon (cell s)))
      (loop_states (encode_level lat lon) (seq (length p) n) s) /\
    length (loop_states (encode_level lat lon) (seq (length p) n) s) = n.
Proof.
  induction n as [|n IH]; intros p q result Hp Hq Hlq Hlen Hinp Hinq;
    cbv zeta.
  - cbn [axis_path seq for_loop loop_states emitted length].
    rewrite !app_nil_r. split; [reflexivity|]. split; [constructor|reflexivity].
  - cbn [axis_path seq for_loop loop_states].
    rewrite <- !cell_of_app.
    set (i := quarter lat (fst (cell_of latitude_axis p))
                (snd (cell_of latitude_axis p))).
    set (j := quarter lon (fst (cell_of longitude_axis q))
                (snd (cell_of longitude_axis q))).
    destruct (encode_level_spec lat lon Hlat Hlon p q (length p) Hp Hq
                ltac:(lia) ltac:(lia) Hinp Hinq) as (Hok & _ & Henc & _).
    destruct (level_lat lat p q Hlat Hp ltac:(lia) Hinp)
      as (Hi & _ & _ & _ & Hinp').
    destruct (level_lon lon p q Hlon Hq ltac:(lia) Hinq)
      as (Hj & _ & _ & Hinq').
    fold i j in Henc, Hi, Hj, Hinp', Hinq'.
    rewrite Henc. cbn [bind].
    pose proof (valid_path_snoc p i Hp Hi) as Hp'.
    pose proof (valid_path_snoc q j Hq Hj) as Hq'.
    assert (Hl : length (p ++ [i]) = S (length p))
      by (rewrite length_app; cbn [length]; lia).
    assert (Hl' : length (q ++ [j]) = length (p ++ [i]))
      by (rewrite !length_app; cbn [length]; lia).
    specialize (IH (p ++ [i]) (q ++ [j])
                  (result ++ [quarter_symbol i j]
                   ++ (if bool_decide ((length p + 1)%nat ∈ HYPHEN_POSITIONS)
                       then [Some "-"%char] else []))
                  Hp' Hq' Hl' ltac:(rewrite Hl; lia) Hinp' Hinq').
    cbv zeta in IH. rewrite Hl in IH. destruct IH as (IH1 & IH2 & IH3).
    rewrite IH1, <- !app_assoc. cbn [app emitted].
    split; [reflexivity|]. split.
    + constructor; [exact Hok|exact IH2].
    + cbn [length]. f_equal. exact IH3.
Qed.

Lemma typed_encode_loop (n : nat) :
  forall (p q : list nat) (result : string),
    valid_path p -> valid_path q -> length q = length p ->
    (length p + n <= 10)%nat ->
    contains latitude_axis p lat -> contains longitude_axis q lon ->
    let ps := axis_path lat (fst (cell_of latitude_axis p))
                (snd (cell_of latitude_axis p)) n in
    let qs := axis_path lon (fst (cell_of longitude_axis q))
                (snd (cell_of longitude_axis q)) n in
    let s := {| Typed.cell := rectangle (cell_of latitude_axis p)
                                (cell_of longitude_axis q);
                Typed.out := result |} in
    for_loop (Typed.encode_level lat lon) (seq (length p) n) s
    = Ok {| Typed.cell := rectangle (cell_of latitude_axis (p ++ ps))
                            (cell_of longitude_axis (q ++ qs));
            Typed.out := (result ++ typed_emitted (length p) ps qs)%string |}
    /\
    Forall (fun s => level_ok (Typed.grid_row lat (Typed.cell s))
                       (Typed.grid_col lon (Typed.cell s)))
      (loop_states (Typed.encode_level lat lon) (seq (length p) n) s) /\
    length (loop_states (Typed.encode_level lat lon) (seq (length p) n) s)
    = n.
Proof.
  induction n as [|n IH]; intros p q result Hp Hq Hlq Hlen Hinp Hinq;
    cbv zeta.
  - cbn [axis_path seq for_loop loop_states typed_emitted length].
    rewrite !app_nil_r, string_app_empty.
    split; [reflexivity|]. split; [constructor|reflexivity].
  - cbn [axis_path seq for_loop loop_states].
    rewrite <- !cell_of_app.
    set (i := quarter lat (fst (cell_of latitude_axis p))
                (snd (cell_of latitude_axis p))).
    set (j := quarter lon (fst (cell_of longitude_axis q))
                (snd (cell_of longitude_axis q))).
    destruct (encode_level_spec lat lon Hlat Hlon p q (length p) Hp Hq
                ltac:(lia) ltac:(lia) Hinp Hinq) as (_ & Hok & _ & Henc).
    destruct (level_lat lat p q Hlat Hp ltac:(lia) Hinp)
      as (Hi & _ & _ & _ & Hinp').
    destruct (level_lon lon p q Hlon Hq ltac:(lia) Hinq)
      as (Hj & _ & _ & Hinq').
    fold i j in Henc, Hi, Hj, Hinp', Hinq'.
    rewrite Henc. cbn [bind].
    pose proof (valid_path_snoc p i Hp Hi) as Hp'.
    pose proof (valid_path_snoc q j Hq Hj) as Hq'.
    assert (Hl : length (p ++ [i]) = S (length p))
      by (rewrite length_app; cbn [length]; lia).
    assert (Hl' : length (q ++ [j]) = length (p ++ [i]))
      by (rewrite !length_app; cbn [length]; lia).
    specialize (IH (p ++ [i]) (q ++ [j])
                  (result ++ Typed.appended (quarter_symbol i j)
                   ++ (if bool_decide (length p = 2%nat \/ length p = 5%nat)
                       then "-" else ""))%string
                  Hp' Hq' Hl' ltac:(rewrite Hl; lia) Hinp' Hinq').
    cbv zeta in IH. rewrite Hl in IH. destruct IH as (IH1 & IH2 & IH3).
    rewrite IH1, <- !app_assoc, !string_app_assoc.
    cbn [app typed_emitted].
    split; [reflexivity|]. split.
    + constructor; [exact Hok|exact IH2].
    + cbn [length]. f_equal. exact IH3.
Qed.

End EncodeRun.

(** ** The lookup map *)

Lemma lookup_alphabet (c : ascii) :
  is_Some (CHAR_TO_POSITION !! c) <-> c ∈ alphabet.
Proof.
  assert (H : bool_decide (is_Some (CHAR_TO_POSITION !! c))
              = bool_decide (c ∈ alphabet)).
  { destruct c as [[] [] [] [] [] [] [] []]; vm_compute; reflexivity. }
  rewrite <- (bool_decide_spec (is_Some _)), H.
  apply bool_decide_spec.
Qed.

Lemma lookup_position (c : ascii) (p : position) :
  CHAR_TO_POSITION !! c = Some p ->
  (row p < 4)%nat /\ (col p < 4)%nat /\ symbolAt (row p) (col p) = Some c.
Proof.
  destruct c as [[] [] [] [] [] [] [] []]; vm_compute;
    intros H; try discriminate H; injection H as <-; repeat split; lia.
Qed.

Lemma symbolAt_position (r c : nat) (ch : ascii) :
  symbolAt r c = Some ch ->
  CHAR_TO_POSITION !! ch = Some {| row := r; col := c |}.
Proof.
  destruct r as [|[|[|[|r]]]]; try discriminate;
    destruct c as [|[|[|[|c]]]]; try discriminate;
    intros [= <-]; vm_compute; reflexivity.
Qed.

(** ** The loop of the decoder *)

Lemma paths_snoc (l : list ascii) (c : ascii) (pos : position) :
  CHAR_TO_POSITION !! c = Some pos ->
  lat_path (l ++ [c]) = lat_path l ++ [(3 - row pos)%nat] /\
  lon_path (l ++ [c]) = lon_path l ++ [col pos].
Proof.
  intros Hpos. unfold lat_path, lon_path. rewrite !omap_app.
  cbn [omap list_omap]. rewrite Hpos. split; reflexivity.
Qed.

Lemma paths_spec (l : list ascii) :
  Forall (.∈ alphabet) l ->
  valid_path (lat_path l) /\ valid_path (lon_path l) /\
  length (lat_path l) = length l /\ length (lon_path l) = length l.
Proof.
  induction l as [|c l IH] using rev_ind; intros Hall.
  - repeat split; constructor.
  - apply Forall_app in Hall as [Hall Hc]. apply Forall_inv in Hc.
    apply lookup_alphabet in Hc as [pos Hpos].
    destruct (lookup_position c pos Hpos) as (Hr & Hc & _).
    destruct (paths_snoc l c pos Hpos) as [-> ->].
    destruct (IH Hall) as (V1 & V2 & L1 & L2).
    split; [apply valid_path_snoc; [exact V1|lia]|].
    split; [apply valid_path_snoc; [exact V2|exact Hc]|].
    rewrite !length_app, L1, L2. split; reflexivity.
Qed.

Section DecodeRun.

Variable pin : list ascii.
Hypothesis Hpin : Forall (.∈ alphabet) pin.
Hypothesis Hlen : (length pin <= 10)%nat.

Lemma decode_symbol_spec (k : nat) :
  (k < length pin)%nat ->
  decode_symbol refine pin k (code_rectangle (take k pin))
  = Ok (code_rectangle (take (S k) pin)) /\
  decode_symbol Typed.refine pin k (code_rectangle (take k pin))
  = Ok (code_rectangle (take (S k) pin)) /\
  nested (code_rectangle (take k pin)) BOUNDS.
Proof.
  intros Hk.
  destruct (lookup_lt_is_Some_2 pin k Hk) as [c Hc].
  pose proof (Forall_lookup_1 _ _ _ _ Hpin Hc) as Hin.
  apply lookup_alphabet in Hin as [pos Hpos].
  destruct (lookup_position c pos Hpos) as (Hr & Hcol & _).
  destruct (paths_spec (take k pin) (Forall_take _ _ _ Hpin))
    as (V1 & V2 & L1 & L2).
  rewrite length_take in L1, L2.
  destruct (refine_spec (lat_path (take k pin)) (lon_path (take k pin))
              (3 - row pos) (col pos) V1 V2 ltac:(lia) ltac:(lia)
              ltac:(lia) Hcol) as (H1 & H2).
  replace (3 - (3 - row pos))%nat with (row pos) in H1, H2 by lia.
  assert (Hpos' : {| row := row pos; col := col pos |} = pos)
    by (destruct pos; reflexivity).
  rewrite Hpos' in H1, H2.
  rewrite (take_S_r _ _ _ Hc).
  destruct (paths_snoc (take k pin) c pos Hpos) as [E1 E2].
  unfold decode_symbol. rewrite Hc. cbn [mbind option_bind]. rewrite Hpos.
  unfold code_rectangle at 2 4. rewrite E1, E2.
  split; [f_equal; exact H1|]. split; [f_equal; exact H2|].
  apply rectangle_nested; [exact V1|exact V2|lia|lia].
Qed.

Lemma decode_loop_spec (n : nat) :
  forall k : nat,
    (k + n <= length pin)%nat ->
    let b := code_rectangle (take k pin) in
    for_loop (decode_symbol refine pin) (seq k n) b
    = Ok (code_rectangle (take (k + n) pin)) /\
    for_loop (decode_symbol Typed.refine pin) (seq k n) b
    = Ok (code_rectangle (take (k + n) pin)) /\
    Forall (fun b => nested b BOUNDS)
      (loop_states (decode_symbol refine pin) (seq k n) b) /\
    length (loop_states (decode_symbol refine pin) (seq k n) b) = n /\
    loop_states (decode_symbol Typed.refine pin) (seq k n) b
    = loop_states (decode_symbol refine pin) (seq k n) b.
Proof.
  induction n as [|n IH]; intros k Hk; cbv zeta.
  - rewrite Nat.add_0_r. cbn [seq for_loop loop_states length].
    repeat split; constructor.
  - cbn [seq for_loop loop_states].
    destruct (decode_symbol_spec k ltac:(lia)) as (H1 & H2 & H3).
    rewrite H1, H2. cbn [bind].
    destruct (IH (S k) ltac:(lia)) as (I1 & I2 & I3 & I4 & I5).
    replace (k + S n)%nat with (S k + n)%nat by lia.
    split; [exact I1|]. split; [exact I2|]. split; [|split].
    + constructor; [exact H3|exact I3].
    + cbn [length]. f_equal. exact I4.
    + f_equal. exact I5.
Qed.

End DecodeRun.

(** The rectangle that the decoder reaches on a valid code is the one of
    the cells that its symbols select; the loop passes through rectangles
    that lie within the bounding box. *)
Lemma decode_bounds_spec (digiPin : string) :
  valid_code digiPin ->
  let pin := stripped digiPin in
  decode_bounds refine digiPin = Ok (code_rectangle pin) /\
  decode_bounds Typed.refine digiPin = Ok (code_rectangle pin) /\
  Forall (fun b => nested b BOUNDS)
    (loop_states (decode_symbol refine pin) (seq 0 DIGIPIN_LENGTH) BOUNDS) /\
  length (loop_states (decode_symbol refine pin) (seq 0 DIGIPIN_LENGTH)
            BOUNDS) = DIGIPIN_LENGTH /\
  loop_states (decode_symbol Typed.refine pin) (seq 0 DIGIPIN_LENGTH) BOUNDS
  = loop_states (decode_symbol refine pin) (seq 0 DIGIPIN_LENGTH) BOUNDS.
Proof.
  intros [Hlen Hall] pin. fold pin in Hlen, Hall.
  destruct (decode_loop_spec pin Hall ltac:(rewrite Hlen; reflexivity)
              DIGIPIN_LENGTH 0 ltac:(rewrite Hlen; reflexivity))
    as (H1 & H2 & H3 & H4 & H5).
  cbv zeta in H1, H2, H3, H4, H5.
  change (code_rectangle (take 0 pin)) with BOUNDS in H1, H2, H3, H4, H5.
  change (0 + DIGIPIN_LENGTH)%nat with DIGIPIN_LENGTH in H1, H2.
  rewrite <- Hlen, firstn_all in H1, H2. rewrite Hlen in H1, H2.
  unfold decode_bounds. fold (stripped digiPin). fold pin.
  rewrite bool_decide_eq_false_2 by (intros H; exact (H Hlen)).
  split; [exact H1|]. split; [exact H2|]. split; [exact H3|].
  split; [exact H4|exact H5].
Qed.

(** ** The code that the encoder builds *)

Lemma remove_hyphens_symbol (ch : ascii) (l : list ascii) :
  ch <> "-"%char -> remove_hyphens (ch :: l) = ch :: remove_hyphens l.
Proof. intros H. unfold remove_hyphens. rewrite filter_cons_True; auto. Qed.

Lemma remove_hyphens_hyphen (l : list ascii) :
  remove_hyphens ("-"%char :: l) = remove_hyphens l.
Proof. unfold remove_hyphens. rewrite filter_cons_False; auto. Qed.

Lemma paths_cons (l : list ascii) (c : ascii) (pos : position) :
  CHAR_TO_POSITION !! c = Some pos ->
  lat_path (c :: l) = (3 - row pos)%nat :: lat_path l /\
  lon_path (c :: l) = col pos :: lon_path l.
Proof.
  intros Hpos. unfold lat_path, lon_path.
  cbn [omap list_omap]. rewrite Hpos. split; reflexivity.
Qed.

(** The symbols of the code for two paths of quarters select these paths,
    and the two variants build the same string. *)
Lemma emitted_spec (ps : list nat) :
  forall (qs : list nat) (level : nat),
    valid_path ps -> valid_path qs -> length qs = length ps ->
    let pin := remove_hyphens (omap (fun entry => entry)
                                 (emitted level ps qs)) in
    length pin = length ps /\ Forall (.∈ alphabet) pin /\
    lat_path pin = ps /\ lon_path pin = qs /\
    join (emitted level ps qs) = typed_emitted level ps qs.
Proof.
  induction ps as [|i ps IH]; intros [|j qs] level Hp Hq Hlen;
    try discriminate Hlen.
  - cbv zeta. cbn. repeat split; constructor.
  - apply Forall_cons in Hp as [Hi Hp]. apply Forall_cons in Hq as [Hj Hq].
    injection Hlen as Hlen.
    destruct (IH qs (S level) Hp Hq Hlen) as (I1 & I2 & I3 & I4 & I5).
    destruct (quarter_symbol_spec i j Hi Hj) as (ch & Hch & Hne & Hpos).
    cbv zeta in *. cbn [emitted typed_emitted]. rewrite Hch, hyphen_positions.
    unfold join in *. rewrite !omap_app.
    set (rest := omap (fun entry => entry) (emitted (S level) ps qs)) in *.
    destruct (paths_cons (remove_hyphens rest) ch _ Hpos) as [E1 E2].
    cbn [row col] in E1, E2.
    replace (3 - (3 - i))%nat with i in E1 by lia.
    assert (Hin : ch ∈ alphabet) by (apply lookup_alphabet; eauto).
    destruct (bool_decide (level = 2%nat \/ level = 5%nat));
      cbn [omap list_omap app Typed.appended];
      rewrite ?string_app_cons;
      rewrite (remove_hyphens_symbol _ _ Hne), ?remove_hyphens_hyphen, E1, E2;
      cbn [length string_of_list_ascii]; rewrite I1, I3, I4, I5;
      (split; [reflexivity|]); (split; [constructor; assumption|]);
      (split; [reflexivity|]); (split; [reflexivity|]); reflexivity.
Qed.

(** ** The encoder on the inputs within the bounds *)

Section Encode.

Variables lat lon : float.
Hypothesis Hin : in_bounds lat lon.

Let ps := axis_path lat (axis_lo latitude_axis) (axis_hi latitude_axis) 10.
Let qs := axis_path lon (axis_lo longitude_axis) (axis_hi longitude_axis) 10.

Lemma encode_inputs :
  ((exists m e, Prim2SF lat = S754_finite false m e) /\
   contains latitude_axis [] lat /\
   (lat <? minLat BOUNDS) || (maxLat BOUNDS <? lat) = false) /\
  ((exists m e, Prim2SF lon = S754_finite false m e) /\
   contains longitude_axis [] lon /\
   (lon <? minLon BOUNDS) || (maxLon BOUNDS <? lon) = false).
Proof.
  destruct Hin as (H1 & H2 & H3 & H4). split.
  - exact (input_spec latitude_axis latitude_checked lat H1 H2).
  - exact (input_spec longitude_axis longitude_checked lon H3 H4).
Qed.

Lemma encode_paths :
  (valid_path ps /\ length ps = 10%nat /\ contains latitude_axis ps lat) /\
  (valid_path qs /\ length qs = 10%nat /\ contains longitude_axis qs lon).
Proof.
  destruct encode_inputs as ((Hlat & Hc & _) & (Hlon & Hc' & _)). split.
  - pose proof (axis_path_spec latitude_axis latitude_checked lat 10 []
                  Hlat valid_path_nil (le_n 10) Hc) as H.
    cbv zeta in H. rewrite !app_nil_l in H. exact H.
  - pose proof (axis_path_spec longitude_axis longitude_checked lon 10 []
                  Hlon valid_path_nil (le_n 10) Hc') as H.
    cbv zeta in H. rewrite !app_nil_l in H. exact H.
Qed.

Lemma encode_run :
  for_loop (encode_level lat lon) (seq 0 DIGIPIN_LENGTH)
    {| cell := BOUNDS; out := [] |}
  = Ok {| cell := rectangle (cell_of latitude_axis ps)
                    (cell_of longitude_axis qs);
          out := emitted 0 ps qs |} /\
  Forall (fun s => level_ok (grid_row lat (cell s)) (grid_col lon (cell s)))
    (loop_states (encode_level lat lon) (seq 0 DIGIPIN_LENGTH)
       {| cell := BOUNDS; out := [] |}) /\
  length (loop_states (encode_level lat lon) (seq 0 DIGIPIN_LENGTH)
            {| cell := BOUNDS; out := [] |}) = DIGIPIN_LENGTH.
Proof.
  destruct encode_inputs as ((Hlat & Hc & _) & (Hlon & Hc' & _)).
  pose proof (encode_loop lat lon Hlat Hlon 10 [] [] [] valid_path_nil
                valid_path_nil eq_refl (le_n 10) Hc Hc') as H.
  cbv zeta in H. rewrite !app_nil_l in H. exact H.
Qed.

Lemma typed_encode_run :
  for_loop (Typed.encode_level lat lon) (seq 0 DIGIPIN_LENGTH)
    {| Typed.cell := BOUNDS; Typed.out := EmptyString |}
  = Ok {| Typed.cell := rectangle (cell_of latitude_axis ps)
                          (cell_of longitude_axis qs);
          Typed.out := typed_emitted 0 ps qs |} /\
  Forall (fun s => level_ok (Typed.grid_row lat (Typed.cell s))
                     (Typed.grid_col lon (Typed.cell s)))
    (loop_states (Typed.encode_level lat lon) (seq 0 DIGIPIN_LENGTH)
       {| Typed.cell := BOUNDS; Typed.out := EmptyString |}) /\
  length (loop_states (Typed.encode_level lat lon) (seq 0 DIGIPIN_LENGTH)
            {| Typed.cell := BOUNDS; Typed.out := EmptyString |})
  = DIGIPIN_LENGTH.
Proof.
  destruct encode_inputs as ((Hlat & Hc & _) & (Hlon & Hc' & _)).
  pose proof (typed_encode_loop lat lon Hlat Hlon 10 [] [] EmptyString
                valid_path_nil valid_path_nil eq_refl (le_n 10) Hc Hc') as H.
  cbv zeta in H. rewrite !app_nil_l in H.
  rewrite string_app_nil_l in H. exact H.
Qed.

(** The two variants return the same code, whose symbols select the
    quarters that contain the input. *)
Lemma encode_code :
  getDigiPin lat lon = Ok (join (emitted 0 ps qs)) /\
  Typed.getDigiPin lat lon = Ok (join (emitted 0 ps qs)) /\
  valid_code (join (emitted 0 ps qs)) /\
  lat_path (stripped (join (emitted 0 ps qs))) = ps /\
  lon_path (stripped (join (emitted 0 ps qs))) = qs.
Proof.
  destruct encode_inputs as ((_ & _ & Hv) & (_ & _ & Hv')).
  destruct encode_paths as ((Vp & Lp & _) & (Vq & Lq & _)).
  destruct encode_run as (Hrun & _). destruct typed_encode_run as (Hrun' & _).
  destruct (emitted_spec ps qs 0 Vp Vq ltac:(lia))
    as (E1 & E2 & E3 & E4 & E5).
  cbv zeta in E1, E2, E3, E4.
  assert (Hs : stripped (join (emitted 0 ps qs))
               = remove_hyphens (omap (fun entry => entry)
                                   (emitted 0 ps qs))).
  { unfold stripped, join. rewrite list_ascii_of_string_of_list_ascii.
    reflexivity. }
  split; [|split; [|split; [|split]]].
  - unfold getDigiPin. rewrite Hv, Hv', Hrun. reflexivity.
  - unfold Typed.getDigiPin. rewrite Hv, Hv', Hrun', E5. reflexivity.
  - unfold valid_code. rewrite Hs, E1. split; [exact Lp|exact E2].
  - rewrite Hs. exact E3.
  - rewrite Hs. exact E4.
Qed.

End Encode.

(** ** The decoder on the valid codes *)

Lemma decode_spec (digiPin : string) :
  valid_code digiPin ->
  let pin := stripped digiPin in
  let n := micro_units (units_of latitude_axis (lat_path pin) + 18) in
  let m := micro_units (units_of longitude_axis (lon_path pin) + 18) in
  getLatLngFromDigiPin digiPin
  = Ok {| latitude := Digits (with_point 6 n);
          longitude := Digits (with_point 6 m) |} /\
  Typed.getLatLngFromDigiPin digiPin
  = Ok {| latitude := of_uint63 (Uint63.of_Z n) / 1000000;
          longitude := of_uint63 (Uint63.of_Z m) / 1000000 |}.
Proof.
  intros Hvalid pin n m.
  destruct (decode_bounds_spec digiPin Hvalid) as (H1 & H2 & _).
  destruct Hvalid as [Hlen Hall]. fold pin in H1, H2, Hlen, Hall.
  destruct (paths_spec pin Hall) as (V1 & V2 & L1 & L2).
  rewrite Hlen in L1, L2.
  unfold getLatLngFromDigiPin, Typed.getLatLngFromDigiPin.
  rewrite H1, H2. cbn [bind]. split.
  - change (centerLat (code_rectangle pin))
      with (centre (cell_of latitude_axis (lat_path pin))).
    change (centerLon (code_rectangle pin))
      with (centre (cell_of longitude_axis (lon_path pin))).
    rewrite (leaf_toFixed latitude_axis latitude_checked _ V1 L1).
    rewrite (leaf_toFixed longitude_axis longitude_checked _ V2 L2).
    reflexivity.
  - change (centerLat (code_rectangle pin))
      with (centre (cell_of latitude_axis (lat_path pin))).
    change (centerLon (code_rectangle pin))
      with (centre (cell_of longitude_axis (lon_path pin))).
    destruct (leaf_round6 latitude_axis latitude_checked _ V1 L1) as (-> & _).
    destruct (leaf_round6 longitude_axis longitude_checked _ V2 L2)
      as (-> & _).
    reflexivity.
Qed.

(** A number in a final cell is close to what the decoder returns for the
    cell. *)
Lemma centre_close (a : axis_kind) (p : list nat) (x : float) (r : R) :
  length p = 10%nat -> contains a p x ->
  let u := units_of a p in
  ((Rabs (IZR (micro_units (u + 18)) / 1000000 - F2R x) < 1 / 10000)%R) /\
  ((IZR (u + 17) * bpow (-20) <= r <= IZR (u + 19) * bpow (-20))%R ->
   (Rabs (r - F2R x) < 1 / 10000)%R).
Proof.
  intros Hlen Hin u. unfold contains in Hin. rewrite Hlen in Hin. fold u in Hin.
  change (cell_width 10) with 36%Z in Hin.
  pose proof (micro_units_spec (u + 18)) as [H1 H2].
  apply IZR_le in H1. apply IZR_lt in H2.
  rewrite !plus_IZR, !mult_IZR, ?plus_IZR in *.
  rewrite (bpow_neg_num 20) in *.
  change (IZR (2 ^ Z.pos 20)) with 1048576%R in *.
  rewrite ?plus_IZR, ?mult_IZR in *.
  split; [|intros Hr]; apply Rabs_def1; lra.
Qed.

Lemma micro_units_mono (u v : Z) :
  (u <= v)%Z -> (micro_units u <= micro_units v)%Z.
Proof.
  intros H. unfold micro_units. rewrite !Z.shiftr_div_pow2 by lia.
  apply Z.div_le_mono; lia.
Qed.

(** The integer printed for the centre of a final cell is one of those
    printed for the centres of the first and of the last cell of the
    axis. *)
Lemma leaf_micro_range (a : axis_kind) (p : list nat) :
  valid_path p -> length p = 10%nat ->
  (micro_units (axis_units a + 18)
   <= micro_units (units_of a p + 18)
   <= micro_units (axis_units a + cell_width 0 - 18))%Z.
Proof.
  intros Hp Hlen.
  destruct (descend_units_bounds p (axis_units a) 0 Hp
              ltac:(rewrite Hlen; cbn; lia)) as [H1 H2].
  rewrite Hlen in H2. change (cell_width (0 + 10)) with 36%Z in H2.
  fold (units_of a p) in H1, H2.
  split; apply micro_units_mono; lia.
Qed.

(** The centre of the rectangle of a valid code, the number nearest to the
    decimal that [index.ts] prints for it, and the final rectangle, all
    lie within the bounding box. *)
Lemma decode_nested (pin : list ascii) :
  Forall (.∈ alphabet) pin -> length pin = DIGIPIN_LENGTH ->
  let b := code_rectangle pin in
  let n := micro_units (units_of latitude_axis (lat_path pin) + 18) in
  let m := micro_units (units_of longitude_axis (lon_path pin) + 18) in
  nested b BOUNDS /\
  in_bounds (centerLat b) (centerLon b) /\
  in_bounds (of_uint63 (Uint63.of_Z n) / 1000000)
    (of_uint63 (Uint63.of_Z m) / 1000000) /\
  (2500000 <= n <= 38500000)%Z /\ (63500000 <= m <= 99500000)%Z.
Proof.
  intros Hall Hlen b n m.
  destruct (paths_spec pin Hall) as (V1 & V2 & L1 & L2).
  rewrite Hlen in L1, L2.
  destruct (leaf_box latitude_axis latitude_checked _ V1 L1) as (B1 & B2 & B3).
  destruct (leaf_box longitude_axis longitude_checked _ V2 L2)
    as (B4 & B5 & B6).
  destruct (leaf_centre latitude_axis latitude_checked _ V1 L1)
    as (_ & _ & C1 & C2).
  destruct (leaf_centre longitude_axis longitude_checked _ V2 L2)
    as (_ & _ & C3 & C4).
  destruct (leaf_round6 latitude_axis latitude_checked _ V1 L1)
    as (_ & _ & _ & R1 & R2).
  destruct (leaf_round6 longitude_axis longitude_checked _ V2 L2)
    as (_ & _ & _ & R3 & R4).
  pose proof (leaf_micro_range latitude_axis _ V1 L1) as M1.
  pose proof (leaf_micro_range longitude_axis _ V2 L2) as M2.
  change (micro_units (axis_units latitude_axis + 18)) with 2500017%Z in M1.
  change (micro_units (axis_units latitude_axis + cell_width 0 - 18))
    with 38499983%Z in M1.
  change (micro_units (axis_units longitude_axis + 18)) with 63500017%Z in M2.
  change (micro_units (axis_units longitude_axis + cell_width 0 - 18))
    with 99499983%Z in M2.
  split; [repeat split; assumption|].
  split; [repeat split; assumption|].
  split; [repeat split; assumption|].
  fold n in M1. fold m in M2. lia.
Qed.

(** ** The validation of the encoder *)

(** A number that is not NaN and is not below a positive number is at
    least that number, and likewise from above. *)
Lemma compare_total (x y : float) (my : positive) (ey : Z) :
  Prim2SF y = S754_finite false my ey -> is_nan x = false ->
  ((x <? y) = false -> (y <=? x) = true) /\
  ((y <? x) = false -> (x <=? y) = true).
Proof.
  intros Hy Hnan. unfold is_nan in Hnan.
  rewrite FloatAxioms.eqb_spec in Hnan.
  rewrite !FloatAxioms.ltb_spec, !FloatAxioms.leb_spec, Hy.
  pose proof (Prim2SF_valid x) as Vx. pose proof (Prim2SF_valid y) as Vy.
  rewrite Hy in Vy.
  destruct (Prim2SF x) as [s|s| |s m e]; try discriminate Hnan.
  - split; intros H; [discriminate H|reflexivity].
  - destruct s; split; intros H; try discriminate H; reflexivity.
  - destruct s.
    + split; intros H; [discriminate H|reflexivity].
    + pose proof (SFcompare_pos m my e ey Vx Vy) as C1.
      pose proof (SFcompare_pos my m ey e Vy Vx) as C2.
      unfold SFltb, SFleb.
      destruct (SFcompare (S754_finite false m e) (S754_finite false my ey))
        as [[]|];
        destruct (SFcompare (S754_finite false my ey) (S754_finite false m e))
          as [[]|];
        split; intros H; try reflexivity; try discriminate H;
        try contradiction; lra.
Qed.

(** For numbers that are not NaN, passing the validation is lying within
    the bounds. *)
Lemma validation_spec (lat lon : float) :
  is_nan lat = false -> is_nan lon = false ->
  ((lat <? minLat BOUNDS) || (maxLat BOUNDS <? lat) = false /\
   (lon <? minLon BOUNDS) || (maxLon BOUNDS <? lon) = false)
  <-> in_bounds lat lon.
Proof.
  intros Hlat Hlon. split.
  - intros [H1 H2].
    apply orb_false_elim in H1 as [H1 H1'], H2 as [H2 H2'].
    repeat split.
    + exact (proj1 (compare_total lat 2.5 _ _ eq_refl Hlat) H1).
    + exact (proj2 (compare_total lat 38.5 _ _ eq_refl Hlat) H1').
    + exact (proj1 (compare_total lon 63.5 _ _ eq_refl Hlon) H2).
    + exact (proj2 (compare_total lon 99.5 _ _ eq_refl Hlon) H2').
  - intros Hin.
    destruct (encode_inputs lat lon Hin) as ((_ & _ & H1) & (_ & _ & H2)).
    split; assumption.
Qed.

(** ** The cells, without the tree *)

Section Cells.

Variable a : axis_kind.
Hypothesis Ha : checked a.

(** The bounds of the cell of a path are the numbers of units that
    [units_of] computes. *)
Lemma cell_of_units (p : list nat) :
  valid_path p -> (length p <= 10)%nat ->
  cell_of a p
  = (of_units (units_of a p),
     of_units (units_of a p + cell_width (length p))) /\
  (axis_units a <= units_of a p)%Z /\
  (units_of a p + cell_width (length p)
   <= axis_units a + cell_width 0)%Z.
Proof.
  destruct Ha as (_ & Hu & Hlo & Hhi).
  induction p as [|i p IH] using rev_ind; intros Hp Hlen.
  - cbn [length]. unfold cell_of, units_of. cbn [descend descend_units].
    rewrite Hlo, Hhi. split; [reflexivity|lia].
  - apply Forall_app in Hp as [Hp Hi]. apply Forall_inv in Hi.
    rewrite length_app in Hlen |- *. cbn [length] in Hlen |- *.
    destruct (IH Hp ltac:(lia)) as (Ecell & B1 & B2).
    destruct (quarter_holds a Hu Hlo Hhi (length p) _ _ _ ltac:(lia) B1 B2
                (f_equal fst Ecell) (f_equal snd Ecell) i ltac:(lia) Hi)
      as (_ & E1 & E2).
    cbv zeta in E1, E2. cbn [fst snd] in E1, E2.
    rewrite cell_of_app, units_of_app.
    replace (length p + 1)%nat with (S (length p)) by lia.
    rewrite Ecell. cbn [fst snd].
    pose proof (cell_width_quarter (length p) ltac:(lia)) as Hq.
    pose proof (cell_width_pos (S (length p)) ltac:(lia)) as Hw.
    split; [|nia].
    rewrite Ecell in E1, E2. cbn [fst snd] in E1, E2.
    rewrite <- E1, <- E2. destruct (axis_narrow _ _ _). reflexivity.
Qed.

(** A positive number within a cell compares with the bounds of the
    cell. *)
Lemma contains_leb (p : list nat) (x : float) :
  valid_path p -> (length p <= 10)%nat ->
  (exists m e, Prim2SF x = S754_finite false m e) ->
  contains a p x ->
  (fst (cell_of a p) <=? x) = true /\ (x <=? snd (cell_of a p)) = true.
Proof.
  intros Hp Hlen (m & e & Hx) Hin.
  destruct (cell_of_units p Hp Hlen) as (Ecell & B1 & B2).
  destruct Ha as (_ & Hu & _).
  pose proof (cell_width_pos (length p) ltac:(lia)) as Hw.
  assert (H27 : (2 ^ 27 < 2 ^ 53)%Z) by reflexivity.
  destruct (of_units_spec (units_of a p)) as (ml & el & Hl & Fl); [lia|].
  destruct (of_units_spec (units_of a p + cell_width (length p)))
    as (mh & eh & Hh & Fh); [lia|].
  rewrite Ecell. cbn [fst snd]. unfold contains in Hin. split.
  - apply (leb_true _ _ _ _ _ _ Hl Hx). rewrite Fl. exact (proj1 Hin).
  - apply (leb_true _ _ _ _ _ _ Hx Hh). rewrite Fh. exact (proj2 Hin).
Qed.

End Cells.

(** ** Encoding a number that lies inside a final cell *)

Lemma descend_units_prefix (p rest : list nat) :
  forall (u : Z) (k : nat),
    descend_units u k (p ++ rest)
    = descend_units (descend_units u k p) (k + length p) rest.
Proof.
  induction p as [|i p IH]; intros u k.
  - cbn [app descend_units length]. rewrite Nat.add_0_r. reflexivity.
  - cbn [app descend_units length]. rewrite IH. f_equal. lia.
Qed.

Lemma units_lt (A B : Z) (x : R) :
  (IZR A * bpow (-20) <= x)%R -> (x < IZR B * bpow (-20))%R -> (A < B)%Z.
Proof.
  intros H1 H2. apply lt_IZR. pose proof (bpow_pos (-20)). nra.
Qed.

Lemma units_lt' (A B : Z) (x : R) :
  (IZR A * bpow (-20) < x)%R -> (x <= IZR B * bpow (-20))%R -> (A < B)%Z.
Proof.
  intros H1 H2. apply lt_IZR. pose proof (bpow_pos (-20)). nra.
Qed.

Section Inside.

Variable a : axis_kind.
Hypothesis Ha : checked a.

(** The cell of a path lies within the cells of its prefixes. *)
Lemma units_of_prefix (p rest : list nat) :
  valid_path (p ++ rest) -> (length (p ++ rest) <= 10)%nat ->
  (units_of a p <= units_of a (p ++ rest))%Z /\
  (units_of a (p ++ rest) + cell_width (length (p ++ rest))
   <= units_of a p + cell_width (length p))%Z.
Proof.
  intros Hp Hlen. apply Forall_app in Hp as [_ Hrest].
  rewrite length_app in Hlen |- *.
  unfold units_of. rewrite descend_units_prefix. cbn [Nat.add].
  exact (descend_units_bounds rest _ (length p) Hrest ltac:(lia)).
Qed.

Variable x : float.
Hypothesis Hx : exists m e, Prim2SF x = S754_finite false m e.

(** The levels of the encoder choose the quarters of the final cell that
    has [x] in its interior. *)
Lemma axis_path_inside (rest : list nat) :
  forall p : list nat,
    valid_path (p ++ rest) -> length (p ++ rest) = 10%nat ->
    (IZR (units_of a (p ++ rest)) * bpow (-20) < F2R x
     < IZR (units_of a (p ++ rest) + 36) * bpow (-20))%R ->
    axis_path x (fst (cell_of a p)) (snd (cell_of a p)) (length rest) = rest.
Proof.
  destruct Ha as (Ht & Hu & _). destruct Hx as (m & e & Hm).
  induction rest as [|j rest IH]; intros p Hp Hlen Hin; [reflexivity|].
  cbn [axis_path length].
  assert (Hlp : (length p < 10)%nat)
    by (rewrite length_app in Hlen; cbn [length] in Hlen; lia).
  pose proof Hp as Hp'. apply Forall_app in Hp' as [Vp Vrest].
  apply Forall_cons in Vrest as [Hj Vrest].
  destruct (units_of_prefix p (j :: rest) Hp ltac:(lia)) as [P1 P2].
  rewrite Hlen in P2. change (cell_width 10) with 36%Z in P2.
  assert (Hc : contains a p x).
  { unfold contains. apply IZR_le in P1, P2. rewrite !plus_IZR in *.
    pose proof (bpow_pos (-20)). split; nra. }
  destruct (quarter_step a Ht Hu p x m e Vp Hlp Hm Hc)
    as (n & Hn & Hfloor & Hc').
  rewrite (quarter_of_floor _ _ _ n Hn Hfloor).
  set (i := Z.to_nat (Z.min 3 n)) in *.
  assert (Hp2 : valid_path ((p ++ [j]) ++ rest))
    by (rewrite <- app_assoc; exact Hp).
  assert (Hlen2 : length ((p ++ [j]) ++ rest) = 10%nat)
    by (rewrite <- app_assoc; exact Hlen).
  destruct (units_of_prefix (p ++ [j]) rest Hp2 ltac:(lia)) as [Q1 Q2].
  rewrite Hlen2 in Q2. change (cell_width 10) with 36%Z in Q2.
  rewrite <- app_assoc in Q1, Q2. cbn [app] in Q1, Q2.
  rewrite units_of_app in Q1, Q2. rewrite length_app in Q2.
  cbn [length] in Q2.
  replace (length p + 1)%nat with (S (length p)) in Q2 by lia.
  unfold contains in Hc'. rewrite units_of_app, length_app in Hc'.
  cbn [length] in Hc'.
  replace (length p + 1)%nat with (S (length p)) in Hc' by lia.
  pose proof (cell_width_pos (S (length p)) ltac:(lia)) as Hw.
  set (w := cell_width (S (length p))) in *.
  set (U := units_of a p) in *. set (L := units_of a (p ++ j :: rest)) in *.
  destruct Hin as [I1 I2]. destruct Hc' as [C1 C2].
  pose proof (units_lt' _ _ _ I1 C2) as H1.
  pose proof (units_lt _ _ _ C1 I2) as H2.
  assert (Hij : i = j) by nia.
  rewrite Hij, <- cell_of_app.
  rewrite (IH (p ++ [j]) Hp2 Hlen2); [reflexivity|].
  rewrite <- app_assoc. cbn [app]. fold L. split; assumption.
Qed.

End Inside.

(** The symbols of the alphabet are determined by the quarters that they
    select. *)
Lemma paths_inj (l1 : list ascii) :
  forall l2 : list ascii,
    Forall (.∈ alphabet) l1 -> Forall (.∈ alphabet) l2 ->
    lat_path l1 = lat_path l2 -> lon_path l1 = lon_path l2 -> l1 = l2.
Proof.
  induction l1 as [|c1 l1 IH]; intros [|c2 l2] H1 H2 E1 E2.
  - reflexivity.
  - apply Forall_cons in H2 as [Hc2 _].
    apply lookup_alphabet in Hc2 as [p2 Hp2].
    destruct (paths_cons l2 c2 p2 Hp2) as [F1 _]. rewrite F1 in E1.
    discriminate E1.
  - apply Forall_cons in H1 as [Hc1 _].
    apply lookup_alphabet in Hc1 as [p1 Hp1].
    destruct (paths_cons l1 c1 p1 Hp1) as [F1 _]. rewrite F1 in E1.
    discriminate E1.
  - apply Forall_cons in H1 as [Hc1 H1]. apply Forall_cons in H2 as [Hc2 H2].
    apply lookup_alphabet in Hc1 as [p1 Hp1].
    apply lookup_alphabet in Hc2 as [p2 Hp2].
    destruct (paths_cons l1 c1 p1 Hp1) as [F1 G1].
    destruct (paths_cons l2 c2 p2 Hp2) as [F2 G2].
    rewrite F1, F2 in E1. rewrite G1, G2 in E2.
    injection E1 as Er E1. injection E2 as Ec E2.
    destruct (lookup_position c1 p1 Hp1) as (R1 & _ & S1).
    destruct (lookup_position c2 p2 Hp2) as (R2 & _ & S2).
    assert (Hrow : row p1 = row p2) by lia.
    rewrite Hrow, Ec, S2 in S1. injection S1 as <-.
    f_equal. exact (IH l2 H1 H2 E1 E2).
Qed.

(** * Properties *)

(** ** The alphabet and its inverse *)

(** C4. The table and the lookup map are inverse to each other: every
    position of the 4 x 4 grid holds a symbol, the map sends that symbol
    back to the position, and no other position holds the same symbol. *)
Theorem alphabet_bijection (r c : nat) :
  (r < 4)%nat -> (c < 4)%nat ->
  exists ch,
    symbolAt r c = Some ch /\
    CHAR_TO_POSITION !! ch = Some {| row := r; col := c |} /\
    forall r' c', symbolAt r' c' = Some ch -> r' = r /\ c' = c.
Proof.
  intros Hr Hc.
  assert (exists ch, symbolAt r c = Some ch) as [ch Hch].
  { destruct r as [|[|[|[|r]]]]; try lia;
      destruct c as [|[|[|[|c]]]]; try lia; eexists; reflexivity. }
  exists ch. split; [exact Hch|].
  pose proof (symbolAt_position _ _ _ Hch) as Hpos.
  split; [exact Hpos|].
  intros r' c' H'. apply symbolAt_position in H'.
  rewrite Hpos in H'. injection H' as -> ->. split; reflexivity.
Qed.

Lemma alphabet_bijection_witness :
  exists ch,
    symbolAt 2 1 = Some ch /\
    CHAR_TO_POSITION !! ch = Some {| row := 2; col := 1 |} /\
    forall r' c', symbolAt r' c' = Some ch -> r' = 2%nat /\ c' = 1%nat.
Proof. apply (alphabet_bijection 2 1); lia. Defined.

(** ** Decoding: validation *)

Section DecodeLoop.

Variable refine : bounds -> position -> bounds.
Variable pin : list ascii.

Lemma decode_loop_ok (n k : nat) (b : bounds) :
  (forall i c, (k <= i < k + n)%nat -> pin !! i = Some c -> c ∈ alphabet) ->
  (k + n <= length pin)%nat ->
  is_ok (for_loop (decode_symbol refine pin) (seq k n) b) = true.
Proof.
  revert k b. induction n as [|n IH]; intros k b Hall Hlen; [reflexivity|].
  cbn [for_loop seq bind mbind option_bind]. unfold decode_symbol at 1.
  destruct (pin !! k) as [c|] eqn:Hk.
  - assert (Hc : c ∈ alphabet) by (apply (Hall k); [lia|exact Hk]).
    apply lookup_alphabet in Hc. destruct Hc as [p Hp].
    cbn [for_loop seq bind mbind option_bind]. rewrite Hp. cbn [for_loop seq bind mbind option_bind]. apply IH; [|lia].
    intros i c' Hi. apply Hall. lia.
  - apply lookup_ge_None in Hk. lia.
Qed.

Lemma decode_loop_first_bad (n k i : nat) (c : ascii) (b : bounds) :
  (k <= i < k + n)%nat ->
  pin !! i = Some c -> c ∉ alphabet ->
  (forall j c', (k <= j < i)%nat -> pin !! j = Some c' -> c' ∈ alphabet) ->
  for_loop (decode_symbol refine pin) (seq k n) b
  = Err (InvalidCharacter (Some c) i).
Proof.
  revert k b. induction n as [|n IH]; intros k b Hi Hc Hbad Hgood; [lia|].
  cbn [for_loop seq bind mbind option_bind]. unfold decode_symbol at 1.
  destruct (decide (k = i)) as [->|Hne].
  - rewrite Hc. cbn [for_loop seq bind mbind option_bind].
    destruct (CHAR_TO_POSITION !! c) as [p|] eqn:Hp; [|reflexivity].
    exfalso. apply Hbad, lookup_alphabet. eauto.
  - destruct (pin !! k) as [c'|] eqn:Hk.
    + assert (Hc' : c' ∈ alphabet) by (apply (Hgood k); [lia|exact Hk]).
      apply lookup_alphabet in Hc'. destruct Hc' as [p Hp].
      cbn [for_loop seq bind mbind option_bind]. rewrite Hp. cbn [for_loop seq bind mbind option_bind]. apply IH; [lia|exact Hc|exact Hbad|].
      intros j c'' Hj. apply Hgood. lia.
    + apply lookup_ge_None in Hk. apply lookup_lt_Some in Hc. lia.
Qed.

Lemma decode_loop_ok_inv (n k : nat) (b : bounds) :
  is_ok (for_loop (decode_symbol refine pin) (seq k n) b) = true ->
  forall i c, (k <= i < k + n)%nat -> pin !! i = Some c -> c ∈ alphabet.
Proof.
  revert k b. induction n as [|n IH]; intros k b Hok i c Hi Hc; [lia|].
  cbn [for_loop seq bind] in Hok. unfold decode_symbol at 1 in Hok.
  destruct (pin !! k ≫= (CHAR_TO_POSITION !!.)) as [p|] eqn:Hp;
    [|discriminate Hok].
  destruct (decide (k = i)) as [->|Hne].
  - rewrite Hc in Hp. cbn [mbind option_bind] in Hp. apply lookup_alphabet. eauto.
  - cbn [for_loop seq bind] in Hok. apply (IH _ _ Hok i c); [lia|exact Hc].
Qed.

End DecodeLoop.

Section DecodeBounds.

Variable refine : bounds -> position -> bounds.

Lemma decode_bounds_length (digiPin : string) :
  length (stripped digiPin) <> DIGIPIN_LENGTH ->
  decode_bounds refine digiPin
  = Err (InvalidLength (length (stripped digiPin)) DIGIPIN_LENGTH).
Proof.
  intros H. unfold decode_bounds. fold (stripped digiPin).
  rewrite bool_decide_eq_true_2 by exact H. reflexivity.
Qed.

Lemma decode_bounds_symbol (digiPin : string) (i : nat) (c : ascii) :
  length (stripped digiPin) = DIGIPIN_LENGTH ->
  stripped digiPin !! i = Some c -> c ∉ alphabet ->
  (forall j c', (j < i)%nat -> stripped digiPin !! j = Some c' ->
                c' ∈ alphabet) ->
  decode_bounds refine digiPin = Err (InvalidCharacter (Some c) i).
Proof.
  intros Hlen Hc Hbad Hgood. unfold decode_bounds. fold (stripped digiPin).
  rewrite bool_decide_eq_false_2 by (intros H; exact (H Hlen)).
  apply decode_loop_first_bad; [|exact Hc|exact Hbad|].
  - apply lookup_lt_Some in Hc. rewrite Hlen in Hc. lia.
  - intros j c' Hj. apply Hgood. lia.
Qed.

Lemma decode_bounds_ok (digiPin : string) :
  is_ok (decode_bounds refine digiPin) = true <-> valid_code digiPin.
Proof.
  unfold valid_code, decode_bounds. fold (stripped digiPin).
  destruct (decide (length (stripped digiPin) = DIGIPIN_LENGTH)) as [Hlen|Hlen].
  - rewrite bool_decide_eq_false_2 by (intros H; exact (H Hlen)). split.
    + intros Hok. split; [exact Hlen|].
      apply Forall_lookup_2. intros i c Hc.
      apply (decode_loop_ok_inv _ _ _ _ _ Hok i c); [|exact Hc].
      apply lookup_lt_Some in Hc. rewrite Hlen in Hc. lia.
    + intros [_ Hall]. apply decode_loop_ok; [|rewrite Hlen; simpl; lia].
      intros i c _ Hc. exact (Forall_lookup_1 _ _ _ _ Hall Hc).
  - rewrite bool_decide_eq_true_2 by exact Hlen. simpl. split.
    + discriminate.
    + intros [H _]. contradiction.
Qed.

End DecodeBounds.

Lemma is_ok_bind {A B} (r : result A) (k : A -> result B) :
  (forall a, is_ok (k a) = true) -> is_ok (bind r k) = is_ok r.
Proof. intros H. destruct r; simpl; [apply H|reflexivity]. Qed.

Lemma bind_Err {A B} (r : result A) (k : A -> result B) (e : error) :
  r = Err e -> bind r k = Err e.
Proof. intros ->. reflexivity. Qed.

(** C6. Decoding fails exactly on the codes whose characters, once the
    separators are removed, are not ten symbols of the alphabet.  A count
    other than ten is reported with the observed and the expected count,
    whatever the characters are; with ten characters, the first one
    outside the alphabet is reported with its index in the stripped
    sequence.  Both variants of the decoder behave so. *)
Theorem decode_validation :
  (forall digiPin,
     let pin := stripped digiPin in
     (length pin <> 10%nat ->
        getLatLngFromDigiPin digiPin = Err (InvalidLength (length pin) 10) /\
        Typed.getLatLngFromDigiPin digiPin
        = Err (InvalidLength (length pin) 10)) /\
     (length pin = 10%nat ->
        forall i c,
          pin !! i = Some c -> c ∉ alphabet ->
          (forall j c', (j < i)%nat -> pin !! j = Some c' -> c' ∈ alphabet) ->
          getLatLngFromDigiPin digiPin = Err (InvalidCharacter (Some c) i) /\
          Typed.getLatLngFromDigiPin digiPin
          = Err (InvalidCharacter (Some c) i)) /\
     (is_ok (getLatLngFromDigiPin digiPin) = true <-> valid_code digiPin) /\
     (is_ok (Typed.getLatLngFromDigiPin digiPin) = true
      <-> valid_code digiPin)) /\
  getLatLngFromDigiPin "4FK-5MK" = Err (InvalidLength 6 10) /\
  getLatLngFromDigiPin "XFK-5MK-9PPK" = Err (InvalidCharacter (Some "X"%char) 0) /\
  Typed.getLatLngFromDigiPin "4FK-5MK" = Err (InvalidLength 6 10) /\
  Typed.getLatLngFromDigiPin "XFK-5MK-9PPK"
  = Err (InvalidCharacter (Some "X"%char) 0).
Proof.
  split; [|repeat split; vm_compute; reflexivity].
  intros digiPin pin. subst pin.
  unfold getLatLngFromDigiPin, Typed.getLatLngFromDigiPin.
  split; [|split; [|split]].
  - intros H. split; apply bind_Err, decode_bounds_length, H.
  - intros Hlen i c Hc Hbad Hgood.
    split; apply bind_Err; eapply decode_bounds_symbol; eassumption.
  - rewrite is_ok_bind by reflexivity. apply decode_bounds_ok.
  - rewrite is_ok_bind by reflexivity. apply decode_bounds_ok.
Qed.

Lemma decode_validation_witness :
  getLatLngFromDigiPin "4FK-ZMK-9PPK" = Err (InvalidCharacter (Some "Z"%char) 3) /\
  Typed.getLatLngFromDigiPin "4FK-ZMK-9PPK"
  = Err (InvalidCharacter (Some "Z"%char) 3).
Proof.
  refine (proj1 (proj2 (proj1 decode_validation "4FK-ZMK-9PPK"))
            _ 3%nat "Z"%char _ _ _).
  - reflexivity.
  - reflexivity.
  - apply (bool_decide_unpack _). vm_compute. exact I.
  - intros [|[|[|j]]] c' Hj; [| | |lia]; intros [= <-];
      apply (bool_decide_unpack _); vm_compute; exact I.
Defined.

(** ** Decoding: separators *)

Lemma remove_hyphens_idemp (l : list ascii) :
  remove_hyphens (remove_hyphens l) = remove_hyphens l.
Proof.
  unfold remove_hyphens. induction l as [|c l IH]; [reflexivity|].
  rewrite filter_cons. destruct (decide (c <> "-"%char)) as [Hc|Hc].
  - rewrite filter_cons, decide_True by exact Hc. f_equal. exact IH.
  - exact IH.
Qed.

Lemma stripped_without_separators (digiPin : string) :
  stripped (without_separators digiPin) = stripped digiPin.
Proof.
  unfold without_separators, stripped at 1.
  rewrite list_ascii_of_string_of_list_ascii.
  apply remove_hyphens_idemp.
Qed.

Lemma decode_bounds_stripped refine (s t : string) :
  stripped s = stripped t -> decode_bounds refine s = decode_bounds refine t.
Proof.
  intros H. unfold decode_bounds. fold (stripped s) (stripped t).
  rewrite H. reflexivity.
Qed.

(** C8. Decoding does not depend on the separators: a code, with hyphens
    anywhere in it, decodes as the same code with all hyphens removed, in
    both variants of the decoder; in particular "4FK-5MK-9PPK" and
    "4FK5MK9PPK" decode alike. *)
Theorem separator_invariance :
  (forall digiPin,
     getLatLngFromDigiPin digiPin
     = getLatLngFromDigiPin (without_separators digiPin) /\
     Typed.getLatLngFromDigiPin digiPin
     = Typed.getLatLngFromDigiPin (without_separators digiPin)) /\
  without_separators "4FK-5MK-9PPK" = "4FK5MK9PPK"%string /\
  valid_code "4FK5MK9PPK".
Proof.
  split; [|split].
  - intros digiPin.
    unfold getLatLngFromDigiPin, Typed.getLatLngFromDigiPin.
    rewrite !(decode_bounds_stripped _ digiPin (without_separators digiPin))
      by (symmetry; apply stripped_without_separators).
    split; reflexivity.
  - reflexivity.
  - apply decode_bounds_ok with (refine := refine). vm_compute. reflexivity.
Qed.

(** ** The reference vector *)

(** C3. The documented example: (18.968557, 72.822191) encodes to
    "4FK-5MK-9PPK", and that code decodes to 18.968557 and 72.822191,
    which [index.ts] returns as the strings of [toFixed(6)] and the typed
    variant as the numbers nearest to these decimals. *)
Theorem reference_vector :
  getDigiPin 18.968557 72.822191 = Ok "4FK-5MK-9PPK"%string /\
  getLatLngFromDigiPin "4FK-5MK-9PPK"
  = Ok {| latitude := Digits "18.968557"; longitude := Digits "72.822191" |} /\
  Typed.getDigiPin 18.968557 72.822191 = Ok "4FK-5MK-9PPK"%string /\
  Typed.getLatLngFromDigiPin "4FK-5MK-9PPK"
  = Ok {| latitude := 18.968557; longitude := 72.822191 |}.
Proof. repeat split; vm_compute; reflexivity. Qed.

(** ** The corners of the bounding box *)

(** C7. Both corners of the bounding box encode: (2.5, 63.5) and
    (38.5, 99.5) give well-formed codes in both variants, although at the
    upper corner the floored index is 4 on both axes before it is
    clamped. *)
Theorem corners_encode :
  getDigiPin 2.5 63.5 = Ok "LLL-LLL-LLLL"%string /\
  getDigiPin 38.5 99.5 = Ok "888-888-8888"%string /\
  Typed.getDigiPin 2.5 63.5 = Ok "LLL-LLL-LLLL"%string /\
  Typed.getDigiPin 38.5 99.5 = Ok "888-888-8888"%string /\
  well_formed "LLL-LLL-LLLL" = true /\
  well_formed "888-888-8888" = true /\
  Math_floor ((38.5 - minLat BOUNDS)
              / ((maxLat BOUNDS - minLat BOUNDS) / GRID_SIZE)) = 4 /\
  Math_floor ((99.5 - minLon BOUNDS)
              / ((maxLon BOUNDS - minLon BOUNDS) / GRID_SIZE)) = 4.
Proof. repeat split; vm_compute; reflexivity. Qed.

(** ** Encoding: the indices of the grid *)

(** C9. For a latitude in [2.5, 38.5] and a longitude in [63.5, 99.5], the
    loop of the encoder runs its ten levels, at each of them the row and
    the column are indices 0 to 3 of the grid and the entry of the table
    at them is defined, and the encoder returns a code.  This holds for
    [index.ts], which clamps with [Math.min] and [Math.max], and for the
    typed variant, which clamps from above before it reverses the row and
    from below after. *)
Theorem indices_in_grid (lat lon : float) :
  in_bounds lat lon ->
  (let states := loop_states (encode_level lat lon) (seq 0 DIGIPIN_LENGTH)
                   {| cell := BOUNDS; out := [] |} in
   length states = DIGIPIN_LENGTH /\
   Forall (fun s => level_ok (grid_row lat (cell s)) (grid_col lon (cell s)))
     states /\
   is_ok (getDigiPin lat lon) = true) /\
  (let states := loop_states (Typed.encode_level lat lon)
                   (seq 0 DIGIPIN_LENGTH)
                   {| Typed.cell := BOUNDS; Typed.out := EmptyString |} in
   length states = DIGIPIN_LENGTH /\
   Forall (fun s => level_ok (Typed.grid_row lat (Typed.cell s))
                      (Typed.grid_col lon (Typed.cell s))) states /\
   is_ok (Typed.getDigiPin lat lon) = true).
Proof.
  intros Hin.
  destruct (encode_run lat lon Hin) as (_ & H1 & H2).
  destruct (typed_encode_run lat lon Hin) as (_ & H3 & H4).
  destruct (encode_code lat lon Hin) as (E1 & E2 & _).
  split; cbv zeta.
  - split; [exact H2|]. split; [exact H1|]. rewrite E1. reflexivity.
  - split; [exact H4|]. split; [exact H3|]. rewrite E2. reflexivity.
Qed.

Lemma indices_in_grid_witness :
  let lat := 18.968557 in
  let lon := 72.822191 in
  in_bounds lat lon /\
  Forall (fun s => level_ok (grid_row lat (cell s)) (grid_col lon (cell s)))
    (loop_states (encode_level lat lon) (seq 0 DIGIPIN_LENGTH)
       {| cell := BOUNDS; out := [] |}) /\
  is_ok (Typed.getDigiPin lat lon) = true.
Proof.
  assert (Hin : in_bounds 18.968557 72.822191)
    by (repeat split; reflexivity).
  split; [exact Hin|].
  split.
  - exact (proj1 (proj2 (proj1 (indices_in_grid _ _ Hin)))).
  - exact (proj2 (proj2 (proj2 (indices_in_grid _ _ Hin)))).
Defined.

(** ** The round trip *)

(** C1. For a latitude in [2.5, 38.5] and a longitude in [63.5, 99.5], both
    variants of the encoder return the same code, and decoding that code
    gives a latitude and a longitude that differ from the inputs by less
    than 0.0001 degree: the decimals that [index.ts] prints, [n] and [m]
    millionths of a degree, and the numbers that the typed variant
    returns. *)
Theorem round_trip (lat lon : float) :
  in_bounds lat lon ->
  SF_finite (Prim2SF lat) = true /\ SF_finite (Prim2SF lon) = true /\
  exists code : string,
    getDigiPin lat lon = Ok code /\ Typed.getDigiPin lat lon = Ok code /\
    (exists n m : Z,
       getLatLngFromDigiPin code
       = Ok {| latitude := Digits (with_point 6 n);
               longitude := Digits (with_point 6 m) |} /\
       (Rabs (IZR n / 1000000 - F2R lat) < 1 / 10000)%R /\
       (Rabs (IZR m / 1000000 - F2R lon) < 1 / 10000)%R) /\
    (exists la lo : float,
       Typed.getLatLngFromDigiPin code
       = Ok {| latitude := la; longitude := lo |} /\
       SF_finite (Prim2SF la) = true /\ SF_finite (Prim2SF lo) = true /\
       (Rabs (F2R la - F2R lat) < 1 / 10000)%R /\
       (Rabs (F2R lo - F2R lon) < 1 / 10000)%R).
Proof.
  intros Hin.
  destruct (encode_inputs lat lon Hin)
    as (((mx & ex & Hx) & _) & ((my & ey & Hy) & _)).
  destruct (encode_paths lat lon Hin) as ((Vp & Lp & Cp) & (Vq & Lq & Cq)).
  destruct (encode_code lat lon Hin) as (E1 & E2 & Hvalid & P1 & P2).
  destruct (decode_spec _ Hvalid) as (D1 & D2).
  cbv zeta in D1, D2. rewrite P1, P2 in D1, D2.
  split; [rewrite Hx; reflexivity|]. split; [rewrite Hy; reflexivity|].
  eexists. split; [exact E1|]. split; [exact E2|]. split.
  - eexists _, _. split; [exact D1|]. split.
    + exact (proj1 (centre_close latitude_axis _ lat 0 Lp Cp)).
    + exact (proj1 (centre_close longitude_axis _ lon 0 Lq Cq)).
  - destruct (leaf_round6 latitude_axis latitude_checked _ Vp Lp)
      as (_ & (m1 & e1 & R1) & F1 & _).
    destruct (leaf_round6 longitude_axis longitude_checked _ Vq Lq)
      as (_ & (m2 & e2 & R2) & F2 & _).
    eexists _, _. split; [exact D2|].
    split; [rewrite R1; reflexivity|]. split; [rewrite R2; reflexivity|].
    split.
    + exact (proj2 (centre_close latitude_axis _ lat _ Lp Cp) F1).
    + exact (proj2 (centre_close longitude_axis _ lon _ Lq Cq) F2).
Qed.

Lemma round_trip_witness :
  in_bounds 18.968557 72.822191 /\
  exists code : string,
    getDigiPin 18.968557 72.822191 = Ok code /\
    exists la lo : float,
      Typed.getLatLngFromDigiPin code
      = Ok {| latitude := la; longitude := lo |} /\
      (Rabs (F2R la - F2R 18.968557) < 1 / 10000)%R /\
      (Rabs (F2R lo - F2R 72.822191) < 1 / 10000)%R.
Proof.
  assert (Hin : in_bounds 18.968557 72.822191)
    by (repeat split; reflexivity).
  split; [exact Hin|].
  destruct (round_trip _ _ Hin)
    as (_ & _ & code & E & _ & _ & la & lo & D & _ & _ & H1 & H2).
  exists code. split; [exact E|]. exists la, lo.
  split; [exact D|]. split; [exact H1|exact H2].
Defined.

(** ** Decoding: the working rectangle *)

(** C10. For a valid code, the loop of the decoder runs its ten
    iterations on rectangles that lie within the bounding box, and so does
    the rectangle it ends with.  The centre of that rectangle is within
    the bounds, [index.ts] prints for it decimals of [n] and [m]
    millionths of a degree that are within the bounds, and so are the
    numbers nearest to these decimals, which the typed variant returns.
    Each of these centres encodes again. *)
Theorem decoder_rectangle_nested (digiPin : string) :
  valid_code digiPin ->
  let pin := stripped digiPin in
  let states := loop_states (decode_symbol refine pin)
                  (seq 0 DIGIPIN_LENGTH) BOUNDS in
  length states = DIGIPIN_LENGTH /\
  Forall (fun b => nested b BOUNDS) states /\
  exists (b : bounds) (n m : Z),
    decode_bounds refine digiPin = Ok b /\ nested b BOUNDS /\
    in_bounds (centerLat b) (centerLon b) /\
    is_ok (getDigiPin (centerLat b) (centerLon b)) = true /\
    getLatLngFromDigiPin digiPin
    = Ok {| latitude := Digits (with_point 6 n);
            longitude := Digits (with_point 6 m) |} /\
    (2500000 <= n <= 38500000)%Z /\ (63500000 <= m <= 99500000)%Z /\
    let la := of_uint63 (Uint63.of_Z n) / 1000000 in
    let lo := of_uint63 (Uint63.of_Z m) / 1000000 in
    Typed.getLatLngFromDigiPin digiPin
    = Ok {| latitude := la; longitude := lo |} /\
    in_bounds la lo /\
    is_ok (getDigiPin la lo) = true /\
    is_ok (Typed.getDigiPin la lo) = true.
Proof.
  intros Hvalid pin states.
  destruct (decode_bounds_spec digiPin Hvalid) as (H1 & _ & H3 & H4 & _).
  destruct (decode_spec digiPin Hvalid) as (D1 & D2).
  destruct Hvalid as [Hlen Hall].
  destruct (decode_nested _ Hall Hlen) as (N1 & N2 & N3 & N4 & N5).
  cbv zeta in H1, H3, H4, D1, D2, N1, N2, N3, N4, N5.
  fold pin in H1, H3, H4, D1, D2, N1, N2, N3, N4, N5.
  split; [exact H4|]. split; [exact H3|].
  eexists _, _, _. split; [exact H1|]. split; [exact N1|].
  split; [exact N2|].
  split; [rewrite (proj1 (encode_code _ _ N2)); reflexivity|].
  split; [exact D1|]. split; [exact N4|]. split; [exact N5|].
  cbv zeta. split; [exact D2|]. split; [exact N3|].
  split.
  - rewrite (proj1 (encode_code _ _ N3)). reflexivity.
  - rewrite (proj1 (proj2 (encode_code _ _ N3))). reflexivity.
Qed.

Lemma decoder_rectangle_nested_witness :
  valid_code "4FK-5MK-9PPK" /\
  Forall (fun b => nested b BOUNDS)
    (loop_states (decode_symbol refine (stripped "4FK-5MK-9PPK"))
       (seq 0 DIGIPIN_LENGTH) BOUNDS).
Proof.
  assert (Hvalid : valid_code "4FK-5MK-9PPK").
  { split; [reflexivity|].
    apply Forall_forall. intros c Hc.
    apply (bool_decide_unpack _).
    revert c Hc. apply Forall_forall.
    repeat constructor; vm_compute; reflexivity. }
  split; [exact Hvalid|].
  exact (proj1 (proj2 (decoder_rectangle_nested _ Hvalid))).
Defined.

(** ** Encoding: the validation *)

(** X1. For a latitude and a longitude that are not NaN, the encoder
    fails exactly when one of them is out of its range, and the error
    names the first coordinate that is, with its value and its range. *)
Lemma encode_fails_iff (lat lon : float) :
  is_nan lat = false -> is_nan lon = false ->
  (is_ok (getDigiPin lat lon) = true <-> in_bounds lat lon) /\
  ((lat <? 2.5) || (38.5 <? lat) = true ->
   getDigiPin lat lon = Err (OutOfRange Latitude lat 2.5 38.5)) /\
  ((lat <? 2.5) || (38.5 <? lat) = false ->
   (lon <? 63.5) || (99.5 <? lon) = true ->
   getDigiPin lat lon = Err (OutOfRange Longitude lon 63.5 99.5)).
Proof.
  intros Hlat Hlon.
  pose proof (validation_spec lat lon Hlat Hlon) as Hv.
  change (minLat BOUNDS) with 2.5 in Hv. change (maxLat BOUNDS) with 38.5 in Hv.
  change (minLon BOUNDS) with 63.5 in Hv. change (maxLon BOUNDS) with 99.5 in Hv.
  assert (H1 : (lat <? 2.5) || (38.5 <? lat) = true ->
               getDigiPin lat lon = Err (OutOfRange Latitude lat 2.5 38.5)).
  { intros H. unfold getDigiPin.
    change (minLat BOUNDS) with 2.5. change (maxLat BOUNDS) with 38.5.
    rewrite H. reflexivity. }
  assert (H2 : (lat <? 2.5) || (38.5 <? lat) = false ->
               (lon <? 63.5) || (99.5 <? lon) = true ->
               getDigiPin lat lon = Err (OutOfRange Longitude lon 63.5 99.5)).
  { intros H H'. unfold getDigiPin.
    change (minLat BOUNDS) with 2.5. change (maxLat BOUNDS) with 38.5.
    change (minLon BOUNDS) with 63.5. change (maxLon BOUNDS) with 99.5.
    rewrite H, H'. reflexivity. }
  split; [|split; [exact H1|exact H2]]. split.
  - intros Hok. apply Hv.
    destruct ((lat <? 2.5) || (38.5 <? lat)) eqn:E1.
    + rewrite (H1 eq_refl) in Hok. discriminate Hok.
    + destruct ((lon <? 63.5) || (99.5 <? lon)) eqn:E2.
      * rewrite (H2 eq_refl eq_refl) in Hok. discriminate Hok.
      * split; reflexivity.
  - intros Hin. rewrite (proj1 (encode_code lat lon Hin)). reflexivity.
Qed.

(** C5. The validation of the encoder at the two documented inputs and at
    NaN.  A latitude of 40 and a longitude of 100 are rejected with the
    coordinate, its value and its range.  NaN is not within a range, but
    it passes the two comparisons of the validation: with a NaN latitude
    the encoders fail on the table access, with an error that names no
    coordinate, and with a NaN longitude they return a string that is not
    a code. *)
Theorem validation_misses_nan :
  getDigiPin 40 72.822191 = Err (OutOfRange Latitude 40 2.5 38.5) /\
  getDigiPin 18.968557 100 = Err (OutOfRange Longitude 100 63.5 99.5) /\
  getDigiPin nan 72.822191 = Err TypeError /\
  getDigiPin 18.968557 nan = Ok "--"%string /\
  Typed.getDigiPin nan 72.822191 = Err TypeError /\
  Typed.getDigiPin 18.968557 nan
  = Ok "undefinedundefinedundefined-undefinedundefinedundefined-undefinedundefinedundefinedundefined"%string.
Proof. repeat split; vm_compute; reflexivity. Qed.

(** ** Decoding: the returned values *)

(** C2. What the two decoders return for the documented code.  The typed
    variant returns numbers, the centre rounded to six decimals;
    [index.ts] returns the strings of [toFixed(6)]. *)
Theorem decoded_values :
  getLatLngFromDigiPin "4FK-5MK-9PPK"
  = Ok {| latitude := Digits "18.968557"; longitude := Digits "72.822191" |} /\
  Typed.getLatLngFromDigiPin "4FK-5MK-9PPK"
  = Ok {| latitude := 18.968557; longitude := 72.822191 |}.
Proof. repeat split; vm_compute; reflexivity. Qed.

(** * Further properties of the encoder and of the decoder *)

Lemma encode_fails_iff_witness :
  getDigiPin 1 72.822191 = Err (OutOfRange Latitude 1 2.5 38.5) /\
  getDigiPin 18.968557 60 = Err (OutOfRange Longitude 60 63.5 99.5).
Proof.
  split.
  - apply (proj1 (proj2 (encode_fails_iff 1 72.822191 eq_refl eq_refl))).
    reflexivity.
  - apply (proj2 (proj2 (encode_fails_iff 18.968557 60 eq_refl eq_refl)));
      reflexivity.
Defined.

(** ** The two encoders *)

Lemma SFcompare_refl (x : spec_float) :
  x <> S754_nan -> SFcompare x x = Some Eq.
Proof.
  destruct x as [s|s| |s m e]; intros H; try reflexivity.
  - destruct s; reflexivity.
  - contradiction.
  - cbn [SFcompare]. destruct s; rewrite Z.compare_refl, Pos.compare_cont_refl;
      reflexivity.
Qed.

Lemma is_nan_eq (x : float) : is_nan x = true -> x = nan.
Proof.
  intros H. unfold is_nan in H. rewrite FloatAxioms.eqb_spec in H.
  rewrite <- (SF2Prim_Prim2SF x).
  destruct (Prim2SF x) as [s|s| |s m e] eqn:E; [| |reflexivity|];
    unfold SFeqb in H; rewrite SFcompare_refl in H by discriminate;
    discriminate H.
Qed.

Lemma encode_nan_latitude (lon : float) :
  for_loop (encode_level nan lon) (seq 0 DIGIPIN_LENGTH)
    {| cell := BOUNDS; out := [] |} = Err TypeError /\
  for_loop (Typed.encode_level nan lon) (seq 0 DIGIPIN_LENGTH)
    {| Typed.cell := BOUNDS; Typed.out := EmptyString |} = Err TypeError.
Proof.
  change (seq 0 DIGIPIN_LENGTH) with (0%nat :: seq 1 9).
  cbn [for_loop]. split.
  - unfold encode_level at 1. cbn [cell].
    change (array_get DIGIPIN_GRID (grid_row nan BOUNDS))
      with (@None (list ascii)).
    reflexivity.
  - unfold Typed.encode_level at 1. cbn [Typed.cell].
    change (array_get DIGIPIN_GRID (Typed.grid_row nan BOUNDS))
      with (@None (list ascii)).
    reflexivity.
Qed.

(** X2. The encoder of [index.ts] and the encoder of the typed variant
    return the same result, a code or an error, for every latitude and
    every longitude that is not NaN. *)
Theorem encoders_agree (lat lon : float) :
  is_nan lon = false -> Typed.getDigiPin lat lon = getDigiPin lat lon.
Proof.
  intros Hlon. unfold Typed.getDigiPin, getDigiPin.
  destruct ((lat <? minLat BOUNDS) || (maxLat BOUNDS <? lat)) eqn:E1;
    [reflexivity|].
  destruct ((lon <? minLon BOUNDS) || (maxLon BOUNDS <? lon)) eqn:E2;
    [reflexivity|].
  destruct (is_nan lat) eqn:Hlat.
  - apply is_nan_eq in Hlat. subst lat.
    destruct (encode_nan_latitude lon) as [-> ->]. reflexivity.
  - pose proof (proj1 (validation_spec lat lon Hlat Hlon) (conj E1 E2))
      as Hin.
    destruct (encode_code lat lon Hin) as (H1 & H2 & _).
    unfold Typed.getDigiPin, getDigiPin in H1, H2.
    rewrite E1, E2 in H1, H2. rewrite H1, H2. reflexivity.
Qed.

Lemma encoders_agree_witness :
  Typed.getDigiPin 28.6139 77.2090 = getDigiPin 28.6139 77.2090.
Proof. apply encoders_agree. reflexivity. Defined.

(** ** The two decoders *)

Lemma decode_loops_agree (pin : list ascii) (n : nat) :
  forall k : nat,
    Forall (.∈ alphabet) (take k pin) -> (k <= length pin)%nat ->
    (k + n <= 10)%nat ->
    for_loop (decode_symbol Typed.refine pin) (seq k n)
      (code_rectangle (take k pin))
    = for_loop (decode_symbol refine pin) (seq k n)
        (code_rectangle (take k pin)).
Proof.
  induction n as [|n IH]; intros k Hall Hk Hn; [reflexivity|].
  cbn [seq for_loop]. unfold decode_symbol at 1 3.
  destruct (pin !! k) as [c|] eqn:Hc; [|reflexivity].
  cbn [mbind option_bind].
  destruct (CHAR_TO_POSITION !! c) as [pos|] eqn:Hpos; [|reflexivity].
  destruct (lookup_position c pos Hpos) as (Hr & Hcol & _).
  destruct (paths_spec (take k pin) Hall) as (V1 & V2 & L1 & L2).
  rewrite length_take in L1, L2.
  destruct (refine_spec (lat_path (take k pin)) (lon_path (take k pin))
              (3 - row pos) (col pos) V1 V2 ltac:(lia) ltac:(lia)
              ltac:(lia) Hcol) as (H1 & H2).
  replace (3 - (3 - row pos))%nat with (row pos) in H1, H2 by lia.
  assert (Hpos' : {| row := row pos; col := col pos |} = pos)
    by (destruct pos; reflexivity).
  rewrite Hpos' in H1, H2.
  destruct (paths_snoc (take k pin) c pos Hpos) as [E1 E2].
  rewrite <- E1, <- E2, <- (take_S_r _ _ _ Hc) in H1, H2.
  fold (code_rectangle (take k pin)) in H1, H2.
  fold (code_rectangle (take (S k) pin)) in H1, H2.
  rewrite H1, H2. cbn [bind]. apply IH; [|apply lookup_lt_Some in Hc; lia|lia].
  rewrite (take_S_r _ _ _ Hc). apply Forall_app. split; [exact Hall|].
  constructor; [|constructor]. apply lookup_alphabet. eauto.
Qed.

Lemma decode_bounds_agree (digiPin : string) :
  decode_bounds Typed.refine digiPin = decode_bounds refine digiPin.
Proof.
  unfold decode_bounds. fold (stripped digiPin).
  destruct (bool_decide (length (stripped digiPin) <> DIGIPIN_LENGTH))
    eqn:Hlen; [reflexivity|].
  apply bool_decide_eq_false in Hlen.
  assert (Hl : length (stripped digiPin) = DIGIPIN_LENGTH)
    by (destruct (decide (length (stripped digiPin) = DIGIPIN_LENGTH));
        [assumption|contradiction]).
  apply (decode_loops_agree (stripped digiPin) DIGIPIN_LENGTH 0);
    [constructor|lia|reflexivity].
Qed.

(** X3. The two decoders behave alike on every string: they fail with the
    same error, or [index.ts] returns the decimals of [n] and [m]
    millionths of a degree and the typed variant returns the numbers
    nearest to these decimals. *)
Theorem decoders_agree (digiPin : string) :
  match getLatLngFromDigiPin digiPin, Typed.getLatLngFromDigiPin digiPin with
  | Err e, Err e' => e = e'
  | Ok s, Ok v =>
      exists n m : Z,
        s = {| latitude := Digits (with_point 6 n);
               longitude := Digits (with_point 6 m) |} /\
        v = {| latitude := of_uint63 (Uint63.of_Z n) / 1000000;
               longitude := of_uint63 (Uint63.of_Z m) / 1000000 |}
  | _, _ => False
  end.
Proof.
  destruct (is_ok (decode_bounds refine digiPin)) eqn:Hok.
  - apply decode_bounds_ok in Hok.
    destruct (decode_spec digiPin Hok) as [-> ->]. eauto.
  - unfold getLatLngFromDigiPin, Typed.getLatLngFromDigiPin.
    rewrite decode_bounds_agree.
    destruct (decode_bounds refine digiPin); [discriminate Hok|reflexivity].
Qed.

(** ** The form of the codes *)

Lemma length_ten {A} (l : list A) :
  length l = 10%nat ->
  exists a b c d e f g h i j, l = [a; b; c; d; e; f; g; h; i; j].
Proof.
  intros H.
  do 10 (destruct l as [|? l]; [discriminate H|]).
  destruct l; [|discriminate H]. eauto 11.
Qed.

Lemma emitted_well_formed (ps qs : list nat) :
  valid_path ps -> valid_path qs ->
  length ps = 10%nat -> length qs = 10%nat ->
  well_formed (join (emitted 0 ps qs)) = true /\
  String.length (join (emitted 0 ps qs)) = 12%nat.
Proof.
  intros Vp Vq Lp Lq.
  destruct (length_ten ps Lp)
    as (i0 & i1 & i2 & i3 & i4 & i5 & i6 & i7 & i8 & i9 & ->).
  destruct (length_ten qs Lq)
    as (j0 & j1 & j2 & j3 & j4 & j5 & j6 & j7 & j8 & j9 & ->).
  assert (Hq : forall i j, (i < 4)%nat -> (j < 4)%nat ->
            exists ch, quarter_symbol i j = Some ch /\
                       bool_decide (ch ∈ alphabet) = true).
  { intros i j Hi Hj.
    destruct (quarter_symbol_spec i j Hi Hj) as (ch & Hch & _ & Hpos).
    exists ch. split; [exact Hch|]. apply bool_decide_eq_true_2.
    apply lookup_alphabet. eauto. }
  unfold valid_path in Vp, Vq.
  repeat match goal with
         | H : Forall _ (_ :: _) |- _ => apply Forall_cons in H as [? H]
         end.
  cbn [emitted]. rewrite !hyphen_positions.
  destruct (Hq i0 j0) as (c0 & -> & W0); [assumption|assumption|].
  destruct (Hq i1 j1) as (c1 & -> & W1); [assumption|assumption|].
  destruct (Hq i2 j2) as (c2 & -> & W2); [assumption|assumption|].
  destruct (Hq i3 j3) as (c3 & -> & W3); [assumption|assumption|].
  destruct (Hq i4 j4) as (c4 & -> & W4); [assumption|assumption|].
  destruct (Hq i5 j5) as (c5 & -> & W5); [assumption|assumption|].
  destruct (Hq i6 j6) as (c6 & -> & W6); [assumption|assumption|].
  destruct (Hq i7 j7) as (c7 & -> & W7); [assumption|assumption|].
  destruct (Hq i8 j8) as (c8 & -> & W8); [assumption|assumption|].
  destruct (Hq i9 j9) as (c9 & -> & W9); [assumption|assumption|].
  change (join _)
    with (string_of_list_ascii
            [c0; c1; c2; "-"%char; c3; c4; c5; "-"%char; c6; c7; c8; c9]).
  split; [|reflexivity].
  unfold well_formed. rewrite list_ascii_of_string_of_list_ascii.
  cbn [forallb]. rewrite W0, W1, W2, W3, W4, W5, W6, W7, W8, W9.
  reflexivity.
Qed.

(** The two encoders return the same well-formed string for a point
    within the bounds. *)
Lemma encode_well_formed (lat lon : float) :
  in_bounds lat lon ->
  exists code : string,
    getDigiPin lat lon = Ok code /\ Typed.getDigiPin lat lon = Ok code /\
    well_formed code = true /\ String.length code = 12%nat.
Proof.
  intros Hin.
  destruct (encode_paths lat lon Hin) as ((Vp & Lp & _) & (Vq & Lq & _)).
  destruct (encode_code lat lon Hin) as (E1 & E2 & _).
  destruct (emitted_well_formed _ _ Vp Vq Lp Lq) as [W1 W2].
  eexists. split; [exact E1|]. split; [exact E2|]. split; assumption.
Qed.

(** X4. For a latitude and a longitude within the bounds, the encoders
    return a string of twelve characters: three, three and four symbols
    of the alphabet, with a hyphen after the third and after the sixth
    symbol. *)
Theorem code_well_formed (lat lon : float) :
  in_bounds lat lon ->
  exists code : string,
    getDigiPin lat lon = Ok code /\ Typed.getDigiPin lat lon = Ok code /\
    well_formed code = true /\ String.length code = 12%nat.
Proof. exact (encode_well_formed lat lon). Qed.

Lemma code_well_formed_witness :
  exists code : string,
    getDigiPin 12.9716 77.5946 = Ok code /\
    Typed.getDigiPin 12.9716 77.5946 = Ok code /\
    well_formed code = true /\ String.length code = 12%nat.
Proof. apply code_well_formed. repeat split; reflexivity. Defined.

(** ** The cell of a code *)

(** X5. Decoding the code of a latitude and a longitude within the bounds
    ends on a rectangle, the same in both decoders, that contains them. *)
Theorem input_in_decoded_cell (lat lon : float) :
  in_bounds lat lon ->
  exists (code : string) (b : bounds),
    getDigiPin lat lon = Ok code /\
    decode_bounds refine code = Ok b /\
    decode_bounds Typed.refine code = Ok b /\
    (minLat b <=? lat) = true /\ (lat <=? maxLat b) = true /\
    (minLon b <=? lon) = true /\ (lon <=? maxLon b) = true.
Proof.
  intros Hin.
  destruct (encode_inputs lat lon Hin) as ((Hx & _) & (Hy & _)).
  destruct (encode_paths lat lon Hin) as ((Vp & Lp & Cp) & (Vq & Lq & Cq)).
  destruct (encode_code lat lon Hin) as (E1 & _ & Hvalid & P1 & P2).
  destruct (decode_bounds_spec _ Hvalid) as (D1 & D2 & _).
  cbv zeta in D1, D2. unfold code_rectangle in D1, D2.
  rewrite P1, P2 in D1, D2.
  destruct (contains_leb latitude_axis latitude_checked _ lat Vp
              ltac:(lia) Hx Cp) as [L1 L2].
  destruct (contains_leb longitude_axis longitude_checked _ lon Vq
              ltac:(lia) Hy Cq) as [L3 L4].
  eexists _, _. split; [exact E1|]. split; [exact D1|]. split; [exact D2|].
  cbn [rectangle minLat maxLat minLon maxLon].
  split; [exact L1|]. split; [exact L2|]. split; [exact L3|exact L4].
Qed.

Lemma input_in_decoded_cell_witness :
  exists (code : string) (b : bounds),
    getDigiPin 22.5726 88.3639 = Ok code /\
    decode_bounds refine code = Ok b /\
    (minLat b <=? 22.5726) = true /\ (22.5726 <=? maxLat b) = true /\
    (minLon b <=? 88.3639) = true /\ (88.3639 <=? maxLon b) = true.
Proof.
  destruct (input_in_decoded_cell 22.5726 88.3639)
    as (code & b & H1 & H2 & _ & H3 & H4 & H5 & H6);
    [repeat split; reflexivity|].
  exists code, b. repeat split; assumption.
Defined.

(** The quarters that the encoder chooses for a number in the interior of
    the final cell of a path are those of the path. *)
Lemma encode_inside (a : axis_kind) (P : list nat) (x : float) :
  checked a -> valid_path P -> length P = 10%nat ->
  (exists m e, Prim2SF x = S754_finite false m e) ->
  (IZR (units_of a P + 17) * bpow (-20) <= F2R x
   <= IZR (units_of a P + 19) * bpow (-20))%R ->
  axis_path x (axis_lo a) (axis_hi a) 10 = P.
Proof.
  intros Ha VP LP Hx [H1 H2].
  pose proof (axis_path_inside a Ha x Hx P [] VP LP) as H.
  rewrite LP in H. apply H. cbn [app].
  rewrite !plus_IZR in *. pose proof (bpow_pos (-20)) as Hb.
  set (U := IZR (units_of a P)) in *. set (b := bpow (-20)) in *.
  assert (E17 : ((U + 17) * b = U * b + 17 * b)%R) by ring.
  assert (E19 : ((U + 19) * b = U * b + 19 * b)%R) by ring.
  assert (E36 : ((U + 36) * b = U * b + 36 * b)%R) by ring.
  rewrite E17 in H1. rewrite E19 in H2. rewrite E36. split; lra.
Qed.

(** The encoders on what the typed decoder returns for a valid code. *)
Lemma reencode_spec (digiPin : string) :
  valid_code digiPin ->
  exists (la lo : float) (code : string),
    Typed.getLatLngFromDigiPin digiPin
    = Ok {| latitude := la; longitude := lo |} /\
    Typed.getDigiPin la lo = Ok code /\ getDigiPin la lo = Ok code /\
    stripped code = stripped digiPin /\ well_formed code = true.
Proof.
  intros Hvalid.
  destruct (decode_spec digiPin Hvalid) as (_ & D2). cbv zeta in D2.
  pose proof Hvalid as [Hlen Hall].
  destruct (decode_nested _ Hall Hlen) as (_ & _ & N3 & _). cbv zeta in N3.
  destruct (paths_spec _ Hall) as (V1 & V2 & L1 & L2).
  rewrite Hlen in L1, L2.
  destruct (leaf_round6 latitude_axis latitude_checked _ V1 L1)
    as (_ & R1 & F1 & _).
  destruct (leaf_round6 longitude_axis longitude_checked _ V2 L2)
    as (_ & R2 & F2 & _).
  pose proof (encode_inside latitude_axis _ _ latitude_checked V1 L1 R1 F1)
    as P1.
  pose proof (encode_inside longitude_axis _ _ longitude_checked V2 L2 R2 F2)
    as P2.
  destruct (encode_code _ _ N3) as (E1 & E2 & Hvalid' & Q1 & Q2).
  rewrite P1, P2 in E1, E2, Hvalid', Q1, Q2.
  destruct (emitted_well_formed _ _ V1 V2 L1 L2) as [W _].
  eexists _, _, _. split; [exact D2|]. split; [exact E2|].
  split; [exact E1|]. split; [|exact W].
  destruct Hvalid' as [_ Hall'].
  apply paths_inj; assumption.
Qed.

(** X6. Encoding what the typed decoder returns for a valid code gives
    that code again, in the form of the encoder: the same ten symbols,
    with a hyphen after the third and after the sixth. *)
Theorem decode_then_encode (digiPin : string) :
  valid_code digiPin ->
  exists (la lo : float) (code : string),
    Typed.getLatLngFromDigiPin digiPin
    = Ok {| latitude := la; longitude := lo |} /\
    Typed.getDigiPin la lo = Ok code /\ getDigiPin la lo = Ok code /\
    stripped code = stripped digiPin /\ well_formed code = true.
Proof. exact (reencode_spec digiPin). Qed.

Lemma decode_then_encode_witness :
  exists (la lo : float) (code : string),
    Typed.getLatLngFromDigiPin "4FK5MK9PPK"
    = Ok {| latitude := la; longitude := lo |} /\
    getDigiPin la lo = Ok code /\
    stripped code = stripped "4FK5MK9PPK".
Proof.
  assert (Hvalid : valid_code "4FK5MK9PPK").
  { split; [reflexivity|].
    apply Forall_forall. intros c Hc.
    apply (bool_decide_unpack _).
    revert c Hc. apply Forall_forall.
    repeat constructor; vm_compute; reflexivity. }
  destruct (decode_then_encode _ Hvalid)
    as (la & lo & code & H1 & _ & H2 & H3 & _).
  exists la, lo, code. repeat split; assumption.
Defined.

(** X7. The typed decoder returns different coordinates for valid codes
    that differ in a symbol. *)
Theorem decode_injective (c1 c2 : string) :
  valid_code c1 -> valid_code c2 ->
  Typed.getLatLngFromDigiPin c1 = Typed.getLatLngFromDigiPin c2 ->
  stripped c1 = stripped c2.
Proof.
  intros H1 H2 Heq.
  destruct (reencode_spec c1 H1) as (la & lo & k1 & D1 & _ & E1 & S1 & _).
  destruct (reencode_spec c2 H2)
    as (la' & lo' & k2 & D2 & _ & E2 & S2 & _).
  rewrite D1, D2 in Heq. injection Heq as <- <-.
  rewrite E1 in E2. injection E2 as <-.
  rewrite <- S1. exact S2.
Qed.

Lemma decode_injective_witness :
  stripped "4FK-5MK-9PPK" = stripped "4FK5MK9PPK".
Proof.
  assert (Hvalid : forall s : string,
            is_ok (decode_bounds refine s) = true -> valid_code s)
    by (intros s; apply decode_bounds_ok).
  apply decode_injective;
    [apply Hvalid; vm_compute; reflexivity
    |apply Hvalid; vm_compute; reflexivity
    |vm_compute; reflexivity].
Defined.

(** * The page of the map *)

Lemma list_ascii_length (s : string) :
  length (list_ascii_of_string s) = String.length s.
Proof. induction s as [|c s IH]; [reflexivity|]. cbn. rewrite IH. reflexivity. Qed.

Lemma list_substring (s : string) :
  forall n m : nat,
    list_ascii_of_string (substring n m s)
    = take m (drop n (list_ascii_of_string s)).
Proof.
  induction s as [|c s IH]; intros [|n] [|m]; try reflexivity.
  - cbn [substring list_ascii_of_string drop take]. rewrite IH. reflexivity.
  - cbn [substring list_ascii_of_string drop]. apply IH.
  - cbn [substring list_ascii_of_string drop]. apply IH.
Qed.

Lemma list_js_substring (s : string) (a b : nat) :
  (a <= b)%nat ->
  list_ascii_of_string (js_substring s a b)
  = take (b - a) (drop a (list_ascii_of_string s)).
Proof.
  intros Hab. unfold js_substring. rewrite list_substring.
  pose proof (list_ascii_length s) as Hlen.
  set (l := list_ascii_of_string s) in *. rewrite <- Hlen.
  replace (Nat.min (Nat.min a (length l)) (Nat.min b (length l)))
    with (Nat.min a (length l)) by lia.
  replace (Nat.max (Nat.min a (length l)) (Nat.min b (length l)))
    with (Nat.min b (length l)) by lia.
  destruct (Nat.le_gt_cases (length l) a) as [H|H].
  - rewrite !drop_ge by lia. rewrite !take_nil. reflexivity.
  - replace (Nat.min a (length l)) with a by lia.
    destruct (Nat.le_gt_cases b (length l)) as [H'|H'].
    + replace (Nat.min b (length l)) with b by lia. reflexivity.
    + replace (Nat.min b (length l)) with (length l) by lia.
      rewrite !take_ge by (rewrite length_drop; lia). reflexivity.
Qed.

Lemma list_app (s t : string) :
  list_ascii_of_string (s ++ t)
  = list_ascii_of_string s ++ list_ascii_of_string t.
Proof.
  induction s as [|c s IH]; [reflexivity|].
  rewrite string_app_cons. cbn [list_ascii_of_string app].
  rewrite IH. reflexivity.
Qed.

Lemma remove_hyphens_app (l1 l2 : list ascii) :
  remove_hyphens (l1 ++ l2) = remove_hyphens l1 ++ remove_hyphens l2.
Proof. apply filter_app. Qed.

Lemma remove_hyphens_id (l : list ascii) :
  Forall (fun c => c <> "-"%char) l -> remove_hyphens l = l.
Proof.
  induction 1 as [|c l Hc Hl IH]; [reflexivity|].
  rewrite (remove_hyphens_symbol _ _ Hc), IH. reflexivity.
Qed.

Lemma remove_hyphens_clean (l : list ascii) :
  Forall (fun c => c <> "-"%char) (remove_hyphens l).
Proof.
  unfold remove_hyphens. apply Forall_forall. intros c Hc.
  apply list_elem_of_filter in Hc. exact (proj1 Hc).
Qed.

(** The grouping only adds hyphens. *)
Lemma format_stripped (s : string) :
  stripped (Visualizer.formatDigipinForDisplay s) = stripped s.
Proof.
  unfold Visualizer.formatDigipinForDisplay, stripped.
  pose proof (list_ascii_length s) as Hlen.
  destruct (String.length s <=? 3)%nat eqn:H3; [reflexivity|].
  apply Nat.leb_gt in H3.
  assert (H3' : (3 <? String.length s)%nat = true)
    by (apply Nat.ltb_lt; exact H3).
  rewrite H3'.
  set (l := list_ascii_of_string s) in *.
  assert (E1 : list_ascii_of_string (js_substring s 0 3) = take 3 l)
    by (rewrite list_js_substring by lia; reflexivity).
  assert (E2 : list_ascii_of_string (js_substring s 3 6)
               = take 3 (drop 3 l))
    by (rewrite list_js_substring by lia; reflexivity).
  assert (E3 : list_ascii_of_string (js_substring s 6 (String.length s))
               = drop 6 l).
  { destruct (Nat.le_gt_cases 6 (String.length s)) as [H|H].
    - rewrite list_js_substring by lia.
      apply take_ge. rewrite length_drop. lia.
    - unfold js_substring. rewrite list_substring. fold l.
      rewrite !drop_ge by lia. rewrite take_nil. reflexivity. }
  assert (Hh : forall x : list ascii,
            remove_hyphens ("-"%char :: x) = remove_hyphens x)
    by (intros x; apply remove_hyphens_hyphen).
  assert (Hl : l = take 3 l ++ take 3 (drop 3 l) ++ drop 6 l).
  { rewrite <- (take_drop 3 l) at 1. f_equal.
    rewrite <- (take_drop 3 (drop 3 l)) at 1. f_equal.
    rewrite drop_drop. reflexivity. }
  destruct (6 <? String.length s)%nat eqn:H6.
  - rewrite !list_app, E1, E2, E3. cbn [list_ascii_of_string app].
    rewrite !remove_hyphens_app, !Hh.
    rewrite Hl at 4. rewrite !remove_hyphens_app, app_assoc. reflexivity.
  - apply Nat.ltb_ge in H6.
    rewrite !list_app, E1, E2. cbn [list_ascii_of_string app].
    rewrite !remove_hyphens_app, Hh.
    rewrite Hl at 3. rewrite !remove_hyphens_app.
    rewrite (drop_ge l 6) by lia. cbn [remove_hyphens]. 
    rewrite app_nil_r. reflexivity.
Qed.

Lemma alphabet_not_hyphen (c : ascii) : c ∈ alphabet -> c <> "-"%char.
Proof.
  intros Hc ->. revert Hc. apply (bool_decide_eq_false_1 _).
  vm_compute. reflexivity.
Qed.

Lemma well_formed_inv (code : string) :
  well_formed code = true ->
  exists a b c d e f g h i j,
    code = string_of_list_ascii
             [a; b; c; "-"%char; d; e; f; "-"%char; g; h; i; j] /\
    Forall (.∈ alphabet) [a; b; c; d; e; f; g; h; i; j].
Proof.
  intros H. unfold well_formed in H.
  rewrite <- (string_of_list_ascii_of_string code).
  destruct (list_ascii_of_string code)
    as [|a [|b [|c [|h1 [|d [|e [|f [|h2 [|g [|h [|i [|j [|k l]]]]]]]]]]]]];
    try discriminate H.
  apply andb_prop in H as [H H2]. apply andb_prop in H as [H H1].
  apply bool_decide_eq_true_1 in H1, H2. subst h1 h2.
  exists a, b, c, d, e, f, g, h, i, j. split; [reflexivity|].
  cbn [forallb] in H.
  repeat (apply andb_prop in H as [?%bool_decide_eq_true_1 H]).
  repeat (constructor; [assumption|]). constructor.
Qed.

Lemma remove_hyphens_code (a b c d e f g h i j : ascii) :
  Forall (.∈ alphabet) [a; b; c; d; e; f; g; h; i; j] ->
  remove_hyphens [a; b; c; "-"%char; d; e; f; "-"%char; g; h; i; j]
  = [a; b; c; d; e; f; g; h; i; j].
Proof.
  intros Hall.
  assert (Hne : Forall (fun x => x <> "-"%char)
                  [a; b; c; d; e; f; g; h; i; j]).
  { eapply Forall_impl; [exact Hall|]. intros x. apply alphabet_not_hyphen. }
  change [a; b; c; "-"%char; d; e; f; "-"%char; g; h; i; j]
    with ([a; b; c] ++ "-"%char :: [d; e; f] ++ "-"%char :: [g; h; i; j]).
  rewrite !remove_hyphens_app, remove_hyphens_hyphen,
    !remove_hyphens_app, remove_hyphens_hyphen,
    <- !remove_hyphens_app.
  apply remove_hyphens_id. exact Hne.
Qed.

(** From the ten symbols of a well-formed code, [formatDigipinForDisplay]
    builds the code. *)
Lemma format_code (code : string) :
  well_formed code = true ->
  Visualizer.formatDigipinForDisplay (without_separators code) = code.
Proof.
  intros Hwf.
  destruct (well_formed_inv code Hwf)
    as (a & b & c & d & e & f & g & h & i & j & -> & Hall).
  unfold without_separators, stripped.
  rewrite list_ascii_of_string_of_list_ascii.
  rewrite (remove_hyphens_code _ _ _ _ _ _ _ _ _ _ Hall).
  reflexivity.
Qed.

(** X8. [formatDigipinForDisplay] only adds hyphens to a string, and from
    the ten symbols of a well-formed code it builds that code again. *)
Theorem format_display (s code : string) :
  well_formed code = true ->
  stripped (Visualizer.formatDigipinForDisplay s) = stripped s /\
  Visualizer.formatDigipinForDisplay (without_separators code) = code.
Proof.
  intros Hwf. split; [apply format_stripped|apply format_code; exact Hwf].
Qed.

Lemma format_display_witness :
  stripped (Visualizer.formatDigipinForDisplay "4FK5M") = stripped "4FK5M" /\
  Visualizer.formatDigipinForDisplay (without_separators "4FK-5MK-9PPK")
  = "4FK-5MK-9PPK"%string.
Proof. apply format_display. reflexivity. Defined.

(** ** The points of the map *)

Lemma isInIndiaBounds_spec (lat lon : float) :
  Visualizer.isInIndiaBounds lat lon = true <-> in_bounds lat lon.
Proof.
  unfold Visualizer.isInIndiaBounds, in_bounds.
  change Visualizer.INDIA_BOUNDS with BOUNDS.
  rewrite !andb_true_iff. tauto.
Qed.

(** X9. [getDigipinAt] returns a code exactly for the points within the
    bounds, and the code is the well-formed code of the point; for every
    other latitude or longitude, NaN included, it returns [null]. *)
Theorem getDigipinAt_spec (lat lon : float) :
  match Visualizer.getDigipinAt lat lon with
  | Some code =>
      in_bounds lat lon /\ getDigiPin lat lon = Ok code /\
      well_formed code = true
  | None => ~ in_bounds lat lon
  end.
Proof.
  unfold Visualizer.getDigipinAt, Visualizer.getDigiPin.
  destruct (Visualizer.isInIndiaBounds lat lon) eqn:Hb.
  - apply isInIndiaBounds_spec in Hb.
    destruct (encode_well_formed lat lon Hb) as (code & E1 & E2 & W & _).
    rewrite E2. split; [exact Hb|]. split; [exact E1|exact W].
  - intros Hin. apply isInIndiaBounds_spec in Hin. congruence.
Qed.

(** X10. [handleCellHover] never shows [Out of bounds]: for the centre of
    a cell within the bounds it shows the first symbols of the code of the
    centre, as many as the current level, grouped, which at level 10 is
    the code itself; for any other centre it shows nothing new. *)
Theorem hover_label (currentGridLevel : nat) (lat lon : float) :
  match Visualizer.hoverLabel currentGridLevel lat lon with
  | Visualizer.Shown label =>
      exists code : string,
        getDigiPin lat lon = Ok code /\
        stripped label = take currentGridLevel (stripped code) /\
        ((10 <= currentGridLevel)%nat -> label = code)
  | Visualizer.OutOfBounds => False
  | Visualizer.Unchanged => ~ in_bounds lat lon
  end.
Proof.
  unfold Visualizer.hoverLabel, Visualizer.getDigiPin.
  destruct (Visualizer.isInIndiaBounds lat lon) eqn:Hb.
  - apply isInIndiaBounds_spec in Hb.
    destruct (encode_well_formed lat lon Hb) as (code & E1 & E2 & W & _).
    rewrite E2. exists code. split; [exact E1|].
    fold (stripped code). fold (without_separators code).
    pose proof (remove_hyphens_clean (list_ascii_of_string code)) as Hclean.
    fold (stripped code) in Hclean.
    assert (Hlist : list_ascii_of_string (without_separators code)
                    = stripped code)
      by apply list_ascii_of_string_of_list_ascii.
    split.
    + rewrite format_stripped. unfold stripped at 1.
      rewrite list_js_substring by lia.
      rewrite Hlist, Nat.sub_0_r, drop_0.
      apply remove_hyphens_id. apply Forall_take. exact Hclean.
    + intros Hlevel.
      assert (Hlen : String.length (without_separators code) = 10%nat).
      { rewrite <- list_ascii_length, Hlist.
        destruct (well_formed_inv code W)
          as (a & b & c & d & e & f & g & h & i & j & -> & Hall).
        unfold stripped. rewrite list_ascii_of_string_of_list_ascii.
        rewrite (remove_hyphens_code _ _ _ _ _ _ _ _ _ _ Hall).
        reflexivity. }
      assert (Hsub : js_substring (without_separators code) 0
                       currentGridLevel = without_separators code).
      { rewrite <- (string_of_list_ascii_of_string (js_substring _ _ _)).
        rewrite list_js_substring by lia.
        rewrite Nat.sub_0_r, drop_0.
        rewrite take_ge;
          [apply string_of_list_ascii_of_string
          |rewrite list_ascii_length, Hlen; exact Hlevel]. }
      rewrite Hsub.
      exact (format_code code W).
  - intros Hin. apply isInIndiaBounds_spec in Hin. congruence.
Qed.

(** ** The levels of the grid *)

(** X11. Whatever the zoom of the map is, after [updateGridLevel] the
    current level is from 1 to 10, so the entry of [GRID_LEVELS] that
    [updateInfoPanel] reads is defined, and it is the entry of that
    level. *)
Theorem grid_level_defined (zoom : float) (currentGridLevel : nat) :
  let level := Visualizer.updateGridLevel zoom currentGridLevel in
  (1 <= level <= 10)%nat /\
  exists info : Visualizer.grid_level,
    Visualizer.gridInfo level = Some info /\
    Visualizer.level info = level /\ Visualizer.chars info = level.
Proof.
  cbv zeta. unfold Visualizer.updateGridLevel.
  match goal with
  | |- context [bool_decide (?n <> currentGridLevel)] =>
      set (newLevel := n);
      assert (Hnew : (if bool_decide (newLevel <> currentGridLevel)
                      then newLevel else currentGridLevel) = newLevel)
  end.
  { destruct (decide (newLevel = currentGridLevel)) as [<-|Hne].
    - destruct (bool_decide _); reflexivity.
    - rewrite bool_decide_eq_true_2 by exact Hne. reflexivity. }
  rewrite Hnew. unfold newLevel.
  repeat match goal with
         | |- context [if ?b then _ else _] => destruct b
         end;
    (split; [lia|eexists; split; [reflexivity|split; reflexivity]]).
Qed.

(** * The cells of the codes *)

Lemma ltb_real (x y : float) (mx my : positive) (ex ey : Z) :
  Prim2SF x = S754_finite false mx ex ->
  Prim2SF y = S754_finite false my ey ->
  (x <? y) = true -> (F2R x < F2R y)%R.
Proof.
  intros Hx Hy H. rewrite FloatAxioms.ltb_spec in H.
  pose proof (Prim2SF_valid x) as Vx. pose proof (Prim2SF_valid y) as Vy.
  unfold F2R. rewrite Hx, Hy in *. cbn [SF2R cond_Zopp].
  pose proof (SFcompare_pos mx my ex ey Vx Vy) as C. unfold SFltb in H.
  destruct (SFcompare (S754_finite false mx ex) (S754_finite false my ey))
    as [[]|]; try discriminate H. exact C.
Qed.

(** A positive number strictly between the bounds of a final cell lies in
    the interior of the cell. *)
Lemma inside_cell (a : axis_kind) (P : list nat) (x : float) :
  checked a -> valid_path P -> length P = 10%nat ->
  (exists m e, Prim2SF x = S754_finite false m e) ->
  (fst (cell_of a P) <? x) = true -> (x <? snd (cell_of a P)) = true ->
  axis_path x (axis_lo a) (axis_hi a) 10 = P.
Proof.
  intros Ha VP LP Hx H1 H2.
  destruct (cell_of_units a Ha P VP ltac:(lia)) as (Ecell & B1 & B2).
  pose proof Ha as (_ & Hu & _).
  rewrite LP in Ecell, B2. change (cell_width 10) with 36%Z in Ecell, B2.
  assert (H27 : (2 ^ 27 < 2 ^ 53)%Z) by reflexivity.
  change (cell_width 0) with 37748736%Z in *.
  destruct (of_units_spec (units_of a P)) as (ml & el & Hl & Fl); [lia|].
  destruct (of_units_spec (units_of a P + 36)) as (mh & eh & Hh & Fh); [lia|].
  rewrite Ecell in H1, H2. cbn [fst snd] in H1, H2.
  pose proof Hx as (m & e & Hm).
  apply (ltb_real _ _ _ _ _ _ Hl Hm) in H1.
  apply (ltb_real _ _ _ _ _ _ Hm Hh) in H2.
  rewrite Fl in H1. rewrite Fh in H2.
  pose proof (axis_path_inside a Ha x Hx P [] VP LP) as H.
  rewrite LP in H. apply H. cbn [app]. split; assumption.
Qed.

(** X12. A point that lies strictly inside the rectangle on which the
    decoder ends for the code of another point has the same code. *)
Theorem same_cell_same_code (lat lon lat' lon' : float) :
  in_bounds lat lon -> in_bounds lat' lon' ->
  exists (code : string) (b : bounds),
    getDigiPin lat lon = Ok code /\ decode_bounds refine code = Ok b /\
    ((minLat b <? lat') = true -> (lat' <? maxLat b) = true ->
     (minLon b <? lon') = true -> (lon' <? maxLon b) = true ->
     getDigiPin lat' lon' = Ok code).
Proof.
  intros Hin Hin'.
  destruct (encode_paths lat lon Hin) as ((Vp & Lp & _) & (Vq & Lq & _)).
  destruct (encode_code lat lon Hin) as (E1 & _ & Hvalid & P1 & P2).
  destruct (decode_bounds_spec _ Hvalid) as (D1 & _).
  cbv zeta in D1. unfold code_rectangle in D1. rewrite P1, P2 in D1.
  destruct (encode_inputs lat' lon' Hin') as ((Hx & _) & (Hy & _)).
  destruct (encode_code lat' lon' Hin') as (E1' & _).
  eexists _, _. split; [exact E1|]. split; [exact D1|].
  cbn [rectangle minLat maxLat minLon maxLon]. intros H1 H2 H3 H4.
  rewrite E1'.
  rewrite (inside_cell latitude_axis _ lat' latitude_checked Vp Lp Hx H1 H2).
  rewrite (inside_cell longitude_axis _ lon' longitude_checked Vq Lq Hy H3 H4).
  reflexivity.
Qed.

Lemma same_cell_same_code_witness :
  exists code : string,
    getDigiPin 18.968557 72.822191 = Ok code /\
    getDigiPin 18.96856 72.82219 = Ok code.
Proof.
  destruct (same_cell_same_code 18.968557 72.822191 18.96856 72.82219)
    as (code & b & E & D & H);
    [repeat split; reflexivity|repeat split; reflexivity|].
  exists code. split; [exact E|].
  vm_compute in E. injection E as <-.
  vm_compute in D. injection D as <-.
  apply H; reflexivity.
Defined.

(** * The decoded centre *)

Lemma leaf_midpoint (a : axis_kind) (p : list nat) :
  checked a -> valid_path p -> length p = 10%nat ->
  let c := cell_of a p in
  let n := micro_units (units_of a p + 18) in
  (2 * F2R (centre c) = F2R (fst c) + F2R (snd c))%R /\
  (Rabs (IZR n / 1000000 - F2R (centre c)) <= 1 / 2000000)%R.
Proof.
  intros Ha Hp Hlen c n.
  destruct (leaf_centre a Ha p Hp Hlen) as (_ & Fc & _).
  destruct (leaf_units a Ha p Hp Hlen) as [Hu1 Hu2].
  destruct (cell_of_units a Ha p Hp ltac:(lia)) as (Ecell & _).
  rewrite Hlen in Ecell. change (cell_width 10) with 36%Z in Ecell.
  assert (H27 : (2 ^ 27 < 2 ^ 53)%Z) by reflexivity.
  destruct (of_units_spec (units_of a p)) as (ml & el & _ & Fl); [lia|].
  destruct (of_units_spec (units_of a p + 36)) as (mh & eh & _ & Fh); [lia|].
  unfold c. fold (centre (cell_of a p)). rewrite Fc.
  assert (E1 : fst (cell_of a p) = of_units (units_of a p))
    by (rewrite Ecell; reflexivity).
  assert (E2 : snd (cell_of a p) = of_units (units_of a p + 36))
    by (rewrite Ecell; reflexivity).
  rewrite E1, E2, Fl, Fh.
  pose proof (micro_units_spec (units_of a p + 18)) as [H1 H2]. fold n in H1, H2.
  apply IZR_le in H1. apply IZR_lt in H2.
  rewrite !plus_IZR, !mult_IZR, ?plus_IZR in *.
  rewrite (bpow_neg_num 20) in *.
  change (IZR (2 ^ Z.pos 20)) with 1048576%R in *.
  split; [lra|]. apply Rabs_le. lra.
Qed.

(** X13. For a valid code the decoder of index.ts prints, for each
    coordinate, the exact midpoint of the final rectangle rounded to six
    decimals: the midpoint is computed without a rounding error, and the
    printed decimal is within half a millionth of it. *)
Theorem decoded_centre_rounded (digiPin : string) :
  valid_code digiPin ->
  exists (b : bounds) (n m : Z),
    decode_bounds refine digiPin = Ok b /\
    getLatLngFromDigiPin digiPin
    = Ok {| latitude := Digits (with_point 6 n);
            longitude := Digits (with_point 6 m) |} /\
    (2 * F2R (centerLat b) = F2R (minLat b) + F2R (maxLat b))%R /\
    (2 * F2R (centerLon b) = F2R (minLon b) + F2R (maxLon b))%R /\
    (Rabs (IZR n / 1000000 - F2R (centerLat b)) <= 1 / 2000000)%R /\
    (Rabs (IZR m / 1000000 - F2R (centerLon b)) <= 1 / 2000000)%R.
Proof.
  intros Hvalid.
  destruct (decode_bounds_spec digiPin Hvalid) as (H1 & _).
  destruct (decode_spec digiPin Hvalid) as (E & _). cbv zeta in H1, E.
  destruct Hvalid as [Hlen Hall].
  destruct (paths_spec _ Hall) as (V1 & V2 & L1 & L2).
  rewrite Hlen in L1, L2.
  destruct (leaf_midpoint latitude_axis _ latitude_checked V1 L1) as [A1 A2].
  destruct (leaf_midpoint longitude_axis _ longitude_checked V2 L2)
    as [B1 B2].
  eexists _, _, _. split; [exact H1|]. split; [exact E|].
  repeat split; assumption.
Qed.

Lemma decoded_centre_rounded_witness :
  exists (b : bounds) (n m : Z),
    decode_bounds refine "4FK-5MK-9PPK" = Ok b /\
    getLatLngFromDigiPin "4FK-5MK-9PPK"
    = Ok {| latitude := Digits (with_point 6 n);
            longitude := Digits (with_point 6 m) |} /\
    (2 * F2R (centerLat b) = F2R (minLat b) + F2R (maxLat b))%R /\
    (2 * F2R (centerLon b) = F2R (minLon b) + F2R (maxLon b))%R /\
    (Rabs (IZR n / 1000000 - F2R (centerLat b)) <= 1 / 2000000)%R /\
    (Rabs (IZR m / 1000000 - F2R (centerLon b)) <= 1 / 2000000)%R.
Proof.
  apply (decoded_centre_rounded "4FK-5MK-9PPK").
  split; [reflexivity|].
  apply Forall_forall. intros c Hc.
  apply (bool_decide_unpack _).
  revert c Hc. apply Forall_forall.
  repeat constructor; vm_compute; reflexivity.
Defined.

(** * The grid drawn over the map *)

Lemma flat_map_length_le {A B} (f : A -> list B) (k : nat) (l : list A) :
  (forall x, length (f x) <= k)%nat ->
  (length (flat_map f l) <= length l * k)%nat.
Proof.
  intros Hf. induction l as [|x l IH]; cbn [flat_map length]; [lia|].
  rewrite length_app. specialize (Hf x). lia.
Qed.

(** X14. The grid drawn over the map has at most 16 cells up to zoom 5,
    36 up to zoom 8 and 64 beyond, whatever the visible bounds are; every
    cell of it meets the bounding box, has the current level, and has the
    middle of its sides for centre. *)
Theorem grid_cells_spec (zoom south0 north0 west0 east0 : float)
    (level : nat) :
  let cells :=
    Visualizer.calculateGridCells zoom south0 north0 west0 east0 level in
  (length cells
   <= if (zoom <=? 5)%float then 16
      else if (zoom <=? 8)%float then 36 else 64)%nat /\
  Forall (fun c =>
    let '((south, west), (north, east)) := Visualizer.cell_bounds c in
    Visualizer.intersectsIndiaBounds south north west east = true /\
    Visualizer.cell_center c = ((south + north) / 2, (west + east) / 2) /\
    Visualizer.cell_level c = level) cells.
Proof.
  intros cells. split.
  - unfold cells, Visualizer.calculateGridCells.
    assert (H : forall (d : float) (n : nat) (f : nat -> nat -> list Visualizer.grid_cell),
               (forall i j, length (f i j) <= 1)%nat ->
               length (Visualizer.counters d 8 0) = n ->
               (length (flat_map (fun i => flat_map (f i)
                                    (Visualizer.counters d 8 0))
                          (Visualizer.counters d 8 0)) <= n * n)%nat).
    { intros d n f Hf Hn.
      etransitivity; [apply (flat_map_length_le _ n)|rewrite Hn; lia].
      intros i.
      etransitivity; [apply (flat_map_length_le _ 1)|rewrite Hn; lia].
      intros j. apply Hf. }
    assert (Hf : forall (s1 n1 w1 e1 : float) (c : Visualizer.grid_cell),
               (length (if Visualizer.intersectsIndiaBounds s1 n1 w1 e1
                        then [c] else []) <= 1)%nat).
    { intros s1 n1 w1 e1 c.
      destruct (Visualizer.intersectsIndiaBounds _ _ _ _); cbn; lia. }
    destruct (zoom <=? 5); [|destruct (zoom <=? 8)].
    + apply (H _ 4%nat); [intros; apply Hf|reflexivity].
    + apply (H _ 6%nat); [intros; apply Hf|reflexivity].
    + apply (H _ 8%nat); [intros; apply Hf|reflexivity].
  - apply Forall_forall. intros c Hc. unfold cells in Hc.
    unfold Visualizer.calculateGridCells in Hc. cbv zeta in Hc.
    apply list_elem_of_In, in_flat_map in Hc as (i & _ & Hc).
    apply in_flat_map in Hc as (j & _ & Hc).
    destruct (Visualizer.intersectsIndiaBounds _ _ _ _) eqn:E;
      [|destruct Hc].
    destruct Hc as [<-|[]]. cbn [Visualizer.cell_bounds].
    split; [exact E|]. split; reflexivity.
Qed.

(** A number that is not below a positive number is positive or
    infinite. *)
Lemma above_positive (c x : float) (mc : positive) (ec : Z) :
  Prim2SF c = S754_finite false mc ec -> (c <=? x)%float = true ->
  Prim2SF x = S754_infinity false \/
  exists mx ex, Prim2SF x = S754_finite false mx ex /\
                (F2R c <= F2R x)%R.
Proof.
  intros Hc H. rewrite FloatAxioms.leb_spec in H.
  pose proof (Prim2SF_valid c) as Vc. pose proof (Prim2SF_valid x) as Vx.
  unfold F2R. rewrite Hc in *. unfold SFleb in H.
  destruct (Prim2SF x) as [[]|[]| |[] mx ex] eqn:Hx;
    try discriminate H; [left; reflexivity|].
  right. exists mx, ex. split; [reflexivity|]. cbn [SF2R cond_Zopp].
  pose proof (SFcompare_pos mc mx ec ex Vc Vx) as C.
  destruct (SFcompare (S754_finite false mc ec) (S754_finite false mx ex))
    as [[]|]; try discriminate H; lra.
Qed.

Lemma not_below (c x e : float) (mc : positive) (ec : Z) :
  Prim2SF c = S754_finite false mc ec ->
  (c <=? x)%float = true -> (x <=? e)%float = true ->
  (e <? c)%float = false.
Proof.
  intros Hc H1 H2.
  destruct (above_positive c x mc ec Hc H1) as [Hx|(mx & ex & Hx & Hr)].
  - rewrite FloatAxioms.leb_spec in H2. rewrite FloatAxioms.ltb_spec.
    rewrite Hx, Hc in *. unfold SFleb in H2. unfold SFltb.
    destruct (Prim2SF e) as [[]|[]| |[] me ee]; try discriminate H2;
      reflexivity.
  - destruct (above_positive x e mx ex Hx H2) as [He|(me & ee & He & Hr')].
    + rewrite FloatAxioms.ltb_spec, He, Hc. reflexivity.
    + apply (ltb_false _ _ _ _ _ _ He Hc). lra.
Qed.

Lemma not_above (c0 c x w : float) (mc0 mc : positive) (ec0 ec : Z) :
  Prim2SF c0 = S754_finite false mc0 ec0 ->
  Prim2SF c = S754_finite false mc ec ->
  (c0 <=? x)%float = true ->
  (x <=? c)%float = true -> (w <=? x)%float = true ->
  (c <? w)%float = false.
Proof.
  intros Hc0 Hc H0 H1 H2.
  destruct (above_positive c0 x _ _ Hc0 H0)
    as [Hx|(mx & ex & Hx & _)].
  - rewrite FloatAxioms.leb_spec, Hx, Hc in H1. discriminate H1.
  - pose proof (Prim2SF_valid c) as Vc. pose proof (Prim2SF_valid x) as Vx.
    pose proof (Prim2SF_valid w) as Vw.
    rewrite FloatAxioms.leb_spec in H1, H2. rewrite FloatAxioms.ltb_spec.
    rewrite Hx, Hc in *. unfold SFleb in H1, H2. unfold SFltb.
    destruct (Prim2SF w) as [[]|[]| |[] mw ew]; try discriminate H2;
      try reflexivity.
    pose proof (SFcompare_pos mx mc ex ec Vx Vc) as C1.
    pose proof (SFcompare_pos mw mx ew ex Vw Vx) as C2.
    pose proof (SFcompare_pos mc mw ec ew Vc Vw) as C3.
    destruct (SFcompare (S754_finite false mx ex) (S754_finite false mc ec))
      as [[]|]; try discriminate H1;
      destruct (SFcompare (S754_finite false mw ew)
                  (S754_finite false mx ex)) as [[]|]; try discriminate H2;
      destruct (SFcompare (S754_finite false mc ec)
                  (S754_finite false mw ew)) as [[]|];
      try reflexivity; try contradiction; lra.
Qed.

(** X15. A rectangle that contains a point within the bounds meets the
    bounding box: the grid drawn over the map leaves out no cell in which
    a point has a code. *)
Theorem containing_cell_kept (south north west east lat lon : float) :
  Visualizer.isInIndiaBounds lat lon = true ->
  (south <=? lat) = true -> (lat <=? north) = true ->
  (west <=? lon) = true -> (lon <=? east) = true ->
  Visualizer.intersectsIndiaBounds south north west east = true.
Proof.
  intros Hin S N W E. unfold Visualizer.isInIndiaBounds in Hin.
  apply andb_prop in Hin as [Hin H4]. apply andb_prop in Hin as [Hin H3].
  apply andb_prop in Hin as [H1 H2].
  unfold Visualizer.intersectsIndiaBounds.
  rewrite (not_below (minLon Visualizer.INDIA_BOUNDS) lon east _ _ eq_refl H3 E).
  rewrite (not_below (minLat Visualizer.INDIA_BOUNDS) lat north _ _ eq_refl H1 N).
  rewrite (not_above (minLon Visualizer.INDIA_BOUNDS)
             (maxLon Visualizer.INDIA_BOUNDS) lon west _ _ _ _
             eq_refl eq_refl H3 H4 W).
  rewrite (not_above (minLat Visualizer.INDIA_BOUNDS)
             (maxLat Visualizer.INDIA_BOUNDS) lat south _ _ _ _
             eq_refl eq_refl H1 H2 S).
  reflexivity.
Qed.

Lemma containing_cell_kept_witness :
  Visualizer.intersectsIndiaBounds 0 10 60 70 = true.
Proof.
  apply (containing_cell_kept 0 10 60 70 5 65); reflexivity.
Defined.
